(** * Missing-value imputers and outlier handler: a shallow embedding

    The development follows the two notebooks of the repository:
    - [missing_value_imputers.ipynb]: the classes [NumAndNumImputer],
      [CatAndNumImputer], [CatAndCatImputer], [NumAndCatImputer] and
      [MissingImputer];
    - the outlier notebook: the class [OutlierHandler].

    A pandas DataFrame is a finite map from column names to columns, a column
    is a list of cells, and a cell is a number, a string or the missing
    marker.  Numbers are exact rationals: the development is about which
    value ends in which cell, not about rounding.  A Python exception is an
    explicit error result. *)

From Stdlib Require Import QArith Qround String List Bool Lia Lqa.
From stdpp Require Import gmap strings list.

Open Scope string_scope.

(** ** Exceptions *)

(** The exceptions of the Python code.  [Unsupported] is none of them: it
    marks an input the development does not model (a pair naming one
    column twice, the "kmeans" binning, the order of two strings). *)
Inductive exn : Type :=
| KeyError
| IndexError
| TypeError
| ValueError
| NotFittedError
| Unsupported.

Inductive result (A : Type) : Type :=
| OK (a : A)
| Raise (e : exn).
Arguments OK {A} a.
Arguments Raise {A} e.

#[global] Instance result_ret : MRet result := fun A a => OK a.
#[global] Instance result_bind : MBind result :=
  fun A B f m => match m with OK a => f a | Raise e => Raise e end.

(** [for x in l: body], threading the mutated state. *)
Fixpoint for_each {A S : Type} (body : A -> S -> result S) (l : list A) (s : S)
  : result S :=
  match l with
  | [] => OK s
  | a :: l' => s' ← body a s; for_each body l' s'
  end.

(** A list comprehension whose body may raise. *)
Fixpoint map_result {A B : Type} (f : A -> result B) (l : list A)
  : result (list B) :=
  match l with
  | [] => OK []
  | a :: l' => b ← f a; bs ← map_result f l'; OK (b :: bs)
  end.

(** ** Cells, columns, frames *)

Inductive cell : Type :=
| NaN
| Num (q : Q)
| Str (s : string).

Abbreviation column := (list cell).
Abbreviation DataFrame := (gmap string (list cell)).

(** [Series.isna] on one cell. *)
Definition isna (c : cell) : bool :=
  match c with NaN => true | _ => false end.

(** [==] on one cell: the missing marker equals nothing, itself included. *)
Definition cell_eqb (a b : cell) : bool :=
  match a, b with
  | Num p, Num q => Qeq_bool p q
  | Str s, Str t => String.eqb s t
  | _, _ => false
  end.

(** [x[col]]. *)
Definition getitem (x : DataFrame) (col : string) : result column :=
  match x !! col with
  | Some c => OK c
  | None => Raise KeyError
  end.

(** [d[k]] for a dict that is only read by key. *)
Definition lookup_key {V : Type} (d : gmap string V) (k : string) : result V :=
  match d !! k with
  | Some v => OK v
  | None => Raise KeyError
  end.

(** [Series.fillna(v)]. *)
Definition fillna (v : cell) (c : column) : column :=
  map (fun a => if isna a then v else a) c.

(** [Series.dropna()]. *)
Definition dropna (c : column) : column :=
  filter (fun a => isna a = false) c.

(** [x.loc[mask, col] = v] on the column itself: rows the mask selects take
    [v], the others (and rows the mask does not reach) stay. *)
Fixpoint assign_where (mask : list bool) (v : cell) (c : column) : column :=
  match c, mask with
  | a :: c', m :: mask' => (if m then v else a) :: assign_where mask' v c'
  | _, _ => c
  end.

(** ** Numeric helpers *)

Fixpoint insert_sorted (q : Q) (l : list Q) : list Q :=
  match l with
  | [] => [q]
  | p :: l' => if Qle_bool q p then q :: l else p :: insert_sorted q l'
  end.

Definition sort_Q (l : list Q) : list Q := foldr insert_sorted [] l.

(** The numbers of a column; the missing marker is skipped, a string is a
    type error for every numeric reduction. *)
Fixpoint numeric_values (c : column) : result (list Q) :=
  match c with
  | [] => OK []
  | NaN :: c' => numeric_values c'
  | Num q :: c' => qs ← numeric_values c'; OK (q :: qs)
  | Str _ :: _ => Raise TypeError
  end.

Definition nth_Q (l : list Q) (i : nat) : Q := nth i l 0%Q.

(** [np.mean]: the empty mean is the missing marker. *)
Definition mean (c : column) : result cell :=
  qs ← numeric_values c;
  match qs with
  | [] => OK NaN
  | _ => OK (Num (Qred (foldr Qplus 0%Q qs / inject_Z (Z.of_nat (length qs)))))
  end.

(** [np.median] / [GroupBy.median]: middle value, or mean of the two middle
    values. *)
Definition median (c : column) : result cell :=
  qs ← numeric_values c;
  let s := sort_Q qs in
  let n := length s in
  match n with
  | O => OK NaN
  | _ =>
    if Nat.even n
    then OK (Num (Qred ((nth_Q s (n / 2 - 1) + nth_Q s (n / 2)) / 2)))
    else OK (Num (Qred (nth_Q s (n / 2))))
  end.

(** Linear interpolation at quantile [q] in the sorted sample [s] of length
    [S m]. *)
Definition interpolate (s : list Q) (m : nat) (q : Q) : Q :=
  let pos := (q * inject_Z (Z.of_nat m))%Q in
  let lo := Z.to_nat (Qfloor pos) in
  let frac := (pos - inject_Z (Qfloor pos))%Q in
  let a := nth_Q s lo in
  let b := nth_Q s (Nat.min (S lo) m) in
  Qred (a + (b - a) * frac).

(** [Series.quantile(q)], linear interpolation between order statistics,
    missing values excluded. *)
Definition quantile (c : column) (q : cell) : result cell :=
  match q with
  | Num q =>
    if Qle_bool 0 q && Qle_bool q 1 then
      qs ← numeric_values c;
      let s := sort_Q qs in
      match length s with
      | O => OK NaN
      | S m => OK (Num (interpolate s m q))
      end
    else Raise ValueError
  | NaN => Raise ValueError
  | Str _ => Raise TypeError
  end.

(** ** [collections.Counter] and [most_common] *)

(** One [Counter] update: an existing key keeps its place and its first
    spelling, a new key goes last. *)
Fixpoint counter_add (v : cell) (c : list (cell * nat)) : list (cell * nat) :=
  match c with
  | [] => [(v, 1)]
  | (w, n) :: c' =>
    if cell_eqb w v then (w, S n) :: c' else (w, n) :: counter_add v c'
  end.

Definition Counter (l : list cell) : list (cell * nat) :=
  fold_left (fun c v => counter_add v c) l [].

(** [sorted(items, key=count, reverse=True)]: a stable sort, so that equal
    counts keep the order of first encounter. *)
Fixpoint insert_by_count (e : cell * nat) (s : list (cell * nat))
  : list (cell * nat) :=
  match s with
  | [] => [e]
  | f :: s' =>
    if (e.2 <? f.2)%nat then f :: insert_by_count e s' else e :: s
  end.

Definition most_common (c : list (cell * nat)) : list (cell * nat) :=
  foldr insert_by_count [] c.

(** [Counter(k).most_common()[0][0]]; [most_common(1)[0][0]] is the same
    element.  An empty list has no entry [0]. *)
Definition mode (l : list cell) : result cell :=
  match most_common (Counter l) with
  | [] => Raise IndexError
  | (v, _) :: _ => OK v
  end.

(** ** Binning *)

(** Modelled from the spec: [KBinsDiscretizer] comes from scikit-learn and is
    not part of the repository.  The model follows section 4.1: one list of
    bin boundaries per source column, learned at fit time and reused as it is
    at transform time; "uniform" cuts [[min, max]] of the fitted sample into
    [n_bins] intervals of equal width, "quantile" cuts at the sample's
    quantiles; a column whose fitted values are all identical has a single
    bin, so that every value maps to bin 0.  Where the spec is silent the
    model keeps to scikit-learn: fewer than two bins, an unknown strategy, an
    empty or non-numeric sample are value errors, quantile boundaries closer
    than 1e-8 to their predecessor are dropped, and a value maps to the
    number of interior boundaries that are not above it. *)
Record KBinsDiscretizer : Type := {
  kb_n_bins : nat;
  kb_strategy : string;
  (* interior boundaries per fitted feature; [None] before fit *)
  kb_interior_edges : option (list (list Q))
}.

(** Modelled from the spec: the constructor of the discretizer, with the
    ordinal encoding the imputers ask for. *)
Definition KBinsDiscretizer_init (n : nat) (strategy : string)
  : KBinsDiscretizer :=
  {| kb_n_bins := n; kb_strategy := strategy; kb_interior_edges := None |}.

(** The values of a feature as floats: a string or a missing value is
    rejected. *)
Fixpoint to_floats (c : column) : result (list Q) :=
  match c with
  | [] => OK []
  | Num q :: c' => qs ← to_floats c'; OK (q :: qs)
  | _ :: _ => Raise ValueError
  end.

Definition fraction (k n : nat) : Q :=
  (inject_Z (Z.of_nat k) / inject_Z (Z.of_nat n))%Q.

Definition uniform_edges (lo hi : Q) (n : nat) : list Q :=
  map (fun k => Qred (lo + fraction k n * (hi - lo))) (seq 0 (S n)).

Definition quantile_edges (s : list Q) (n : nat) : list Q :=
  map (fun k => interpolate s (length s - 1) (fraction k n)) (seq 0 (S n)).

Fixpoint drop_narrow (prev : Q) (l : list Q) : list Q :=
  match l with
  | [] => []
  | e :: l' =>
    if Qle_bool (e - prev) (1 # 100000000)
    then drop_narrow e l'
    else e :: drop_narrow e l'
  end.

(** Boundaries without the first and the last one. *)
Definition interior (edges : list Q) : list Q := removelast (tail edges).

(** Modelled from the spec: the interior boundaries of one source column
    (section 4.1); a collapsed range has none. *)
Definition fit_feature (n : nat) (strategy : string) (c : column)
  : result (list Q) :=
  qs ← to_floats c;
  match sort_Q qs with
  | [] => Raise ValueError
  | (lo :: _) as s =>
    let hi := List.last s lo in
    if Qeq_bool lo hi then OK []
    else if String.eqb strategy "uniform" then
      OK (interior (uniform_edges lo hi n))
    else
      match quantile_edges s n with
      | [] => OK []
      | e :: es => OK (interior (e :: drop_narrow e es))
      end
  end.

(** Modelled from the spec: [fit] of the discretizer, one list of
    boundaries per column of [X]. *)
Definition KBinsDiscretizer_fit (kb : KBinsDiscretizer) (X : list column)
  : result KBinsDiscretizer :=
  if (kb_n_bins kb <? 2)%nat then Raise ValueError
  else if String.eqb (kb_strategy kb) "kmeans" then Raise Unsupported
  else if negb (String.eqb (kb_strategy kb) "uniform"
                || String.eqb (kb_strategy kb) "quantile")
  then Raise ValueError
  else
    match X with
    | [] => Raise ValueError
    | _ =>
      edges ← map_result (fit_feature (kb_n_bins kb) (kb_strategy kb)) X;
      OK {| kb_n_bins := kb_n_bins kb; kb_strategy := kb_strategy kb;
            kb_interior_edges := Some edges |}
    end.

(** Modelled from the spec: the bin of one value, the number of interior
    boundaries not above it, as the float the ordinal encoding returns. *)
Definition bin_of (edges : list Q) (q : Q) : cell :=
  Num (inject_Z (Z.of_nat (length (filter (fun e => Qle_bool e q = true) edges)))).

Definition transform_feature (edges : list Q) (c : column) : result column :=
  qs ← to_floats c; OK (map (bin_of edges) qs).

Fixpoint transform_features (edges : list (list Q)) (X : list column)
  : result (list column) :=
  match edges, X with
  | [], [] => OK []
  | e :: edges', c :: X' =>
    b ← transform_feature e c; bs ← transform_features edges' X'; OK (b :: bs)
  | _, _ => Raise ValueError
  end.

(** Modelled from the spec: [transform] of the discretizer, with the
    boundaries of fit. *)
Definition KBinsDiscretizer_transform (kb : KBinsDiscretizer) (X : list column)
  : result (list column) :=
  match kb_interior_edges kb with
  | None => Raise NotFittedError
  | Some edges => transform_features edges X
  end.

(** ** The group-statistic table *)

(** One fitted table: the rows [[key, statistic]] of
    [df.to_dict(orient="split")['data']]. *)
Abbreviation table := (list (cell * cell)).

(** [pd.DataFrame({src: keys, dst: values}).dropna()]: the rows where both
    the key and the value are present, in row order. *)
Definition pair_frame (keys dst : column) : list (cell * cell) :=
  filter (fun r : cell * cell => negb (isna r.1) && negb (isna r.2) = true)
         (zip keys dst).

(** The order [groupby] sorts its keys in: numbers by value, strings by
    code point, numbers before strings. *)
Definition cell_ltb (a b : cell) : bool :=
  match a, b with
  | Num p, Num q => negb (Qle_bool q p)
  | Str s, Str t => String.ltb s t
  | Num _, Str _ => true
  | _, _ => false
  end.

Fixpoint insert_key (k : cell) (l : list cell) : list cell :=
  match l with
  | [] => [k]
  | h :: l' =>
    if cell_eqb h k then l
    else if cell_ltb k h then k :: l
    else h :: insert_key k l'
  end.

(** The distinct keys of the frame, ascending. *)
Definition group_keys (rows : list (cell * cell)) : list cell :=
  fold_left (fun acc r => insert_key r.1 acc) rows [].

(** The destination values of one group, in row order. *)
Definition group_values (rows : list (cell * cell)) (k : cell) : list cell :=
  map snd (filter (fun r : cell * cell => cell_eqb r.1 k = true) rows).

(** [df.groupby(src, as_index=False).agg(...)] followed by
    [to_dict(orient="split")['data']]. *)
Definition groupby_agg (agg : list cell -> result cell)
  (rows : list (cell * cell)) : result table :=
  map_result (fun k => v ← agg (group_values rows k); OK (k, v))
             (group_keys rows).

(** The key of [impute_value_dict]: [src_col + "_" + dest_col]. *)
Definition pair_key (p : string * string) : string := p.1 ++ "_" ++ p.2.

(** The body of fit's loop over the pairs.  [keys] is the source column as
    the frame of the pair sees it: binned for a numeric source, raw for a
    categorical one.  A pair that names one column twice makes the dict
    literal of the source collapse to a single column; the model does not
    cover that frame and stops. *)
Definition fit_pair (agg : list cell -> result cell)
  (keys : string -> result column) (x : DataFrame)
  (p : string * string) (dict : gmap string (list (cell * cell)))
  : result (gmap string (list (cell * cell))) :=
  ks ← keys p.1;
  dst ← getitem x p.2;
  if String.eqb p.1 p.2 then Raise Unsupported
  else
    tbl ← groupby_agg agg (pair_frame ks dst);
    OK (<[pair_key p := tbl]> dict).

(** The mask [(keys == src_val) & x[dst].isna()]. *)
Definition entry_mask (ks : column) (key : cell) (dst : column) : list bool :=
  zip_with andb (map (fun k => cell_eqb k key) ks) (map isna dst).

(** The body of transform's inner loop:
    [x.loc[(keys == src_val) & x[dst].isna(), dst] = dest_val]. *)
Definition impute_entry (keys : DataFrame -> string -> result column)
  (p : string * string) (cat : cell * cell) (x : DataFrame)
  : result DataFrame :=
  ks ← keys x p.1;
  dst ← getitem x p.2;
  OK (<[p.2 := assign_where (entry_mask ks cat.1 dst) cat.2 dst]> x).

(** The body of transform's loop over the pairs. *)
Definition impute_pair (keys : DataFrame -> string -> result column)
  (dict : gmap string (list (cell * cell))) (p : string * string)
  (x : DataFrame) : result DataFrame :=
  tbl ← lookup_key dict (pair_key p);
  for_each (impute_entry keys p) tbl x.

(** ** The two imputers with a numeric source

    [NumAndNumImputer] and [NumAndCatImputer] have the same fields and the
    same [transform]; their [fit] differs in the statistic only. *)
Module NumSource.

Record t : Type := {
  n_bins : nat;
  binning_strategy : string;
  column_pairs : list (string * string);
  src_cols : option (list string);
  dest_cols : option (list string);
  kbins_discretizor : KBinsDiscretizer;
  impute_value_dict : gmap string (list (cell * cell))
}.

Definition init (column_pairs : list (string * string)) (n_bins : nat)
  (binning_strategy : string) : t :=
  {| n_bins := n_bins;
     binning_strategy := binning_strategy;
     column_pairs := column_pairs;
     src_cols := None;
     dest_cols := None;
     kbins_discretizor := KBinsDiscretizer_init n_bins binning_strategy;
     impute_value_dict := ∅ |}.

(** [x[self.src_cols].fillna(0)]. *)
Definition source_features (src : list string) (x : DataFrame)
  : result (list column) :=
  X ← map_result (getitem x) src; OK (map (fillna (Num 0)) X).

(** [binned_x]: the binned source columns as a frame with the columns
    [src_cols]; reading a name gives its first column. *)
Definition binned_frame (kb : KBinsDiscretizer) (src : list string)
  (x : DataFrame) : result DataFrame :=
  X ← source_features src x;
  B ← KBinsDiscretizer_transform kb X;
  OK (list_to_map (zip src B)).

Definition fit (agg : list cell -> result cell) (self : t) (x : DataFrame)
  : result t :=
  let src := map fst (column_pairs self) in
  let dst := map snd (column_pairs self) in
  X ← source_features src x;
  kb ← KBinsDiscretizer_fit (kbins_discretizor self) X;
  binned_x ← binned_frame kb src x;
  dict ← for_each (fit_pair agg (getitem binned_x) x) (zip src dst)
                  (impute_value_dict self);
  OK {| n_bins := n_bins self;
        binning_strategy := binning_strategy self;
        column_pairs := column_pairs self;
        src_cols := Some src;
        dest_cols := Some dst;
        kbins_discretizor := kb;
        impute_value_dict := dict |}.

Definition transform (self : t) (x : DataFrame) : result DataFrame :=
  match src_cols self with
  | Some src =>
    binned_x ← binned_frame (kbins_discretizor self) src x;
    match dest_cols self with
    | Some dst =>
      for_each (impute_pair (fun _ => getitem binned_x)
                            (impute_value_dict self))
               (zip src dst) x
    | None => Raise TypeError
    end
  | None => Raise KeyError
  end.

End NumSource.

Module NumAndNumImputer.
Definition init := NumSource.init.
Definition fit := NumSource.fit median.
Definition transform := NumSource.transform.
End NumAndNumImputer.

Module NumAndCatImputer.
Definition init := NumSource.init.
Definition fit := NumSource.fit mode.
Definition transform := NumSource.transform.
End NumAndCatImputer.

(** ** The two imputers with a categorical source

    [CatAndNumImputer] and [CatAndCatImputer]: the key of a row is the raw
    value of the source column, read from the frame as it is at that point
    of the loop. *)
Module CatSource.

Record t : Type := {
  column_pairs : list (string * string);
  src_cols : option (list string);
  dest_cols : option (list string);
  impute_value_dict : gmap string (list (cell * cell))
}.

Definition init (column_pairs : list (string * string)) : t :=
  {| column_pairs := column_pairs;
     src_cols := None;
     dest_cols := None;
     impute_value_dict := ∅ |}.

Definition fit (agg : list cell -> result cell) (self : t) (x : DataFrame)
  : result t :=
  let src := map fst (column_pairs self) in
  let dst := map snd (column_pairs self) in
  dict ← for_each (fit_pair agg (getitem x) x) (zip src dst)
                  (impute_value_dict self);
  OK {| column_pairs := column_pairs self;
        src_cols := Some src;
        dest_cols := Some dst;
        impute_value_dict := dict |}.

Definition transform (self : t) (x : DataFrame) : result DataFrame :=
  match src_cols self, dest_cols self with
  | Some src, Some dst =>
    for_each (impute_pair getitem (impute_value_dict self)) (zip src dst) x
  | _, _ => Raise TypeError
  end.

End CatSource.

Module CatAndNumImputer.
Definition init := CatSource.init.
Definition fit := CatSource.fit median.
Definition transform := CatSource.transform.
End CatAndNumImputer.

Module CatAndCatImputer.
Definition init := CatSource.init.
Definition fit := CatSource.fit mode.
Definition transform := CatSource.transform.
End CatAndCatImputer.

(** ** The scalar-strategy imputer *)

(** A Python dict that is iterated: the entries in insertion order. *)
Fixpoint dict_set {V : Type} (k : string) (v : V) (d : list (string * V))
  : list (string * V) :=
  match d with
  | [] => [(k, v)]
  | (k', v') :: d' =>
    if String.eqb k' k then (k', v) :: d' else (k', v') :: dict_set k v d'
  end.

Fixpoint dict_get {V : Type} (k : string) (d : list (string * V)) : option V :=
  match d with
  | [] => None
  | (k', v') :: d' => if String.eqb k' k then Some v' else dict_get k d'
  end.

Module MissingImputer.

Record t : Type := {
  (* the entries of the dict [strategies], in order; keys are distinct *)
  strategies : list (string * cell);
  impute_values : list (string * cell)
}.

Definition init (strategies : list (string * cell)) : t :=
  {| strategies := strategies; impute_values := [] |}.

(** The value fit resolves one strategy to. *)
Definition resolve (strategy : cell) (col_data : column) : result cell :=
  if cell_eqb strategy (Str "mean") then mean col_data
  else if cell_eqb strategy (Str "median") then median col_data
  else if cell_eqb strategy (Str "mode") then mode col_data
  else OK strategy.

Definition fit_col (x : DataFrame) (e : string * cell)
  (values : list (string * cell)) : result (list (string * cell)) :=
  c ← getitem x e.1;
  v ← resolve e.2 (dropna c);
  OK (dict_set e.1 v values).

Definition fit (self : t) (x : DataFrame) : result t :=
  values ← for_each (fit_col x) (strategies self) (impute_values self);
  OK {| strategies := strategies self; impute_values := values |}.

Definition transform_col (e : string * cell) (x : DataFrame)
  : result DataFrame :=
  c ← getitem x e.1; OK (<[e.1 := fillna e.2 c]> x).

Definition transform (self : t) (x : DataFrame) : result DataFrame :=
  for_each transform_col (impute_values self) x.

End MissingImputer.

(** ** The outlier handler *)

(** The values a strategy list holds: a scalar, or a list of two bounds. *)
Inductive pyval : Type :=
| Atom (c : cell)
| PyList (l : list cell).

Definition is_str (v : pyval) (s : string) : bool :=
  match v with
  | Atom (Str t) => String.eqb t s
  | _ => false
  end.

(** [l[i]]. *)
Definition index {A : Type} (l : list A) (i : nat) : result A :=
  match l !! i with
  | Some a => OK a
  | None => Raise IndexError
  end.

(** [v[i]]: an entry of a list, a character of a string; a number has no
    entries. *)
Definition subscript (v : pyval) (i : nat) : result cell :=
  match v with
  | PyList l => index l i
  | Atom (Str s) =>
    match String.get i s with
    | Some ch => OK (Str (String ch EmptyString))
    | None => Raise IndexError
    end
  | Atom _ => Raise TypeError
  end.

(** Arithmetic on bounds; the missing marker absorbs. *)
Definition lift2 (f : Q -> Q -> Q) (a b : cell) : result cell :=
  match a, b with
  | Num p, Num q => OK (Num (Qred (f p q)))
  | Str _, _ | _, Str _ => Raise TypeError
  | _, _ => OK NaN
  end.

(** [a < b] on one cell of a numeric column; comparing with the missing
    marker is false, comparing a number with a string is a type error, and
    the order of two strings is outside the model. *)
Definition cell_lt (a b : cell) : result bool :=
  match a, b with
  | Num p, Num q => OK (negb (Qle_bool q p))
  | Str _, Str _ => Raise Unsupported
  | Str _, _ | _, Str _ => Raise TypeError
  | _, _ => OK false
  end.

Module OutlierHandler.

Record t : Type := {
  (* the entries of the dict [strategies], in order; keys are distinct *)
  strategies : list (string * list pyval);
  outlier_bounds : gmap string pyval;
  fill_values : gmap string pyval
}.

Definition init (strategies : list (string * list pyval)) : t :=
  {| strategies := strategies; outlier_bounds := ∅; fill_values := ∅ |}.

Definition find_iqr_bounds (c : column) : result pyval :=
  q1 ← quantile c (Num (1 # 4));
  q3 ← quantile c (Num (3 # 4));
  iqr ← lift2 Qminus q3 q1;
  w ← lift2 Qmult (Num (3 # 2)) iqr;
  lower_bound ← lift2 Qminus q1 w;
  upper_bound ← lift2 Qplus q3 w;
  OK (PyList [lower_bound; upper_bound]).

Definition find_quantile_bounds (c : column) (bounds : pyval)
  : result pyval :=
  lo ← subscript bounds 0;
  lower_bound ← quantile c lo;
  hi ← subscript bounds 1;
  upper_bound ← quantile c hi;
  OK (PyList [lower_bound; upper_bound]).

Definition fit_col (x : DataFrame) (e : string * list pyval) (self : t)
  : result t :=
  let col := e.1 in
  let strategy := e.2 in
  method ← index strategy 0;
  if is_str method "quantile" then
    c ← getitem x col;
    b ← index strategy 1;
    bounds ← find_quantile_bounds c b;
    f ← index strategy 2;
    OK {| strategies := strategies self;
          outlier_bounds := <[col := bounds]> (outlier_bounds self);
          fill_values := <[col := f]> (fill_values self) |}
  else if is_str method "values" then
    bounds ← index strategy 1;
    f ← index strategy 2;
    OK {| strategies := strategies self;
          outlier_bounds := <[col := bounds]> (outlier_bounds self);
          fill_values := <[col := f]> (fill_values self) |}
  else
    c ← getitem x col;
    bounds ← find_iqr_bounds c;
    f ← index strategy 1;
    OK {| strategies := strategies self;
          outlier_bounds := <[col := bounds]> (outlier_bounds self);
          fill_values := <[col := f]> (fill_values self) |}.

Definition fit (self : t) (x : DataFrame) : result t :=
  for_each (fit_col x) (strategies self) self.

(** [x.loc[x[col] < bound, col] = v]. *)
Definition replace_below (col : string) (bound v : cell) (x : DataFrame)
  : result DataFrame :=
  c ← getitem x col;
  mask ← map_result (fun a => cell_lt a bound) c;
  OK (<[col := assign_where mask v c]> x).

(** [x.loc[x[col] > bound, col] = v]. *)
Definition replace_above (col : string) (bound v : cell) (x : DataFrame)
  : result DataFrame :=
  c ← getitem x col;
  mask ← map_result (cell_lt bound) c;
  OK (<[col := assign_where mask v c]> x).

Definition transform_col (self : t) (e : string * list pyval)
  (x : DataFrame) : result DataFrame :=
  let col := e.1 in
  let strategy := e.2 in
  method ← index strategy 0;
  bounds ← lookup_key (outlier_bounds self) col;
  lower_bound ← subscript bounds 0;
  upper_bound ← subscript bounds 1;
  fill_value ← lookup_key (fill_values self) col;
  if is_str fill_value "na" then
    x1 ← replace_below col lower_bound NaN x;
    replace_above col upper_bound NaN x1
  else
    x1 ← replace_below col lower_bound lower_bound x;
    replace_above col upper_bound upper_bound x1.

Definition transform (self : t) (x : DataFrame) : result DataFrame :=
  for_each (transform_col self) (strategies self) x.

End OutlierHandler.


(** ** The components behind one interface *)

(** The four group-statistic imputers. *)
Inductive group_imputer : Type :=
| NumAndNum (self : NumSource.t)
| CatAndNum (self : CatSource.t)
| CatAndCat (self : CatSource.t)
| NumAndCat (self : NumSource.t).

Definition imputer_fit (imp : group_imputer) (x : DataFrame)
  : result group_imputer :=
  match imp with
  | NumAndNum self => self' ← NumAndNumImputer.fit self x; OK (NumAndNum self')
  | CatAndNum self => self' ← CatAndNumImputer.fit self x; OK (CatAndNum self')
  | CatAndCat self => self' ← CatAndCatImputer.fit self x; OK (CatAndCat self')
  | NumAndCat self => self' ← NumAndCatImputer.fit self x; OK (NumAndCat self')
  end.

Definition imputer_transform (imp : group_imputer) (x : DataFrame)
  : result DataFrame :=
  match imp with
  | NumAndNum self => NumAndNumImputer.transform self x
  | CatAndNum self => CatAndNumImputer.transform self x
  | CatAndCat self => CatAndCatImputer.transform self x
  | NumAndCat self => NumAndCatImputer.transform self x
  end.

Definition imputer_src_cols (imp : group_imputer) : option (list string) :=
  match imp with
  | NumAndNum self | NumAndCat self => NumSource.src_cols self
  | CatAndNum self | CatAndCat self => CatSource.src_cols self
  end.

Definition imputer_dest_cols (imp : group_imputer) : option (list string) :=
  match imp with
  | NumAndNum self | NumAndCat self => NumSource.dest_cols self
  | CatAndNum self | CatAndCat self => CatSource.dest_cols self
  end.

Definition imputer_dict (imp : group_imputer) : gmap string (list (cell * cell)) :=
  match imp with
  | NumAndNum self | NumAndCat self => NumSource.impute_value_dict self
  | CatAndNum self | CatAndCat self => CatSource.impute_value_dict self
  end.

(** The source column transform compares with the table keys: read once
    from [binned_x] for a numeric source, read from the frame at each
    assignment for a categorical one. *)
Definition imputer_keys (imp : group_imputer) (x : DataFrame)
  : result (DataFrame -> string -> result column) :=
  match imp, imputer_src_cols imp with
  | (NumAndNum self | NumAndCat self), Some src =>
    binned_x ← NumSource.binned_frame (NumSource.kbins_discretizor self) src x;
    OK (fun _ => getitem binned_x)
  | (NumAndNum _ | NumAndCat _), None => Raise KeyError
  | (CatAndNum _ | CatAndCat _), _ => OK getitem
  end.

(** Every component with a [transform]. *)
Inductive component : Type :=
| GroupImputer (imp : group_imputer)
| ScalarImputer (self : MissingImputer.t)
| Outliers (self : OutlierHandler.t).

Definition component_transform (C : component) (x : DataFrame)
  : result DataFrame :=
  match C with
  | GroupImputer imp => imputer_transform imp x
  | ScalarImputer self => MissingImputer.transform self x
  | Outliers self => OutlierHandler.transform self x
  end.

(** ** Notions used in the statements *)

(** The cell of column [c] at row [i]. *)
Definition cell_at (x : DataFrame) (c : string) (i : nat) : option cell :=
  match x !! c with
  | Some col => col !! i
  | None => None
  end.

(** [b] is [a], unless [a] is missing. *)
Definition cell_fills (a b : cell) : Prop := isna a = false -> b = a.

(** [y] is [x] with some missing cells filled in: same columns, same rows,
    and every present cell kept. *)
Definition frame_fills (x y : DataFrame) : Prop :=
  forall c, option_Forall2 (Forall2 cell_fills) (x !! c) (y !! c).

(** [y] to [z]: cells are only filled, and the columns [src] are the same. *)
Definition fills_keeping (src : list string) (y z : DataFrame) : Prop :=
  frame_fills y z /\ forall s, s ∈ src -> y !! s = z !! s.

(** [x.loc[x[col] < bound, col] = v] at one cell. *)
Definition below_cell (bound v a : cell) : result cell :=
  m ← cell_lt a bound; OK (if (m : bool) then v else a).

(** [x.loc[x[col] > bound, col] = v] at one cell. *)
Definition above_cell (bound v a : cell) : result cell :=
  m ← cell_lt bound a; OK (if (m : bool) then v else a).

(** The two assignments of [transform] at one cell; [na] is
    [fill_value == 'na']. *)
Definition handle_cell (lo hi : cell) (na : bool) (a : cell) : result cell :=
  a1 ← below_cell lo (if na then NaN else lo) a;
  above_cell hi (if na then NaN else hi) a1.

(** What [transform] does to the column [col], given the fitted bounds. *)
Definition handle_column (self : OutlierHandler.t) (col : string) (c : column)
  : result column :=
  bounds ← lookup_key (OutlierHandler.outlier_bounds self) col;
  lo ← subscript bounds 0;
  hi ← subscript bounds 1;
  fill_value ← lookup_key (OutlierHandler.fill_values self) col;
  map_result (handle_cell lo hi (is_str fill_value "na")) c.

(** [y] to [z]: a column the handler has settled is the same column. *)
Definition keeps_settled (self : OutlierHandler.t) (y z : DataFrame) : Prop :=
  forall col c, y !! col = Some c -> handle_column self col c = OK c ->
                z !! col = Some c.

(** No pair reads a column that this pair or a later pair fills. *)
Fixpoint forward (ps : list (string * string)) : Prop :=
  match ps with
  | [] => True
  | p :: l => (forall q, q ∈ p :: l -> q.2 <> p.1) /\ forward l
  end.

(** The condition under which a second transform changes nothing.  For a
    numeric source, whose bins are computed once from the input: no
    destination column is a source column.  For a categorical source, read
    from the frame as it is: no pair has for its source the destination of
    that pair or of a later pair.  Nothing for the other components. *)
Definition chain_free (C : component) : Prop :=
  match C with
  | GroupImputer imp =>
    forall src dst, imputer_src_cols imp = Some src ->
                    imputer_dest_cols imp = Some dst ->
                    match imp with
                    | NumAndNum _ | NumAndCat _ =>
                      forall s d, s ∈ src -> d ∈ dst -> s <> d
                    | CatAndNum _ | CatAndCat _ => forward (zip src dst)
                    end
  | _ => True
  end.

(** The columns a group imputer names. *)
Definition imputer_column_pairs (imp : group_imputer) : list (string * string) :=
  match imp with
  | NumAndNum self | NumAndCat self => NumSource.column_pairs self
  | CatAndNum self | CatAndCat self => CatSource.column_pairs self
  end.

(** The table of one pair, as fit computes it. *)
Definition pair_table (agg : list cell -> result cell)
  (keys : string -> result column) (x : DataFrame) (p : string * string)
  : result table :=
  ks ← keys p.1; dst ← getitem x p.2; groupby_agg agg (pair_frame ks dst).

(** The first entry of a table whose key equals [k]. *)
Definition table_lookup (tbl : table) (k : cell) : option (cell * cell) :=
  find (fun e : cell * cell => cell_eqb k e.1) tbl.

(** How often [v] occurs in [l]. *)
Definition occ (v : cell) (l : list cell) : nat :=
  length (filter (fun a => cell_eqb a v = true) l).

(** [v] is the first value of [l], in the order of [l], among the most
    frequent ones: it stands somewhere in [l], every value before it is
    strictly less frequent, and no value is more frequent. *)
Definition first_most_frequent (v : cell) (l : list cell) : Prop :=
  exists pre post,
    l = (pre ++ v :: post)%list /\
    (forall u, u ∈ pre -> occ u l < occ v l) /\
    (forall w, w ∈ l -> occ w l <= occ v l).

(** The keys [K] of a counter stand in [l] in the order of their first
    encounter: each key is in [l] behind values that equal earlier keys
    only, and differs from the earlier keys. *)
Fixpoint first_seen (seen K : list cell) (l : list cell) : Prop :=
  match K with
  | [] => True
  | k :: K' =>
    (exists pre post, l = (pre ++ k :: post)%list /\
       forall u, u ∈ pre -> exists k', k' ∈ seen /\ cell_eqb k' u = true) /\
    (forall k', k' ∈ seen -> cell_eqb k' k = false) /\
    first_seen (seen ++ [k]) K' l
  end.

(** Every value of [l] equals one of the keys. *)
Definition covered (l K : list cell) : Prop :=
  forall w, w ∈ l -> exists k, k ∈ K /\ cell_eqb k w = true.


(** The number a cell of a source column is binned as: a missing value
    counts as zero. *)
Definition zero_filled (a : cell) : Q :=
  match a with
  | Num q => q
  | _ => 0
  end.

(** The boundaries fitted for the source column [s]: those of its first
    position in [src]. *)
Fixpoint feature_edges (src : list string) (edges : list (list Q)) (s : string)
  : option (list Q) :=
  match src, edges with
  | s0 :: src', e0 :: edges' =>
    if String.eqb s0 s then Some e0 else feature_edges src' edges' s
  | _, _ => None
  end.

(** No cell is a string. *)
Definition numeric (c : column) : Prop :=
  Forall (fun a => match a with Str _ => False | _ => True end) c.

(** The statistic a variant computes for a group. *)
Definition imputer_agg (imp : group_imputer) : list cell -> result cell :=
  match imp with
  | NumAndNum _ | CatAndNum _ => median
  | CatAndCat _ | NumAndCat _ => mode
  end.

(** The state of an imputer with a numeric source. *)
Definition numeric_source (imp : group_imputer) : option NumSource.t :=
  match imp with
  | NumAndNum self | NumAndCat self => Some self
  | CatAndNum _ | CatAndCat _ => None
  end.

(** ** Concrete frames *)

(** The number [z] as a cell. *)
Definition num (z : Z) : cell := Num (inject_Z z).

(** The state a fit returns; the examples below are checked to fit. *)
Definition fitted (r : result group_imputer) : group_imputer :=
  match r with
  | OK imp => imp
  | Raise _ => CatAndCat (CatSource.init [])
  end.

Definition fitted_num (r : result NumSource.t) : NumSource.t :=
  match r with
  | OK self => self
  | Raise _ => NumSource.init [] 0 EmptyString
  end.

Definition fitted_cat (r : result CatSource.t) : CatSource.t :=
  match r with
  | OK self => self
  | Raise _ => CatSource.init []
  end.

Definition fitted_missing (r : result MissingImputer.t) : MissingImputer.t :=
  match r with
  | OK self => self
  | Raise _ => MissingImputer.init []
  end.

Definition fitted_handler (r : result OutlierHandler.t) : OutlierHandler.t :=
  match r with
  | OK self => self
  | Raise _ => OutlierHandler.init []
  end.

(** The frame a transform returns. *)
Definition transformed (r : result DataFrame) : DataFrame :=
  match r with
  | OK x => x
  | Raise _ => ∅
  end.

(** Three categorical columns; [b] is imputed from [a] and [c] from [b],
    declared in the order [c], then [b]. *)
Definition chain_pairs : list (string * string) := [("b", "c"); ("a", "b")].

Definition chain_fit_frame : DataFrame :=
  <["a" := [Str "x"; Str "x"]]>
  (<["b" := [Str "u"; Str "u"]]>
  (<["c" := [Str "p"; Str "p"]]> ∅)).

Definition chain_frame : DataFrame :=
  <["a" := [Str "x"]]> (<["b" := [NaN]]> (<["c" := [NaN]]> ∅)).

Definition chain_imputer : group_imputer :=
  fitted (imputer_fit (CatAndCat (CatAndCatImputer.init chain_pairs))
                      chain_fit_frame).

(** The same pairs, [b] first. *)
Definition forward_imputer : group_imputer :=
  fitted (imputer_fit (CatAndCat (CatAndCatImputer.init [("a", "b"); ("b", "c")]))
                      chain_fit_frame).

(** The frame and the handler of the outlier notebook. *)
Definition outlier_frame : DataFrame :=
  <["a" := [num 1; num 2; num 100; num 1000]]>
  (<["b" := [num (-100); num 45; num 200; num 2000]]>
  (<["c" := [num 540; num 10; num 59; num 2]]> ∅)).

Definition quantile_na : list pyval :=
  [Atom (Str "quantile"); PyList [Num (2 # 10); Num (8 # 10)]; Atom (Str "na")].

Definition outlier_strategies : list (string * list pyval) :=
  [("a", quantile_na);
   ("b", [Atom (Str "values"); PyList [num 0; num 200]; Atom (Str "clip")]);
   ("c", [Atom (Str "iqr"); Atom (Str "clip")])].

Definition outlier_handler : OutlierHandler.t :=
  fitted_handler (OutlierHandler.fit (OutlierHandler.init outlier_strategies)
                                     outlier_frame).

Definition outlier_result : DataFrame :=
  transformed (OutlierHandler.transform outlier_handler outlier_frame).

(** Bounds given with the lower one above the upper one. *)
Definition inverted_strategies : list (string * list pyval) :=
  [("a", [Atom (Str "values"); PyList [num 10; num 0]; Atom (Str "clip")])].

Definition inverted_frame : DataFrame := <["a" := [num 5]]> ∅.

Definition inverted_handler : OutlierHandler.t :=
  fitted_handler (OutlierHandler.fit (OutlierHandler.init inverted_strategies)
                                     inverted_frame).

(** A method tag that is none of the three. *)
Definition unknown_tag_strategies : list (string * list pyval) :=
  [("c", [Atom (Str "zscore"); Atom (Str "clip")])].

(** Two numeric sources for one destination, two bins of equal width. *)
Definition num_pairs : list (string * string) := [("s1", "d"); ("s2", "d")].

Definition num_fit_frame : DataFrame :=
  <["s1" := [num 0; num 0; num 10]]>
  (<["s2" := [num 0; num 10; num 10]]>
  (<["d" := [num 2; num 4; num 60]]> ∅)).

Definition num_frame : DataFrame :=
  <["s1" := [num 0]]> (<["s2" := [num 10]]> (<["d" := [NaN]]> ∅)).

Definition num_imputer0 : NumSource.t := NumAndNumImputer.init num_pairs 2 "uniform".

Definition num_imputer : NumSource.t :=
  fitted_num (NumAndNumImputer.fit num_imputer0 num_fit_frame).



(** Two values tied at two occurrences each; "M" comes first. *)
Definition tie_frame : DataFrame :=
  <["city" := [Str "x"; Str "x"; Str "x"; Str "x"; Str "x"]]>
  (<["gender" := [Str "M"; Str "F"; NaN; Str "F"; Str "M"]]> ∅).

Definition tie_imputer : CatSource.t :=
  fitted_cat (CatAndCatImputer.fit (CatAndCatImputer.init [("city", "gender")])
                                   tie_frame).

Definition tie_scalar : MissingImputer.t :=
  fitted_missing (MissingImputer.fit (MissingImputer.init [("gender", Str "mode")])
                                     tie_frame).

(** The city that occurs once, with its gender missing. *)
Definition city_frame : DataFrame :=
  <["city" := [Str "city_1"; Str "city_1"; Str "city_171"]]>
  (<["gender" := [Str "M"; NaN; NaN]]> ∅).

Definition city_imputer : CatSource.t :=
  fitted_cat (CatAndCatImputer.fit (CatAndCatImputer.init [("city", "gender")])
                                   city_frame).



(** A source column with a missing value, two bins of equal width. *)
Definition zero_fill_frame : DataFrame :=
  <["s" := [NaN; num 10; num 4]]> (<["d" := [num 1; num 2; NaN]]> ∅).

Definition zero_fill_imputer0 : NumSource.t :=
  NumAndCatImputer.init [("s", "d")] 2 "uniform".

(** Two pairs whose names run into the same lookup key. *)
Definition collision_pairs : list (string * string) :=
  [("a_b", "c"); ("a", "b_c")].

Definition collision_fit_frame : DataFrame :=
  <["a_b" := [num 0; num 10]]>
  (<["c" := [num 1; num 3]]>
  (<["a" := [num 0; num 10]]>
  (<["b_c" := [num 100; num 300]]> ∅))).

Definition collision_frame : DataFrame :=
  <["a_b" := [num 0]]>
  (<["c" := [NaN]]>
  (<["a" := [num 0]]>
  (<["b_c" := [NaN]]> ∅))).

(** ** Further notions and frames *)

(** [y] has the columns of [x], each with as many rows. *)
Definition same_shape (x y : DataFrame) : Prop :=
  forall c, option_Forall2 (fun a b : column => length a = length b)
                           (x !! c) (y !! c).

(** The columns a component is configured to write. *)
Definition written_columns (C : component) : list string :=
  match C with
  | GroupImputer imp => default [] (imputer_dest_cols imp)
  | ScalarImputer self => map fst (MissingImputer.impute_values self)
  | Outliers self => map fst (OutlierHandler.strategies self)
  end.

(** Every cell of the column is present. *)
Definition complete (c : column) : Prop := Forall (fun a => isna a = false) c.

(** The three strategy names fit computes a statistic for. *)
Definition statistic_names : list cell := [Str "mean"; Str "median"; Str "mode"].

(** A frame with a column that has no value at all. *)
Definition empty_column_frame : DataFrame :=
  <["a" := [NaN; NaN]]> (<["b" := [num 1; NaN]]> ∅).

(** The strategies of the notebook, by kind: a constant, a mean, a mode. *)
Definition scalar_strategies : list (string * cell) :=
  [("id", num (-1)); ("hours", Str "mean"); ("gender", Str "mode")].

Definition scalar_frame : DataFrame :=
  <["id" := [num 7; NaN; num 9]]>
  (<["hours" := [num 10; num 20; NaN]]>
  (<["gender" := [NaN; Str "F"; NaN]]> ∅)).

Definition scalar_imputer : MissingImputer.t :=
  fitted_missing (MissingImputer.fit (MissingImputer.init scalar_strategies)
                                     scalar_frame).

(** Each city has its most frequent gender; one gender is missing. *)
Definition mode_frame : DataFrame :=
  <["city" := [Str "u"; Str "u"; Str "v"; Str "u"]]>
  (<["gender" := [Str "F"; Str "F"; Str "M"; NaN]]> ∅).

Definition mode_imputer : group_imputer :=
  fitted (imputer_fit (CatAndCat (CatAndCatImputer.init [("city", "gender")]))
                      mode_frame).

(** Every element stands before the elements [lt]-above it only. *)
Fixpoint ascending {A : Type} (lt : A -> A -> Prop) (l : list A) : Prop :=
  match l with
  | [] => True
  | a :: l' => Forall (lt a) l' /\ ascending lt l'
  end.


(** No gender is known. *)
Definition unknown_frame : DataFrame :=
  <["city" := [Str "u"; Str "v"]]> (<["gender" := [NaN; NaN]]> ∅).

Definition unknown_imputer : group_imputer :=
  fitted (imputer_fit (CatAndCat (CatAndCatImputer.init [("city", "gender")]))
                      unknown_frame).

(** A frame without the column [gender]. *)
Definition city_only_frame : DataFrame := <["city" := [Str "u"]]> ∅.

(** A strategy whose bounds fit computes from the column: "quantile" with
    two quantiles in order, or the IQR rule, which is every method other
    than "quantile" and "values". *)
Definition computed_bounds (strategy : list pyval) : Prop :=
  match strategy with
  | m :: rest =>
    if is_str m "quantile" then
      match rest with
      | PyList (Num ql :: Num qh :: _) :: _ => (ql <= qh)%Q
      | _ => False
      end
    else is_str m "values" = false
  | [] => False
  end.

(** A column with a missing value and two outliers. *)
Definition gap_frame : DataFrame := <["b" := [num (-5); NaN; num 500]]> ∅.

Definition clip_handler : OutlierHandler.t :=
  fitted_handler
    (OutlierHandler.fit
       (OutlierHandler.init
          [("b", [Atom (Str "values"); PyList [num 0; num 200]; Atom (Str "clip")])])
       gap_frame).

(** [fit] of every component. *)
Definition component_fit (C : component) (x : DataFrame) : result component :=
  match C with
  | GroupImputer imp => imp' ← imputer_fit imp x; OK (GroupImputer imp')
  | ScalarImputer self => self' ← MissingImputer.fit self x; OK (ScalarImputer self')
  | Outliers self => self' ← OutlierHandler.fit self x; OK (Outliers self')
  end.

(** [strategies] of the scalar imputer is a dict: no key twice. *)
Definition strategies_is_dict (C : component) : Prop :=
  match C with
  | ScalarImputer self => NoDup (map fst (MissingImputer.strategies self))
  | _ => True
  end.

(** The entries fit computes for the scalar imputer, in the order of
    [strategies]. *)
Definition resolved (x : DataFrame) (l : list (string * cell))
  : result (list (string * cell)) :=
  map_result (fun e => c ← getitem x e.1;
                       v ← MissingImputer.resolve e.2 (dropna c);
                       OK (e.1, v)) l.

(** [d[k] = v] for the entries of [r], in order. *)
Definition dict_update {V : Type} (r d : list (string * V)) : list (string * V) :=
  fold_left (fun d e => dict_set e.1 e.2 d) r d.

(** What a fit of the outlier handler adds to a state. *)
Definition handler_merge (s1 s : OutlierHandler.t) : OutlierHandler.t :=
  {| OutlierHandler.strategies := OutlierHandler.strategies s;
     OutlierHandler.outlier_bounds :=
       OutlierHandler.outlier_bounds s1 ∪ OutlierHandler.outlier_bounds s;
     OutlierHandler.fill_values :=
       OutlierHandler.fill_values s1 ∪ OutlierHandler.fill_values s |}.

(** A second frame for the columns of [scalar_frame]. *)
Definition scalar_frame2 : DataFrame :=
  <["id" := [NaN]]> (<["hours" := [num 4]]> (<["gender" := [Str "M"]]> ∅)).



(** What fit of the scalar imputer needs of a column for a strategy: no
    string, for "mean" and "median"; a value, for "mode"; nothing, for a
    constant. *)
Definition fits_strategy (s : cell) (c : column) : Prop :=
  (s = Str "mean" \/ s = Str "median" -> numeric c) /\
  (s = Str "mode" -> exists a, a ∈ c /\ isna a = false).

(** What the two assignments of transform make of the number [q], for
    bounds in order: the bound it is beyond (the missing marker, for the
    disposition "na"), and [q] itself within the bounds. *)
Definition replaced (lo hi : Q) (na : bool) (q : Q) : cell :=
  if Qle_bool lo q
  then if Qle_bool q hi then Num q else if na then NaN else Num hi
  else if na then NaN else Num lo.

(** The number of missing cells of a column: [isna().sum()]. *)
Definition missing_count (c : column) : nat :=
  length (filter (fun a => isna a = true) c).

(** * Properties *)

(** ** Error results *)

Lemma bind_OK {A B : Type} (m : result A) (f : A -> result B) (b : B) :
  m ≫= f = OK b -> exists a, m = OK a /\ f a = OK b.
Proof. destruct m as [a|e]; simpl; [eauto | discriminate]. Qed.

Lemma bind_Raise {A B : Type} (m : result A) (f : A -> result B) (e : exn) :
  m = Raise e -> m ≫= f = Raise e.
Proof. intros ->. reflexivity. Qed.

Lemma getitem_OK (x : DataFrame) (col : string) (c : column) :
  getitem x col = OK c <-> x !! col = Some c.
Proof.
  unfold getitem. destruct (x !! col); split; intros H; congruence.
Qed.

Lemma lookup_key_OK {V : Type} (d : gmap string V) (k : string) (v : V) :
  lookup_key d k = OK v <-> d !! k = Some v.
Proof.
  unfold lookup_key. destruct (d !! k); split; intros H; congruence.
Qed.

Ltac inv_result :=
  repeat match goal with
  | H : _ ≫= _ = OK _ |- _ =>
    let a := fresh "a" in
    let Ha := fresh "Ha" in
    apply bind_OK in H as (a & Ha & H)
  | H : OK _ = OK _ |- _ => injection H as H; try subst
  | H : Raise _ = OK _ |- _ => discriminate H
  | H : getitem _ _ = OK _ |- _ => apply getitem_OK in H
  | H : lookup_key _ _ = OK _ |- _ => apply lookup_key_OK in H
  end.

Lemma for_each_app {A S : Type} (body : A -> S -> result S) (l1 l2 : list A)
  (s : S) :
  for_each body (l1 ++ l2) s = s1 ← for_each body l1 s; for_each body l2 s1.
Proof.
  revert s. induction l1 as [|a l1 IH]; intros s; simpl; [reflexivity|].
  destruct (body a s) as [s'|e]; simpl; [apply IH | reflexivity].
Qed.

(** A property that every successful iteration keeps is kept by the loop. *)
Lemma for_each_invariant {A S : Type} (body : A -> S -> result S)
  (P : S -> Prop) (l : list A) :
  (forall a s s', a ∈ l -> P s -> body a s = OK s' -> P s') ->
  forall s s', P s -> for_each body l s = OK s' -> P s'.
Proof.
  induction l as [|a l IH]; intros Hstep s s' Hs H; simpl in H.
  - congruence.
  - apply bind_OK in H as (s1 & H1 & H).
    apply (IH (fun b t t' Hb => Hstep b t t' (list_elem_of_further _ _ _ Hb)) s1 s');
      [|exact H].
    eapply Hstep; [apply list_elem_of_here | exact Hs | exact H1].
Qed.

(** ** Cells *)

Lemma cell_eqb_sym (a b : cell) : cell_eqb a b = cell_eqb b a.
Proof.
  destruct a as [|p|s], b as [|q|t]; simpl; try reflexivity.
  - destruct (Qeq_bool p q) eqn:E, (Qeq_bool q p) eqn:F; try reflexivity.
    + apply Qeq_bool_iff in E. symmetry in E. apply Qeq_bool_iff in E. congruence.
    + apply Qeq_bool_iff in F. symmetry in F. apply Qeq_bool_iff in F. congruence.
  - apply String.eqb_sym.
Qed.

Lemma cell_eqb_trans (a b c : cell) :
  cell_eqb a b = true -> cell_eqb b c = true -> cell_eqb a c = true.
Proof.
  destruct a as [|p|s], b as [|q|t], c as [|r|u]; simpl; try discriminate.
  - intros H1 H2. apply Qeq_bool_iff in H1, H2. apply Qeq_bool_iff.
    etransitivity; eassumption.
  - intros H1 H2. apply String.eqb_eq in H1, H2. apply String.eqb_eq. congruence.
Qed.

Lemma cell_eqb_refl (a : cell) : isna a = false -> cell_eqb a a = true.
Proof.
  destruct a as [|p|s]; simpl; intros H; [discriminate| |].
  - apply Qeq_bool_iff. reflexivity.
  - apply String.eqb_refl.
Qed.

Lemma cell_eqb_notna (a b : cell) : cell_eqb a b = true -> isna a = false /\ isna b = false.
Proof. destruct a, b; simpl; intros H; try discriminate; auto. Qed.

(** Two keys that are equal cells select the same rows. *)
Lemma cell_eqb_congr (a b c : cell) :
  cell_eqb a b = true -> cell_eqb c a = cell_eqb c b.
Proof.
  intros H. destruct (cell_eqb c a) eqn:E1, (cell_eqb c b) eqn:E2; try reflexivity.
  - rewrite (cell_eqb_trans _ _ _ E1 H) in E2. discriminate.
  - rewrite cell_eqb_sym in H. rewrite (cell_eqb_trans _ _ _ E2 H) in E1. discriminate.
Qed.

(** ** Filling: the only change an imputer makes *)

Lemma column_fills_refl (c : column) : Forall2 cell_fills c c.
Proof. induction c; constructor; [intros _; reflexivity | assumption]. Qed.

Lemma column_fills_trans (c1 c2 c3 : column) :
  Forall2 cell_fills c1 c2 -> Forall2 cell_fills c2 c3 -> Forall2 cell_fills c1 c3.
Proof.
  intros H. revert c3. induction H as [|a b c1 c2 Hab H IH]; intros c3 H3.
  - inversion H3; constructor.
  - inversion H3 as [|b' d c2' c3' Hbd H3']; subst. constructor; [|apply IH; assumption].
    intros Ha. pose proof (Hab Ha) as ->. apply Hbd. exact Ha.
Qed.

Lemma frame_fills_refl (x : DataFrame) : frame_fills x x.
Proof.
  intros c. destruct (x !! c); constructor. apply column_fills_refl.
Qed.

Lemma frame_fills_trans (x y z : DataFrame) :
  frame_fills x y -> frame_fills y z -> frame_fills x z.
Proof.
  intros H1 H2 c. specialize (H1 c). specialize (H2 c).
  destruct H1 as [c1 c2 H1|]; inversion H2 as [c2' c3 H2'|]; subst; constructor.
  eapply column_fills_trans; eassumption.
Qed.

(** A present cell of [x] is the same cell of [y]. *)
Lemma frame_fills_cell (x y : DataFrame) (c : string) (i : nat) (a : cell) :
  frame_fills x y -> cell_at x c i = Some a -> isna a = false ->
  cell_at y c i = Some a.
Proof.
  intros H Ha Hna. unfold cell_at in *. specialize (H c).
  destruct H as [cx cy H|]; [|discriminate].
  destruct (Forall2_lookup_l _ _ _ _ _ H Ha) as (b & Hb & Hab).
  rewrite Hb. f_equal. apply Hab. exact Hna.
Qed.


(** [x.loc[...] = v] at one row. *)
Lemma assign_where_lookup (mask : list bool) (v : cell) (c : column) (i : nat) :
  assign_where mask v c !! i =
  match c !! i with
  | Some a => Some (if default false (mask !! i) then v else a)
  | None => None
  end.
Proof.
  revert mask i. induction c as [|a c IH]; intros mask i.
  - destruct mask; reflexivity.
  - destruct mask as [|m mask]; simpl.
    + destruct i; simpl; [reflexivity|]. destruct (c !! i); reflexivity.
    + destruct i; simpl; [reflexivity|]. apply IH.
Qed.

Lemma assign_where_length (mask : list bool) (v : cell) (c : column) :
  length (assign_where mask v c) = length c.
Proof.
  revert mask. induction c as [|a c IH]; intros [|m mask]; simpl; auto.
Qed.

Lemma entry_mask_lookup (ks : column) (key : cell) (dst : column) (i : nat) :
  default false (entry_mask ks key dst !! i) =
  match ks !! i, dst !! i with
  | Some k, Some a => cell_eqb k key && isna a
  | _, _ => false
  end.
Proof.
  unfold entry_mask. rewrite lookup_zip_with, !list_lookup_fmap.
  destruct (ks !! i); simpl; [|reflexivity].
  destruct (dst !! i); reflexivity.
Qed.

Lemma assign_entry_fills (ks : column) (key v : cell) (dst : column) :
  Forall2 cell_fills dst (assign_where (entry_mask ks key dst) v dst).
Proof.
  apply Forall2_same_length_lookup. split.
  - symmetry. apply assign_where_length.
  - intros i a b Ha Hb. rewrite assign_where_lookup, Ha in Hb.
    rewrite entry_mask_lookup, Ha in Hb. injection Hb as <-.
    intros Hna. rewrite Hna. destruct (ks !! i); [|reflexivity].
    rewrite andb_false_r. reflexivity.
Qed.

Lemma insert_fills (x : DataFrame) (c : string) (col col' : column) :
  x !! c = Some col -> Forall2 cell_fills col col' ->
  frame_fills x (<[c := col']> x).
Proof.
  intros Hc H c'. destruct (decide (c = c')) as [<-|Hne].
  - rewrite lookup_insert_eq, Hc. constructor. exact H.
  - rewrite lookup_insert_ne by exact Hne.
    destruct (x !! c'); constructor. apply column_fills_refl.
Qed.

(** One assignment of transform's inner loop, spelled out. *)
Lemma impute_entry_OK keys (p : string * string) (cat : cell * cell)
  (x x' : DataFrame) :
  impute_entry keys p cat x = OK x' ->
  exists ks dst, keys x p.1 = OK ks /\ x !! p.2 = Some dst /\
    x' = <[p.2 := assign_where (entry_mask ks cat.1 dst) cat.2 dst]> x.
Proof.
  unfold impute_entry. intros H. inv_result. eauto.
Qed.

Lemma impute_entry_fills keys p cat (x x' : DataFrame) :
  impute_entry keys p cat x = OK x' -> frame_fills x x'.
Proof.
  intros H. apply impute_entry_OK in H as (ks & dst & _ & Hd & ->).
  eapply insert_fills; [exact Hd | apply assign_entry_fills].
Qed.

Lemma impute_pair_fills keys dict p (x x' : DataFrame) :
  impute_pair keys dict p x = OK x' -> frame_fills x x'.
Proof.
  unfold impute_pair. intros H. inv_result.
  revert H. apply for_each_invariant with (P := fun y => frame_fills x y).
  - intros e s s' _ Hs Hstep. eapply frame_fills_trans; [exact Hs|].
    eapply impute_entry_fills; exact Hstep.
  - apply frame_fills_refl.
Qed.

Lemma impute_pairs_fills keys dict ps (x x' : DataFrame) :
  for_each (impute_pair keys dict) ps x = OK x' -> frame_fills x x'.
Proof.
  apply for_each_invariant with (P := fun y => frame_fills x y).
  - intros e s s' _ Hs Hstep. eapply frame_fills_trans; [exact Hs|].
    eapply impute_pair_fills; exact Hstep.
  - apply frame_fills_refl.
Qed.

Lemma impute_entry_other keys p cat (y y' : DataFrame) c :
  p.2 <> c -> impute_entry keys p cat y = OK y' -> y' !! c = y !! c.
Proof.
  intros Hne H. apply impute_entry_OK in H as (ks & dst & _ & _ & ->).
  apply lookup_insert_ne, Hne.
Qed.

Lemma impute_pair_other keys dict p (y y' : DataFrame) c :
  p.2 <> c -> impute_pair keys dict p y = OK y' -> y' !! c = y !! c.
Proof.
  intros Hne H. unfold impute_pair in H. apply bind_OK in H as (tbl & _ & H).
  revert H. apply for_each_invariant with (P := fun z => z !! c = y !! c);
    [|reflexivity].
  intros e s s' _ Hs Hstep. rewrite <- Hs. eapply impute_entry_other; eassumption.
Qed.

Lemma impute_pairs_other keys dict ps (y y' : DataFrame) c :
  (forall p, p ∈ ps -> p.2 <> c) ->
  for_each (impute_pair keys dict) ps y = OK y' -> y' !! c = y !! c.
Proof.
  intros Hne. apply for_each_invariant with (P := fun z => z !! c = y !! c);
    [|reflexivity].
  intros p s s' Hp Hs Hstep. rewrite <- Hs.
  eapply impute_pair_other; [apply Hne, Hp | exact Hstep].
Qed.

(** ** The loop of transform *)

(** transform is the loop over [zip(src_cols, dest_cols)] with the keys of
    the variant. *)
Lemma imputer_transform_eq (imp : group_imputer) (x : DataFrame)
  (src dst : list string) :
  imputer_src_cols imp = Some src -> imputer_dest_cols imp = Some dst ->
  imputer_transform imp x =
  keys ← imputer_keys imp x;
  for_each (impute_pair keys (imputer_dict imp)) (zip src dst) x.
Proof.
  destruct imp as [self|self|self|self]; simpl; intros Hs Hd;
    unfold NumAndNumImputer.transform, NumAndCatImputer.transform,
      CatAndNumImputer.transform, CatAndCatImputer.transform,
      NumSource.transform, CatSource.transform, imputer_keys; simpl;
    rewrite Hs, Hd; try reflexivity.
  all: destruct (NumSource.binned_frame _ _ _); reflexivity.
Qed.

Lemma imputer_transform_fitted (imp : group_imputer) (x x' : DataFrame) :
  imputer_transform imp x = OK x' ->
  exists src dst, imputer_src_cols imp = Some src /\ imputer_dest_cols imp = Some dst.
Proof.
  destruct imp as [self|self|self|self]; simpl;
    unfold NumAndNumImputer.transform, NumAndCatImputer.transform,
      CatAndNumImputer.transform, CatAndCatImputer.transform,
      NumSource.transform, CatSource.transform;
    intros H.
  all: first [ destruct (NumSource.src_cols self) as [src|]
             | destruct (CatSource.src_cols self) as [src|] ];
    try discriminate H.
  all: try (apply bind_OK in H as (bx & _ & H)).
  all: first [ destruct (NumSource.dest_cols self) as [dst|]
             | destruct (CatSource.dest_cols self) as [dst|] ];
    try discriminate H; eauto.
Qed.

(** C3.  transform runs the pairs in declaration order, and each assignment
    is guarded by the missingness of the frame as it is then: split the
    pairs anywhere into an earlier and a later part; the later part starts
    from the frame the earlier part left, every cell present in that frame
    (filled by an earlier pair or present from the start) is the same cell
    of the result, and so is every cell present in the input. *)
Theorem later_pairs_keep_filled_cells (imp : group_imputer)
  (x x' : DataFrame) (src dst : list string) (ps1 ps2 : list (string * string)) :
  imputer_src_cols imp = Some src ->
  imputer_dest_cols imp = Some dst ->
  zip src dst = (ps1 ++ ps2)%list ->
  imputer_transform imp x = OK x' ->
  exists keys x1,
    imputer_keys imp x = OK keys /\
    for_each (impute_pair keys (imputer_dict imp)) ps1 x = OK x1 /\
    for_each (impute_pair keys (imputer_dict imp)) ps2 x1 = OK x' /\
    (forall c i a, cell_at x1 c i = Some a -> isna a = false ->
                   cell_at x' c i = Some a) /\
    (forall c i a, cell_at x c i = Some a -> isna a = false ->
                   cell_at x' c i = Some a).
Proof.
  intros Hs Hd Hz H.
  rewrite (imputer_transform_eq imp x src dst Hs Hd), Hz in H.
  apply bind_OK in H as (keys & Hk & H).
  rewrite for_each_app in H. apply bind_OK in H as (x1 & H1 & H2).
  exists keys, x1. repeat split; try assumption.
  - intros c i a. apply frame_fills_cell. eapply impute_pairs_fills; exact H2.
  - intros c i a. apply frame_fills_cell.
    eapply frame_fills_trans; eapply impute_pairs_fills; eassumption.
Qed.

(** The two pairs of [num_imputer], split between the first and the second:
    the first fills the cell, the second keeps it. *)
Lemma later_pairs_witness :
  exists keys x1,
    imputer_keys (NumAndNum num_imputer) num_frame = OK keys /\
    for_each (impute_pair keys (imputer_dict (NumAndNum num_imputer)))
             [("s1", "d")] num_frame = OK x1 /\
    for_each (impute_pair keys (imputer_dict (NumAndNum num_imputer)))
             [("s2", "d")] x1
      = OK (transformed (NumAndNumImputer.transform num_imputer num_frame)) /\
    (forall c i a, cell_at x1 c i = Some a -> isna a = false ->
       cell_at (transformed (NumAndNumImputer.transform num_imputer num_frame))
               c i = Some a) /\
    (forall c i a, cell_at num_frame c i = Some a -> isna a = false ->
       cell_at (transformed (NumAndNumImputer.transform num_imputer num_frame))
               c i = Some a).
Proof.
  apply (later_pairs_keep_filled_cells (NumAndNum num_imputer) num_frame _
           ["s1"; "s2"] ["d"; "d"] [("s1", "d")] [("s2", "d")]);
    vm_compute; reflexivity.
Defined.

(** ** Running a loop again on its own result *)

Section ForEachFixed.
Context {A S : Type} (body : A -> S -> result S) (R : S -> S -> Prop).
Hypothesis R_refl : forall s, R s s.
Hypothesis R_trans : forall s1 s2 s3, R s1 s2 -> R s2 s3 -> R s1 s3.

Lemma for_each_related (l : list A) :
  (forall a s s', a ∈ l -> body a s = OK s' -> R s s') ->
  forall s s', for_each body l s = OK s' -> R s s'.
Proof.
  intros Hstep s s' H.
  revert H. apply for_each_invariant with (P := fun t => R s t); [|apply R_refl].
  intros a t t' Ha Ht Hb. eapply R_trans; [exact Ht|]. eapply Hstep; eassumption.
Qed.

(** If every iteration, run on any later state, changes nothing, the loop
    run on any later state changes nothing. *)
Lemma for_each_fixed (l : list A) :
  (forall a s s', a ∈ l -> body a s = OK s' -> R s s') ->
  (forall a s s' z, a ∈ l -> body a s = OK s' -> R s' z -> body a z = OK z) ->
  forall s s' z, for_each body l s = OK s' -> R s' z -> for_each body l z = OK z.
Proof.
  induction l as [|a l IH]; intros Hstep Hfix s s' z H Hz; simpl in *.
  - reflexivity.
  - apply bind_OK in H as (s1 & H1 & H).
    assert (Hl : forall b t t', b ∈ l -> body b t = OK t' -> R t t').
    { intros b t t' Hb. apply Hstep. apply list_elem_of_further, Hb. }
    assert (R s1 z) as Hs1z.
    { eapply R_trans; [|exact Hz]. eapply for_each_related; eassumption. }
    rewrite (Hfix a s s1 z (list_elem_of_here _ _) H1 Hs1z). simpl.
    eapply IH; try eassumption.
    intros b t t' w Hb. apply Hfix. apply list_elem_of_further, Hb.
Qed.
End ForEachFixed.

Lemma fills_keeping_refl src (y : DataFrame) : fills_keeping src y y.
Proof. split; [apply frame_fills_refl | reflexivity]. Qed.

Lemma fills_keeping_trans src (x y z : DataFrame) :
  fills_keeping src x y -> fills_keeping src y z -> fills_keeping src x z.
Proof.
  intros [H1 K1] [H2 K2]. split.
  - eapply frame_fills_trans; eassumption.
  - intros s Hs. rewrite K1, K2 by exact Hs. reflexivity.
Qed.

Lemma isna_true (a : cell) : isna a = true -> a = NaN.
Proof. destruct a; simpl; congruence. Qed.

(** An assignment that has been made leaves nothing to assign in any frame
    that only filled cells since. *)
Lemma assign_entry_done (ks : column) (key v : cell) (dst dz : column) :
  Forall2 cell_fills (assign_where (entry_mask ks key dst) v dst) dz ->
  assign_where (entry_mask ks key dz) v dz = dz.
Proof.
  intros H. apply list_eq. intros i.
  rewrite assign_where_lookup, entry_mask_lookup.
  destruct (dz !! i) as [b|] eqn:Hb; [|reflexivity].
  destruct (ks !! i) as [k|] eqn:Hk; [|reflexivity].
  destruct (cell_eqb k key) eqn:Hm; [|reflexivity]. simpl.
  destruct (isna b) eqn:Hnb; [|reflexivity].
  destruct (Forall2_lookup_r _ _ _ _ _ H Hb) as (a' & Ha' & Hab).
  rewrite assign_where_lookup, entry_mask_lookup, Hk, Hm in Ha'.
  destruct (dst !! i) as [a|]; [|discriminate]. injection Ha' as <-.
  apply isna_true in Hnb. subst b. f_equal.
  destruct (isna a) eqn:Hna; simpl in Hab.
  - destruct v; [reflexivity| |]; discriminate (Hab eq_refl).
  - destruct a; [discriminate Hna| |]; discriminate (Hab eq_refl).
Qed.

Section ImputeAgain.
Variable keys : DataFrame -> string -> result column.
Variable dict : gmap string (list (cell * cell)).
Variables src dst : list string.
(* the keys of a source column depend on that column only *)
Hypothesis keys_local : forall (y z : DataFrame) s, y !! s = z !! s -> keys y s = keys z s.
(* no destination column is a source column *)
Hypothesis no_chain : forall s d, s ∈ src -> d ∈ dst -> s <> d.

Lemma impute_entry_keeping p cat (y y' : DataFrame) :
  p ∈ zip src dst -> impute_entry keys p cat y = OK y' -> fills_keeping src y y'.
Proof.
  intros Hp H. split; [eapply impute_entry_fills; exact H|].
  apply impute_entry_OK in H as (ks & col & _ & _ & ->).
  intros s Hs. rewrite lookup_insert_ne; [reflexivity|].
  intros E. destruct p as [ps pd]. simpl in E. subst s.
  eapply no_chain; [exact Hs | eapply elem_of_zip_r; exact Hp | reflexivity].
Qed.

Lemma impute_entry_again p cat (y y' z : DataFrame) :
  p ∈ zip src dst -> impute_entry keys p cat y = OK y' ->
  fills_keeping src y' z -> impute_entry keys p cat z = OK z.
Proof.
  intros Hp H [Hf Hk].
  pose proof (impute_entry_keeping p cat y y' Hp H) as [_ Hk0].
  apply impute_entry_OK in H as (ks & col & Hks & Hcol & ->).
  assert (Hsrc : p.1 ∈ src) by (destruct p; eapply elem_of_zip_l; exact Hp).
  unfold impute_entry.
  rewrite <- (keys_local y z p.1), Hks; [|rewrite (Hk0 _ Hsrc); apply Hk, Hsrc].
  simpl. specialize (Hf p.2). rewrite lookup_insert_eq in Hf.
  inversion Hf as [c1 dz Hcz E1 E2|]; subst.
  unfold getitem. rewrite <- E2. simpl.
  rewrite (assign_entry_done _ _ _ _ _ Hcz).
  f_equal. apply insert_id. symmetry. exact E2.
Qed.

Lemma impute_pair_keeping p (y y' : DataFrame) :
  p ∈ zip src dst -> impute_pair keys dict p y = OK y' -> fills_keeping src y y'.
Proof.
  intros Hp H. unfold impute_pair in H. apply bind_OK in H as (tbl & _ & H).
  revert H. apply for_each_related.
  - apply fills_keeping_refl.
  - apply fills_keeping_trans.
  - intros cat s s' _. apply impute_entry_keeping, Hp.
Qed.

Lemma impute_pair_again p (y y' z : DataFrame) :
  p ∈ zip src dst -> impute_pair keys dict p y = OK y' ->
  fills_keeping src y' z -> impute_pair keys dict p z = OK z.
Proof.
  intros Hp H Hz. unfold impute_pair in *.
  apply bind_OK in H as (tbl & Ht & H). rewrite Ht. simpl.
  revert H Hz. apply for_each_fixed.
  - apply fills_keeping_refl.
  - apply fills_keeping_trans.
  - intros cat s s' _. apply impute_entry_keeping, Hp.
  - intros cat s s' w _. apply impute_entry_again, Hp.
Qed.

Lemma impute_pairs_again (x x' : DataFrame) :
  for_each (impute_pair keys dict) (zip src dst) x = OK x' ->
  for_each (impute_pair keys dict) (zip src dst) x' = OK x' /\
  forall s, s ∈ src -> x !! s = x' !! s.
Proof.
  intros H. split.
  - pose proof (fills_keeping_refl src x') as Hr. revert H Hr.
    apply for_each_fixed.
    + apply fills_keeping_refl.
    + apply fills_keeping_trans.
    + intros p s s'. apply impute_pair_keeping.
    + intros p s s' w. apply impute_pair_again.
  - eapply (for_each_related _ (fills_keeping src)) in H.
    + apply H.
    + apply fills_keeping_refl.
    + apply fills_keeping_trans.
    + intros p s s'. apply impute_pair_keeping.
Qed.
End ImputeAgain.

Lemma map_result_ext {A B : Type} (f g : A -> result B) (l : list A) :
  (forall a, a ∈ l -> f a = g a) -> map_result f l = map_result g l.
Proof.
  induction l as [|a l IH]; intros H; simpl; [reflexivity|].
  rewrite (H a (list_elem_of_here _ _)), IH; [reflexivity|].
  intros b Hb. apply H, list_elem_of_further, Hb.
Qed.

Lemma map_result_OK {A B : Type} (f : A -> result B) (l : list A) (l' : list B) :
  map_result f l = OK l' <-> Forall2 (fun a b => f a = OK b) l l'.
Proof.
  revert l'. induction l as [|a l IH]; intros l'; simpl.
  - split; intros H; [injection H as <-; constructor | inversion H; reflexivity].
  - split; intros H.
    + inv_result. constructor; [assumption | apply IH; assumption].
    + inversion H as [|a' b l1 l2 Hab Hl]; subst.
      rewrite Hab. simpl. apply IH in Hl. rewrite Hl. reflexivity.
Qed.

Lemma imputer_keys_kept (imp : group_imputer) (x x' : DataFrame) src :
  imputer_src_cols imp = Some src ->
  (forall s, s ∈ src -> x !! s = x' !! s) ->
  imputer_keys imp x' = imputer_keys imp x.
Proof.
  intros Hs Hk.
  assert (E : NumSource.source_features src x' = NumSource.source_features src x).
  { unfold NumSource.source_features. f_equal. apply map_result_ext.
    intros s Hin. unfold getitem. rewrite (Hk s Hin). reflexivity. }
  destruct imp as [self|self|self|self]; unfold imputer_keys; simpl in *;
    try rewrite Hs; try reflexivity;
    unfold NumSource.binned_frame; rewrite E; reflexivity.
Qed.

Lemma imputer_keys_local (imp : group_imputer) (x : DataFrame) keys :
  imputer_keys imp x = OK keys ->
  forall (y z : DataFrame) s, y !! s = z !! s -> keys y s = keys z s.
Proof.
  destruct imp as [self|self|self|self]; unfold imputer_keys; simpl;
    try destruct (NumSource.src_cols self); intros H; inv_result;
    intros y z s E; try reflexivity; unfold getitem; rewrite E; reflexivity.
Qed.

(** Without a column that is both imputed and used as a source, a second
    transform of a group imputer finds nothing to fill. *)
Lemma imputer_transform_again (imp : group_imputer) (x x' : DataFrame) src dst :
  imputer_src_cols imp = Some src -> imputer_dest_cols imp = Some dst ->
  (forall s d, s ∈ src -> d ∈ dst -> s <> d) ->
  imputer_transform imp x = OK x' -> imputer_transform imp x' = OK x'.
Proof.
  intros Hs Hd Hno H.
  rewrite (imputer_transform_eq imp x src dst Hs Hd) in H.
  rewrite (imputer_transform_eq imp x' src dst Hs Hd).
  apply bind_OK in H as (keys & Hk & H).
  apply (impute_pairs_again keys _ src dst (imputer_keys_local _ _ _ Hk) Hno) in H
    as [H Hsame].
  rewrite (imputer_keys_kept imp x x' src Hs Hsame), Hk. exact H.
Qed.

Lemma for_each_all_fixed {A S : Type} (body : A -> S -> result S) (l : list A)
  (z : S) :
  Forall (fun a => body a z = OK z) l -> for_each body l z = OK z.
Proof.
  intros H. induction H as [|a l Ha H IH]; simpl; [reflexivity|].
  rewrite Ha. simpl. exact IH.
Qed.

(** With the source read from the frame, a pair run again on the result
    changes nothing when no later pair has filled its source. *)
Lemma impute_pairs_forward keys dict (ps : list (string * string)) :
  (forall (y z : DataFrame) s, y !! s = z !! s -> keys y s = keys z s) ->
  forward ps ->
  forall y x' : DataFrame,
    for_each (impute_pair keys dict) ps y = OK x' ->
    Forall (fun p => impute_pair keys dict p x' = OK x') ps.
Proof.
  intros Hk. induction ps as [|p l IH]; intros Hfw y x' H; [constructor|].
  destruct Hfw as (Hq & Hfw). simpl in H. apply bind_OK in H as (y1 & H1 & H).
  constructor; [|eapply IH; eassumption].
  apply (impute_pair_again keys dict [p.1] [p.2] Hk) with (y := y) (y' := y1).
  - intros s d Hs Hd. apply list_elem_of_singleton in Hs, Hd. subst s d.
    intros E. apply (Hq p (list_elem_of_here _ _)). symmetry. exact E.
  - destruct p. apply list_elem_of_here.
  - exact H1.
  - split; [eapply impute_pairs_fills; exact H|].
    intros s Hs. apply list_elem_of_singleton in Hs. subst s. symmetry.
    eapply impute_pairs_other; [|exact H].
    intros q Hin. apply Hq, list_elem_of_further, Hin.
Qed.

Lemma categorical_transform_again (self : CatSource.t) (x x' : DataFrame) src dst :
  CatSource.src_cols self = Some src -> CatSource.dest_cols self = Some dst ->
  forward (zip src dst) ->
  CatSource.transform self x = OK x' -> CatSource.transform self x' = OK x'.
Proof.
  unfold CatSource.transform. intros -> -> Hfw H.
  apply for_each_all_fixed. eapply impute_pairs_forward; [|exact Hfw | exact H].
  intros y z s E. unfold getitem. rewrite E. reflexivity.
Qed.

(** *** The scalar imputer *)

Lemma fillna_fills (v : cell) (c : column) : Forall2 cell_fills c (fillna v c).
Proof.
  unfold fillna. induction c as [|a c IH]; simpl; constructor; [|exact IH].
  intros Ha. rewrite Ha. reflexivity.
Qed.

Lemma fillna_done (v : cell) (c cz : column) :
  Forall2 cell_fills (fillna v c) cz -> fillna v cz = cz.
Proof.
  unfold fillna. revert cz. induction c as [|a c IH]; intros cz H; simpl in H.
  - inversion H. reflexivity.
  - inversion H as [|a' b c1 c2 Hab Hc]; subst. simpl. f_equal; [|apply IH, Hc].
    destruct (isna b) eqn:Hb; [|reflexivity].
    apply isna_true in Hb. subst b.
    destruct (isna a) eqn:Ha.
    + destruct v; [reflexivity| |]; discriminate (Hab eq_refl).
    + destruct a; [discriminate Ha| |]; discriminate (Hab eq_refl).
Qed.

Lemma missing_transform_col_fills e (y y' : DataFrame) :
  MissingImputer.transform_col e y = OK y' -> frame_fills y y'.
Proof.
  unfold MissingImputer.transform_col. intros H. inv_result.
  eapply insert_fills; [eassumption | apply fillna_fills].
Qed.

Lemma missing_transform_col_again e (y y' z : DataFrame) :
  MissingImputer.transform_col e y = OK y' -> frame_fills y' z ->
  MissingImputer.transform_col e z = OK z.
Proof.
  unfold MissingImputer.transform_col. intros H Hz. inv_result.
  specialize (Hz e.1). rewrite lookup_insert_eq in Hz.
  inversion Hz as [c1 cz Hcz E1 E2|]; subst.
  unfold getitem. rewrite <- E2. simpl. rewrite (fillna_done _ _ _ Hcz).
  f_equal. apply insert_id. symmetry. exact E2.
Qed.

Lemma missing_transform_again (self : MissingImputer.t) (x x' : DataFrame) :
  MissingImputer.transform self x = OK x' -> MissingImputer.transform self x' = OK x'.
Proof.
  unfold MissingImputer.transform. intros H.
  pose proof (frame_fills_refl x') as Hr. revert H Hr. apply for_each_fixed.
  - apply frame_fills_refl.
  - apply frame_fills_trans.
  - intros e s s' _. apply missing_transform_col_fills.
  - intros e s s' w _. apply missing_transform_col_again.
Qed.

(** *** The outlier handler, cell by cell *)

Lemma mask_assign (f : cell -> result bool) (v : cell) (c c' : column) :
  (exists mask, map_result f c = OK mask /\ assign_where mask v c = c') <->
  Forall2 (fun a b => (m ← f a; OK (if (m : bool) then v else a)) = OK b) c c'.
Proof.
  revert c'. induction c as [|a c IH]; intros c'.
  - split.
    + intros (mask & _ & <-). destruct mask; constructor.
    + intros H. inversion H. exists []. split; reflexivity.
  - split.
    + intros (mask & Hm & <-). simpl in Hm. inv_result. simpl.
      constructor; [rewrite Ha; reflexivity|]. apply IH. eauto.
    + intros H. inversion H as [|a' b c1 c2 Hab Hc]; subst.
      apply IH in Hc as (mask & Hm & <-). inv_result.
      exists (a0 :: mask). simpl. rewrite Ha, Hm. split; reflexivity.
Qed.

Lemma replace_below_OK col bound v (x x' : DataFrame) :
  OutlierHandler.replace_below col bound v x = OK x' <->
  exists c c', x !! col = Some c /\
    Forall2 (fun a b => below_cell bound v a = OK b) c c' /\
    x' = <[col := c']> x.
Proof.
  unfold OutlierHandler.replace_below, below_cell. split.
  - intros H. inv_result. exists a, (assign_where a0 v a).
    split; [assumption|]. split; [|reflexivity]. apply mask_assign. eauto.
  - intros (c & c' & Hc & H & ->). apply mask_assign in H as (mask & Hm & <-).
    unfold getitem. rewrite Hc. simpl. rewrite Hm. reflexivity.
Qed.

Lemma replace_above_OK col bound v (x x' : DataFrame) :
  OutlierHandler.replace_above col bound v x = OK x' <->
  exists c c', x !! col = Some c /\
    Forall2 (fun a b => above_cell bound v a = OK b) c c' /\
    x' = <[col := c']> x.
Proof.
  unfold OutlierHandler.replace_above, above_cell. split.
  - intros H. inv_result. exists a, (assign_where a0 v a).
    split; [assumption|]. split; [|reflexivity]. apply mask_assign. eauto.
  - intros (c & c' & Hc & H & ->). apply mask_assign in H as (mask & Hm & <-).
    unfold getitem. rewrite Hc. simpl. rewrite Hm. reflexivity.
Qed.

Lemma Forall2_bind {A : Type} (f g : A -> result A) (l l2 : list A) :
  Forall2 (fun a b => (a1 ← f a; g a1) = OK b) l l2 <->
  exists l1, Forall2 (fun a b => f a = OK b) l l1 /\
             Forall2 (fun a b => g a = OK b) l1 l2.
Proof.
  revert l2. induction l as [|a l IH]; intros l2.
  - split.
    + intros H. inversion H. exists []. split; constructor.
    + intros (l1 & H1 & H2). inversion H1; subst. inversion H2. constructor.
  - split.
    + intros H. inversion H as [|a' b la lb Hab Hl]; subst.
      apply IH in Hl as (l1 & H1 & H2). apply bind_OK in Hab as (a1 & Ha1 & Hg).
      exists (a1 :: l1). split; constructor; assumption.
    + intros (l1 & H1 & H2). inversion H1 as [|a' a1 la lb Ha1 Hl1]; subst.
      inversion H2 as [|a1' b lc ld Hg Hl2]; subst.
      constructor; [rewrite Ha1; exact Hg|]. apply IH. eauto.
Qed.

(** [transform]'s loop body writes [handle_column] of the column. *)
Lemma outlier_transform_col_OK self e (x x' : DataFrame) :
  OutlierHandler.transform_col self e x = OK x' <->
  exists m c c', index e.2 0 = OK m /\ x !! e.1 = Some c /\
    handle_column self e.1 c = OK c' /\ x' = <[e.1 := c']> x.
Proof.
  unfold OutlierHandler.transform_col, handle_column. split.
  - intros H. apply bind_OK in H as (m & Hm & H).
    apply bind_OK in H as (bounds & Hb & H). rewrite Hb. simpl.
    apply bind_OK in H as (lo & Hlo & H). rewrite Hlo. simpl.
    apply bind_OK in H as (hi & Hhi & H). rewrite Hhi. simpl.
    apply bind_OK in H as (fill & Hf & H). rewrite Hf. simpl.
    assert (forall v1 v2,
      (x1 ← OutlierHandler.replace_below e.1 lo v1 x;
       OutlierHandler.replace_above e.1 hi v2 x1) = OK x' ->
      exists c c', x !! e.1 = Some c /\
        Forall2 (fun a b => (a1 ← below_cell lo v1 a; above_cell hi v2 a1) = OK b) c c' /\
        x' = <[e.1 := c']> x) as Hgen.
    { intros v1 v2 K. apply bind_OK in K as (x1 & K1 & K2).
      apply replace_below_OK in K1 as (c & c1 & Hc & F1 & ->).
      apply replace_above_OK in K2 as (c1' & c2 & Hc1 & F2 & ->).
      rewrite lookup_insert_eq in Hc1. injection Hc1 as <-.
      exists c, c2. split; [exact Hc|]. split; [apply Forall2_bind; eauto|].
      apply insert_insert_eq. }
    exists m. unfold handle_cell.
    destruct (is_str fill "na"); apply Hgen in H as (c & c' & Hc & F & ->);
      exists c, c'; repeat split; try assumption; apply map_result_OK; exact F.
  - intros (m & c & c' & Hm & Hc & H & ->). rewrite Hm. simpl.
    apply bind_OK in H as (bounds & Hb & H). rewrite Hb. simpl.
    apply bind_OK in H as (lo & Hlo & H). rewrite Hlo. simpl.
    apply bind_OK in H as (hi & Hhi & H). rewrite Hhi. simpl.
    apply bind_OK in H as (fill & Hf & H). rewrite Hf. simpl.
    apply map_result_OK in H. unfold handle_cell in H.
    assert (forall v1 v2,
      Forall2 (fun a b => (a1 ← below_cell lo v1 a; above_cell hi v2 a1) = OK b) c c' ->
      (x1 ← OutlierHandler.replace_below e.1 lo v1 x;
       OutlierHandler.replace_above e.1 hi v2 x1) = OK (<[e.1 := c']> x)) as Hgen.
    { intros v1 v2 F. apply Forall2_bind in F as (c1 & F1 & F2).
      assert (K1 : OutlierHandler.replace_below e.1 lo v1 x = OK (<[e.1 := c1]> x)).
      { apply replace_below_OK. eauto. }
      rewrite K1. simpl. apply replace_above_OK. exists c1, c'.
      rewrite lookup_insert_eq. split; [reflexivity|]. split; [exact F2|].
      symmetry. apply insert_insert_eq. }
    destruct (is_str fill "na"); apply Hgen; exact H.
Qed.

Lemma Qle_bool_false (p q : Q) : Qle_bool p q = false -> (q < p)%Q.
Proof.
  intros H. apply Qnot_le_lt. intros K. apply Qle_bool_iff in K. congruence.
Qed.

Ltac q_props :=
  repeat match goal with
  | H : Qle_bool _ _ = true |- _ => apply Qle_bool_iff in H
  | H : Qle_bool _ _ = false |- _ => apply Qle_bool_false in H
  end.

Ltac q_cases :=
  repeat match goal with
  | |- context [Qle_bool ?p ?q] => destruct (Qle_bool p q) eqn:?; simpl
  end.

(** A cell that went through the two assignments goes through them
    unchanged. *)
Lemma handle_cell_again (lo hi : cell) (na : bool) (a b : cell) :
  handle_cell lo hi na a = OK b -> handle_cell lo hi na b = OK b.
Proof.
  unfold handle_cell, below_cell, above_cell, cell_lt.
  destruct a as [|q|s], lo as [|l|sl], hi as [|h|sh], na; simpl;
    try discriminate; q_cases; intros H; try discriminate H;
    injection H as <-; simpl; q_cases; try reflexivity;
    exfalso; q_props; lra.
Qed.

Lemma handle_column_again self col (c c' : column) :
  handle_column self col c = OK c' -> handle_column self col c' = OK c'.
Proof.
  unfold handle_column. intros H.
  apply bind_OK in H as (bounds & Hb & H). rewrite Hb. simpl.
  apply bind_OK in H as (lo & Hlo & H). rewrite Hlo. simpl.
  apply bind_OK in H as (hi & Hhi & H). rewrite Hhi. simpl.
  apply bind_OK in H as (fill & Hf & H). rewrite Hf. simpl.
  apply map_result_OK in H. apply map_result_OK.
  induction H as [|a b c c' Hab H IH]; constructor; [|exact IH].
  eapply handle_cell_again; exact Hab.
Qed.

Lemma outlier_transform_again (self : OutlierHandler.t) (x x' : DataFrame) :
  OutlierHandler.transform self x = OK x' -> OutlierHandler.transform self x' = OK x'.
Proof.
  unfold OutlierHandler.transform. intros H.
  assert (Hr : keeps_settled self x' x') by (intros col c Hc _; exact Hc).
  revert H Hr. apply for_each_fixed.
  - intros s col c Hc _. exact Hc.
  - intros s1 s2 s3 H12 H23 col c Hc Hs. apply H23; [|exact Hs]. apply H12; assumption.
  - intros e s s' _ H col c Hc Hs.
    apply outlier_transform_col_OK in H as (m & c0 & c' & _ & Hc0 & Hh & ->).
    destruct (decide (e.1 = col)) as [<-|Hne].
    + rewrite Hc in Hc0. injection Hc0 as <-. rewrite Hs in Hh. injection Hh as <-.
      apply lookup_insert_eq.
    + rewrite lookup_insert_ne by exact Hne. exact Hc.
  - intros e s s' z _ H Hz.
    apply outlier_transform_col_OK in H as (m & c0 & c' & Hm & Hc0 & Hh & ->).
    apply handle_column_again in Hh as Hh'.
    assert (Hzc : z !! e.1 = Some c').
    { apply Hz; [apply lookup_insert_eq | exact Hh']. }
    apply outlier_transform_col_OK. exists m, c', c'.
    repeat split; try assumption. symmetry. apply insert_id. exact Hzc.
Qed.

(** ** Idempotence (C4) *)

(** C4, as amended.  transform applied to its own result returns that
    result, for the scalar imputer, for the outlier handler, for a group
    imputer with a numeric source none of whose destination columns is also
    a source column, and for a group imputer with a categorical source none
    of whose pairs reads the destination of that pair or of a later pair. *)
Theorem transform_idempotent_without_chain (C : component) (x : DataFrame) :
  chain_free C ->
  (x1 ← component_transform C x; component_transform C x1)
  = component_transform C x.
Proof.
  intros Hc. destruct (component_transform C x) as [x'|e] eqn:H; simpl;
    [|reflexivity].
  destruct C as [imp|self|self]; simpl in *.
  - destruct (imputer_transform_fitted _ _ _ H) as (src & dst & Hs & Hd).
    specialize (Hc src dst Hs Hd).
    destruct imp as [self|self|self|self].
    + eapply imputer_transform_again; eassumption.
    + eapply categorical_transform_again; eassumption.
    + eapply categorical_transform_again; eassumption.
    + eapply imputer_transform_again; eassumption.
  - eapply missing_transform_again, H.
  - eapply outlier_transform_again, H.
Qed.

(** C4 fails as stated: with the pairs [chain_pairs] the first transform
    fills [b] only after the pair that reads it has run, and the second
    transform then fills [c]. *)
Lemma transform_twice_differs :
  imputer_fit (CatAndCat (CatAndCatImputer.init chain_pairs)) chain_fit_frame
    = OK chain_imputer /\
  (exists x1 x2,
     component_transform (GroupImputer chain_imputer) chain_frame = OK x1 /\
     component_transform (GroupImputer chain_imputer) x1 = OK x2 /\
     x1 !! "c" = Some [NaN] /\ x2 !! "c" = Some [Str "p"]) /\
  (x1 ← component_transform (GroupImputer chain_imputer) chain_frame;
   component_transform (GroupImputer chain_imputer) x1)
  <> component_transform (GroupImputer chain_imputer) chain_frame.
Proof.
  split; [vm_compute; reflexivity|]. split.
  - eexists _, _. split; [vm_compute; reflexivity|].
    split; [vm_compute; reflexivity|]. split; vm_compute; reflexivity.
  - vm_compute. intros H. discriminate H.
Qed.

(** The pairs of [chain_pairs] in the other order: [b] is filled before it
    is read, and the second transform returns the result of the first. *)
Lemma transform_idempotent_witness :
  chain_free (GroupImputer forward_imputer) /\
  (x1 ← component_transform (GroupImputer forward_imputer) chain_frame;
   component_transform (GroupImputer forward_imputer) x1)
  = component_transform (GroupImputer forward_imputer) chain_frame.
Proof.
  assert (H : chain_free (GroupImputer forward_imputer)).
  { intros src dst Hs Hd. vm_compute in Hs, Hd.
    injection Hs as <-. injection Hd as <-. simpl.
    repeat split; intros q Hq;
      repeat (apply elem_of_cons in Hq as [->|Hq]; [discriminate|]);
      inversion Hq. }
  split; [exact H|].
  exact (transform_idempotent_without_chain (GroupImputer forward_imputer)
           chain_frame H).
Defined.

(** ** The outlier handler on one value (C7) *)

Lemma outlier_transform_col_other self e col (y y' : DataFrame) :
  e.1 <> col -> OutlierHandler.transform_col self e y = OK y' ->
  y' !! col = y !! col.
Proof.
  intros Hne H.
  apply outlier_transform_col_OK in H as (m & c & c' & _ & _ & _ & ->).
  apply lookup_insert_ne. exact Hne.
Qed.

Lemma outlier_transform_others self (l : list (string * list pyval)) col
  (y y' : DataFrame) :
  col ∉ l.*1 -> for_each (OutlierHandler.transform_col self) l y = OK y' ->
  y' !! col = y !! col.
Proof.
  intros Hnot. apply for_each_invariant with (P := fun z => z !! col = y !! col);
    [|reflexivity].
  intros e s s' He Hs H. rewrite <- Hs.
  eapply outlier_transform_col_other; [|exact H].
  intros E. apply Hnot. rewrite <- E. apply list_elem_of_fmap. eauto.
Qed.

Lemma handle_cell_ordered (lo hi q : Q) (fill : pyval) :
  (lo <= hi)%Q ->
  exists b, handle_cell (Num lo) (Num hi) (is_str fill "na") (Num q) = OK b /\
    ((q < lo)%Q -> b = if is_str fill "na" then NaN else Num lo) /\
    ((hi < q)%Q -> b = if is_str fill "na" then NaN else Num hi) /\
    ((lo <= q)%Q -> (q <= hi)%Q -> b = Num q).
Proof.
  intros Hle. unfold handle_cell, below_cell, above_cell, cell_lt.
  destruct (is_str fill "na"); simpl; q_cases; eexists; (split; [reflexivity|]);
    q_props; repeat split; intros; try reflexivity; exfalso; lra.
Qed.

(** C7, as amended.  With a lower bound that is not above the upper bound:
    a value strictly below the lower bound becomes the missing marker when
    the disposition is "na" and the lower bound otherwise, a value strictly
    above the upper bound becomes the missing marker or the upper bound, and
    a value within the bounds stays. *)
Theorem outliers_replaced_within_ordered_bounds (self : OutlierHandler.t)
  (x x' : DataFrame) (col : string) (strategy : list pyval) (bounds fill : pyval)
  (lo hi q : Q) (i : nat) :
  NoDup (OutlierHandler.strategies self).*1 ->
  (col, strategy) ∈ OutlierHandler.strategies self ->
  OutlierHandler.outlier_bounds self !! col = Some bounds ->
  subscript bounds 0 = OK (Num lo) ->
  subscript bounds 1 = OK (Num hi) ->
  OutlierHandler.fill_values self !! col = Some fill ->
  (lo <= hi)%Q ->
  OutlierHandler.transform self x = OK x' ->
  cell_at x col i = Some (Num q) ->
  ((q < lo)%Q ->
   cell_at x' col i = Some (if is_str fill "na" then NaN else Num lo)) /\
  ((hi < q)%Q ->
   cell_at x' col i = Some (if is_str fill "na" then NaN else Num hi)) /\
  ((lo <= q)%Q -> (q <= hi)%Q -> cell_at x' col i = Some (Num q)).
Proof.
  intros Hnd Hin Hb Hlo Hhi Hf Hle H Hq. unfold OutlierHandler.transform in H.
  apply list_elem_of_split in Hin as (l1 & l2 & E). rewrite E in H, Hnd.
  rewrite fmap_app, fmap_cons in Hnd. apply NoDup_app in Hnd as (_ & Hd1 & Hd2).
  apply NoDup_cons in Hd2 as (Hn2 & _).
  assert (Hn1 : col ∉ l1.*1).
  { intros K. apply (Hd1 _ K). simpl. apply list_elem_of_here. }
  rewrite for_each_app in H. apply bind_OK in H as (y1 & H1 & H).
  simpl in H. apply bind_OK in H as (y2 & Hstep & H2).
  apply (outlier_transform_others _ _ col) in H1; [|exact Hn1].
  apply (outlier_transform_others _ _ col) in H2; [|exact Hn2].
  apply outlier_transform_col_OK in Hstep as (m & c & c' & _ & Hc & Hh & ->).
  simpl in *. rewrite lookup_insert_eq in H2.
  unfold cell_at in *. rewrite H2. rewrite <- H1, Hc in Hq.
  unfold handle_column in Hh.
  apply lookup_key_OK in Hb, Hf. rewrite Hb in Hh. simpl in Hh.
  rewrite Hlo, Hhi in Hh. simpl in Hh. rewrite Hf in Hh. simpl in Hh.
  apply map_result_OK in Hh.
  destruct (Forall2_lookup_l _ _ _ _ _ Hh Hq) as (b & Hb' & Hcell).
  destruct (handle_cell_ordered lo hi q fill Hle) as (b0 & Hb0 & K1 & K2 & K3).
  rewrite Hb0 in Hcell. injection Hcell as <-. rewrite Hb'.
  repeat split; intros; f_equal; auto.
Qed.

(** The notebook's output: the bounds, and the transformed frame. *)
Example outlier_notebook :
  OutlierHandler.fit (OutlierHandler.init outlier_strategies) outlier_frame
    = OK outlier_handler /\
  OutlierHandler.outlier_bounds outlier_handler !! "a"
    = Some (PyList [Num (8 # 5); Num 460]) /\
  OutlierHandler.outlier_bounds outlier_handler !! "c"
    = Some (PyList [Num (-1991 # 8); Num (3489 # 8)]) /\
  OutlierHandler.transform outlier_handler outlier_frame = OK outlier_result /\
  outlier_result !! "a" = Some [NaN; num 2; num 100; NaN] /\
  outlier_result !! "b" = Some [num 0; num 45; num 200; num 200] /\
  outlier_result !! "c" = Some [Num (3489 # 8); num 10; num 59; num 2].
Proof. repeat split; vm_compute; reflexivity. Qed.

(** On the sample [[1, 2, 100, 1000]] with the quantiles 0.2 and 0.8 and the
    disposition "na", the value 1 is below the lower bound 1.6 and becomes
    missing. *)
Lemma outliers_replaced_witness :
  ((1 < 8 # 5)%Q -> cell_at outlier_result "a" 0 = Some NaN) /\
  ((460 < 1)%Q -> cell_at outlier_result "a" 0 = Some NaN) /\
  ((8 # 5 <= 1)%Q -> (1 <= 460)%Q -> cell_at outlier_result "a" 0 = Some (Num 1)).
Proof.
  apply (outliers_replaced_within_ordered_bounds outlier_handler outlier_frame
           outlier_result "a" quantile_na (PyList [Num (8 # 5); Num 460])
           (Atom (Str "na")) (8 # 5) 460 1 0).
  - apply (bool_decide_unpack _). vm_compute. exact I.
  - apply list_elem_of_here.
  - vm_compute. reflexivity.
  - reflexivity.
  - reflexivity.
  - vm_compute. reflexivity.
  - vm_compute. discriminate.
  - vm_compute. reflexivity.
  - vm_compute. reflexivity.
Defined.

(** C7 fails as stated when the lower bound is above the upper bound: with
    the strategy [['values', [10, 0], 'clip']] the value 5 is strictly below
    the lower bound 10, is first set to 10 and then, being above the upper
    bound 0, set to 0. *)
Lemma clip_with_inverted_bounds :
  OutlierHandler.fit (OutlierHandler.init inverted_strategies) inverted_frame
    = OK inverted_handler /\
  OutlierHandler.outlier_bounds inverted_handler !! "a"
    = Some (PyList [num 10; num 0]) /\
  OutlierHandler.fill_values inverted_handler !! "a" = Some (Atom (Str "clip")) /\
  cell_at inverted_frame "a" 0 = Some (num 5) /\
  (5 < 10)%Q /\
  exists x', OutlierHandler.transform inverted_handler inverted_frame = OK x' /\
    cell_at x' "a" 0 = Some (num 0) /\
    cell_at x' "a" 0 <> Some (num 10).
Proof.
  repeat split; try (vm_compute; reflexivity).
  eexists. split; [vm_compute; reflexivity|].
  split; [vm_compute; reflexivity | vm_compute; discriminate].
Qed.

(** ** Configuration errors (C2) *)

(** The loop raises if the body raises at some element whatever the state. *)
Lemma for_each_raises {A S : Type} (body : A -> S -> result S) (l : list A)
  (a : A) :
  a ∈ l -> (forall s, exists e, body a s = Raise e) ->
  forall s, exists e, for_each body l s = Raise e.
Proof.
  intros Hin Hr. induction l as [|b l IH]; intros s.
  - inversion Hin.
  - simpl. apply elem_of_cons in Hin as [->|Hin].
    + destruct (Hr s) as (e & ->). eauto.
    + destruct (body b s) as [s'|e]; simpl; [apply IH, Hin | eauto].
Qed.

Lemma fit_pair_absent agg keys (x : DataFrame) p dict :
  x !! p.2 = None -> exists e, fit_pair agg keys x p dict = Raise e.
Proof.
  intros H. unfold fit_pair. destruct (keys p.1) as [ks|e]; simpl; [|eauto].
  unfold getitem. rewrite H. simpl. eauto.
Qed.

Lemma fit_pair_absent_source agg (x : DataFrame) p dict :
  x !! p.1 = None -> exists e, fit_pair agg (getitem x) x p dict = Raise e.
Proof.
  intros H. unfold fit_pair, getitem. rewrite H. simpl. eauto.
Qed.

Lemma map_result_raises {A B : Type} (f : A -> result B) (l : list A) (a : A) :
  a ∈ l -> (exists e, f a = Raise e) -> exists e, map_result f l = Raise e.
Proof.
  intros Hin (e & He). induction l as [|b l IH].
  - inversion Hin.
  - simpl. apply elem_of_cons in Hin as [->|Hin].
    + rewrite He. eauto.
    + destruct (f b); simpl; [|eauto]. destruct (IH Hin) as (e' & ->). eauto.
Qed.

Lemma zip_map_fst_snd {A B : Type} (l : list (A * B)) :
  zip (map fst l) (map snd l) = l.
Proof. induction l as [|[a b] l IH]; simpl; [|rewrite IH]; reflexivity. Qed.

Lemma elem_of_map {A B : Type} (f : A -> B) (l : list A) (a : A) :
  a ∈ l -> f a ∈ map f l.
Proof. intros H. apply list_elem_of_In, in_map, list_elem_of_In, H. Qed.

Lemma imputer_fit_absent (imp : group_imputer) (x : DataFrame) p :
  p ∈ imputer_column_pairs imp -> x !! p.1 = None \/ x !! p.2 = None ->
  exists e, imputer_fit imp x = Raise e.
Proof.
  intros Hin Habs.
  assert (Hnum : forall agg self, p ∈ NumSource.column_pairs self ->
            exists e, NumSource.fit agg self x = Raise e).
  { intros agg self Hp. unfold NumSource.fit.
    destruct Habs as [Hs|Hd].
    - assert (exists e, NumSource.source_features
                          (map fst (NumSource.column_pairs self)) x
                        = Raise e) as (e & ->); [|simpl; eauto].
      unfold NumSource.source_features.
      destruct (map_result_raises (getitem x)
                  (map fst (NumSource.column_pairs self)) p.1)
        as (e & ->); [apply elem_of_map, Hp | | simpl; eauto].
      unfold getitem. rewrite Hs. eauto.
    - destruct (NumSource.source_features _ x) as [X|e]; simpl; [|eauto].
      destruct (KBinsDiscretizer_fit _ X) as [kb|e]; simpl; [|eauto].
      destruct (NumSource.binned_frame kb _ x) as [bx|e]; simpl; [|eauto].
      rewrite zip_map_fst_snd.
      destruct (for_each_raises (fit_pair agg (getitem bx) x) _ p Hp
                  (fun s => fit_pair_absent agg _ x p s Hd)
                  (NumSource.impute_value_dict self)) as (e & ->).
      simpl. eauto. }
  assert (Hcat : forall agg self, p ∈ CatSource.column_pairs self ->
            exists e, CatSource.fit agg self x = Raise e).
  { intros agg self Hp. unfold CatSource.fit. rewrite zip_map_fst_snd.
    assert (forall s, exists e, fit_pair agg (getitem x) x p s = Raise e) as Hb.
    { intros s. destruct Habs as [Hs|Hd];
        [apply fit_pair_absent_source, Hs | apply fit_pair_absent, Hd]. }
    destruct (for_each_raises _ _ p Hp Hb (CatSource.impute_value_dict self))
      as (e & ->). simpl. eauto. }
  destruct imp as [self|self|self|self]; simpl in *;
    unfold NumAndNumImputer.fit, NumAndCatImputer.fit, CatAndNumImputer.fit,
      CatAndCatImputer.fit;
    first [ destruct (Hnum median self Hin) as (e & ->)
          | destruct (Hnum mode self Hin) as (e & ->)
          | destruct (Hcat median self Hin) as (e & ->)
          | destruct (Hcat mode self Hin) as (e & ->) ];
    simpl; eauto.
Qed.

Lemma missing_fit_absent (self : MissingImputer.t) (x : DataFrame) e :
  e ∈ MissingImputer.strategies self -> x !! e.1 = None ->
  exists err, MissingImputer.fit self x = Raise err.
Proof.
  intros Hin Habs. unfold MissingImputer.fit.
  destruct (for_each_raises (MissingImputer.fit_col x) _ e Hin) with
    (s := MissingImputer.impute_values self) as (err & ->); [|simpl; eauto].
  intros s. unfold MissingImputer.fit_col, getitem. rewrite Habs. simpl. eauto.
Qed.

Lemma for_each_replace {A S : Type} (body : A -> S -> result S)
  (l1 l2 : list A) (a a' : A) :
  (forall s, body a s = body a' s) ->
  forall s, for_each body (l1 ++ a :: l2) s = for_each body (l1 ++ a' :: l2) s.
Proof.
  intros H. induction l1 as [|b l1 IH]; intros s; simpl.
  - rewrite H. reflexivity.
  - destruct (body b s); simpl; [apply IH | reflexivity].
Qed.

(** A method tag other than "quantile" and "values" takes the branch of
    "iqr". *)
Lemma outlier_fit_col_else (x : DataFrame) col (method : pyval)
  (rest : list pyval) (self : OutlierHandler.t) :
  is_str method "quantile" = false -> is_str method "values" = false ->
  OutlierHandler.fit_col x (col, method :: rest) self
  = OutlierHandler.fit_col x (col, Atom (Str "iqr") :: rest) self.
Proof.
  intros Hq Hv. unfold OutlierHandler.fit_col. simpl. rewrite Hq, Hv. reflexivity.
Qed.

(** C2, as amended.  The outlier handler raises nothing for a method tag it
    does not know: fit does for such a column what it does for "iqr", so
    that the configuration with the unknown tag is fitted as the same
    configuration with "iqr" in its place.  An imputer (scalar or group)
    whose configuration names a column absent from the frame raises in
    fit. *)
Theorem unknown_tag_is_iqr_and_absent_column_raises :
  (forall (self : OutlierHandler.t) (x : DataFrame) l1 col method rest l2,
     is_str method "quantile" = false -> is_str method "values" = false ->
     OutlierHandler.strategies self = (l1 ++ (col, method :: rest) :: l2)%list ->
     OutlierHandler.fit self x
     = for_each (OutlierHandler.fit_col x)
                (l1 ++ (col, Atom (Str "iqr") :: rest) :: l2)%list self) /\
  (forall (self : MissingImputer.t) (x : DataFrame) e,
     e ∈ MissingImputer.strategies self -> x !! e.1 = None ->
     exists err, MissingImputer.fit self x = Raise err) /\
  (forall (imp : group_imputer) (x : DataFrame) p,
     p ∈ imputer_column_pairs imp -> x !! p.1 = None \/ x !! p.2 = None ->
     exists err, imputer_fit imp x = Raise err).
Proof.
  split; [|split].
  - intros self x l1 col method rest l2 Hq Hv E.
    unfold OutlierHandler.fit. rewrite E. apply for_each_replace.
    intros s. apply outlier_fit_col_else; assumption.
  - apply missing_fit_absent.
  - apply imputer_fit_absent.
Qed.

(** C2 fails as stated for the outlier handler: the tag "zscore" is none of
    "quantile", "values" and "iqr", and fit returns, with the IQR bounds of
    the column. *)
Lemma unknown_tag_fits :
  is_str (Atom (Str "zscore")) "quantile" = false /\
  is_str (Atom (Str "zscore")) "values" = false /\
  is_str (Atom (Str "zscore")) "iqr" = false /\
  exists self,
    OutlierHandler.fit (OutlierHandler.init unknown_tag_strategies) outlier_frame
      = OK self /\
    OutlierHandler.outlier_bounds self !! "c"
      = Some (PyList [Num (-1991 # 8); Num (3489 # 8)]) /\
    OutlierHandler.fill_values self !! "c" = Some (Atom (Str "clip")).
Proof.
  repeat split; try reflexivity.
  eexists. split; [vm_compute; reflexivity|]. split; vm_compute; reflexivity.
Qed.

(** The tag "zscore" is fitted as "iqr"; the column [z] is in no frame of
    the notebook, and both imputers raise. *)
Lemma unknown_tag_and_absent_column_witness :
  OutlierHandler.fit (OutlierHandler.init unknown_tag_strategies) outlier_frame
  = for_each (OutlierHandler.fit_col outlier_frame)
             [("c", [Atom (Str "iqr"); Atom (Str "clip")])]
             (OutlierHandler.init unknown_tag_strategies) /\
  (exists err,
     MissingImputer.fit (MissingImputer.init [("z", Str "mean")]) outlier_frame
     = Raise err) /\
  (exists err,
     imputer_fit (NumAndNum (NumAndNumImputer.init [("a", "z")] 5 "quantile"))
                 outlier_frame
     = Raise err).
Proof.
  destruct unknown_tag_is_iqr_and_absent_column_raises as (H1 & H2 & H3).
  split; [|split].
  - apply (H1 (OutlierHandler.init unknown_tag_strategies) outlier_frame
              [] "c" (Atom (Str "zscore")) [Atom (Str "clip")] []);
      reflexivity.
  - apply (H2 (MissingImputer.init [("z", Str "mean")]) outlier_frame
              ("z", Str "mean")); [apply list_elem_of_here | reflexivity].
  - apply (H3 (NumAndNum (NumAndNumImputer.init [("a", "z")] 5 "quantile"))
              outlier_frame ("a", "z")); [apply list_elem_of_here|].
    right. reflexivity.
Defined.

(** ** Fitted tables *)

Lemma fit_pair_OK agg keys (x : DataFrame) p dict dict' :
  fit_pair agg keys x p dict = OK dict' ->
  exists tbl, pair_table agg keys x p = OK tbl /\ dict' = <[pair_key p := tbl]> dict.
Proof.
  unfold fit_pair, pair_table. intros H.
  apply bind_OK in H as (ks & -> & H). simpl.
  apply bind_OK in H as (dst & -> & H). simpl.
  destruct (String.eqb p.1 p.2); [discriminate H|].
  apply bind_OK in H as (tbl & -> & H). injection H as <-. eauto.
Qed.

(** After fit, the dict holds under the key of a pair the table of that
    pair, unless a later, different pair has the same key. *)
Lemma fit_pairs_lookup agg keys (x : DataFrame) ps1 p ps2 dict dict' :
  for_each (fit_pair agg keys x) (ps1 ++ p :: ps2) dict = OK dict' ->
  (forall p', p' ∈ ps2 -> pair_key p' = pair_key p -> p' = p) ->
  exists tbl, pair_table agg keys x p = OK tbl /\ dict' !! pair_key p = Some tbl.
Proof.
  intros H Hlast. rewrite for_each_app in H. apply bind_OK in H as (d1 & _ & H).
  simpl in H. apply bind_OK in H as (d2 & Hp & H).
  apply fit_pair_OK in Hp as (tbl & Ht & ->). exists tbl. split; [exact Ht|].
  revert H.
  apply for_each_invariant with (P := fun d => d !! pair_key p = Some tbl);
    [|apply lookup_insert_eq].
  intros p' d d' Hin Hd Hstep. apply fit_pair_OK in Hstep as (tbl' & Ht' & ->).
  destruct (decide (pair_key p' = pair_key p)) as [E|Hne].
  - rewrite (Hlast p' Hin E) in Ht' |- *. rewrite Ht in Ht'. injection Ht' as <-.
    apply lookup_insert_eq.
  - rewrite lookup_insert_ne by exact Hne. exact Hd.
Qed.

Lemma insert_key_keeps (k h : cell) (l : list cell) : h ∈ l -> h ∈ insert_key k l.
Proof.
  induction l as [|a l IH]; intros H; simpl; [inversion H|].
  destruct (cell_eqb a k); [exact H|].
  destruct (cell_ltb k a); [apply list_elem_of_further, H|].
  apply elem_of_cons in H as [->|H];
    [apply list_elem_of_here | apply list_elem_of_further, IH, H].
Qed.

Lemma insert_key_covers (k : cell) (l : list cell) :
  isna k = false -> exists h, h ∈ insert_key k l /\ cell_eqb h k = true.
Proof.
  intros Hk. induction l as [|a l IH]; simpl.
  - exists k. split; [apply list_elem_of_here | apply cell_eqb_refl, Hk].
  - destruct (cell_eqb a k) eqn:E.
    + exists a. split; [apply list_elem_of_here | exact E].
    + destruct (cell_ltb k a).
      * exists k. split; [apply list_elem_of_here | apply cell_eqb_refl, Hk].
      * destruct IH as (h & Hh & Hhk). exists h.
        split; [apply list_elem_of_further, Hh | exact Hhk].
Qed.

Lemma fold_insert_key_keeps (rows : list (cell * cell)) (acc : list cell) h :
  h ∈ acc -> h ∈ fold_left (fun acc r => insert_key r.1 acc) rows acc.
Proof.
  revert acc. induction rows as [|r rows IH]; intros acc H; simpl; [exact H|].
  apply IH, insert_key_keeps, H.
Qed.

(** Every key of the frame has its group. *)
Lemma group_keys_cover (rows : list (cell * cell)) (r : cell * cell) :
  r ∈ rows -> isna r.1 = false ->
  exists k, k ∈ group_keys rows /\ cell_eqb k r.1 = true.
Proof.
  unfold group_keys. generalize (@nil cell).
  induction rows as [|r0 rows IH]; intros acc Hin Hna; [inversion Hin|].
  simpl. apply elem_of_cons in Hin as [->|Hin].
  - destruct (insert_key_covers r0.1 acc Hna) as (h & Hh & Hk).
    exists h. split; [apply fold_insert_key_keeps, Hh | exact Hk].
  - apply IH; assumption.
Qed.

Lemma groupby_agg_OK agg rows tbl :
  groupby_agg agg rows = OK tbl ->
  Forall2 (fun k (e : cell * cell) => e.1 = k /\ agg (group_values rows k) = OK e.2)
          (group_keys rows) tbl.
Proof.
  unfold groupby_agg. intros H. apply map_result_OK in H.
  eapply Forall2_impl; [exact H|]. simpl. intros k e He.
  apply bind_OK in He as (v & Hv & He). injection He as <-. auto.
Qed.

(** Equal keys have the same group. *)
Lemma group_values_congr rows (k b : cell) :
  cell_eqb k b = true -> group_values rows k = group_values rows b.
Proof.
  intros H. unfold group_values. f_equal.
  induction rows as [|r rows IH]; [reflexivity|].
  rewrite !filter_cons. rewrite IH.
  rewrite (cell_eqb_congr k b r.1 H).
  destruct (decide (cell_eqb r.1 b = true)); reflexivity.
Qed.

Lemma group_values_row rows (b : cell) :
  group_values rows b <> [] ->
  exists r, r ∈ rows /\ cell_eqb r.1 b = true.
Proof.
  unfold group_values. intros H.
  destruct (filter (fun r : cell * cell => cell_eqb r.1 b = true) rows)
    as [|r l] eqn:E; [contradiction H; reflexivity|].
  assert (Hr : r ∈ filter (fun r : cell * cell => cell_eqb r.1 b = true) rows)
    by (rewrite E; apply list_elem_of_here).
  apply list_elem_of_filter in Hr as [Hb Hr]. eauto.
Qed.

(** A bin with a fitted group has its entry in the table, and the entry
    holds the statistic of the group. *)
Lemma table_lookup_group agg rows tbl (b : cell) :
  groupby_agg agg rows = OK tbl -> group_values rows b <> [] ->
  exists e, table_lookup tbl b = Some e /\ cell_eqb b e.1 = true /\
            agg (group_values rows b) = OK e.2.
Proof.
  intros Ht Hne. apply groupby_agg_OK in Ht.
  destruct (group_values_row rows b Hne) as (r & Hr & Hrb).
  destruct (cell_eqb_notna _ _ Hrb) as [Hrna Hbna].
  destruct (group_keys_cover rows r Hr Hrna) as (k & Hk & Hkr).
  assert (Hkb : cell_eqb b k = true).
  { rewrite cell_eqb_sym. eapply cell_eqb_trans; eassumption. }
  apply list_elem_of_lookup in Hk as (j & Hj).
  destruct (Forall2_lookup_l _ _ _ _ _ Ht Hj) as (e0 & He0 & Hk0 & _).
  assert (Hin : e0 ∈ tbl) by (apply list_elem_of_lookup; eauto).
  unfold table_lookup.
  destruct (find (fun e : cell * cell => cell_eqb b e.1) tbl) as [e|] eqn:Hf.
  - exists e. apply find_some in Hf as [Hein Heb]. split; [reflexivity|].
    split; [exact Heb|].
    apply list_elem_of_In, list_elem_of_lookup in Hein as (j' & Hj').
    destruct (Forall2_lookup_r _ _ _ _ _ Ht Hj') as (k' & _ & Hk' & Hagg).
    rewrite <- (group_values_congr rows e.1 b); [rewrite Hk'; exact Hagg|].
    rewrite cell_eqb_sym. exact Heb.
  - exfalso. apply list_elem_of_In in Hin.
    pose proof (find_none _ _ Hf e0 Hin) as Hno. simpl in Hno.
    rewrite Hk0, Hkb in Hno. discriminate.
Qed.

(** ** One cell through the loops of transform *)

Lemma cell_at_insert (x : DataFrame) (c : string) (col : column) (i : nat) :
  cell_at (<[c := col]> x) c i = col !! i.
Proof. unfold cell_at. rewrite lookup_insert_eq. reflexivity. Qed.

Lemma cell_at_insert_ne (x : DataFrame) (c c' : string) (col : column) (i : nat) :
  c <> c' -> cell_at (<[c := col]> x) c' i = cell_at x c' i.
Proof. intros H. unfold cell_at. rewrite lookup_insert_ne by exact H. reflexivity. Qed.

(** One assignment at one cell of the destination column. *)
Lemma impute_entry_cell keys p cat (y y' : DataFrame) ks (i : nat) :
  impute_entry keys p cat y = OK y' -> keys y p.1 = OK ks ->
  cell_at y' p.2 i =
  match cell_at y p.2 i with
  | Some a =>
    Some (if match ks !! i with Some k => cell_eqb k cat.1 | None => false end
             && isna a
          then cat.2 else a)
  | None => None
  end.
Proof.
  intros H Hk. apply impute_entry_OK in H as (ks' & dst & Hk' & Hd & ->).
  rewrite Hk in Hk'. injection Hk' as <-.
  rewrite cell_at_insert, assign_where_lookup, entry_mask_lookup.
  unfold cell_at. rewrite Hd. destruct (dst !! i); [|reflexivity].
  destruct (ks !! i); reflexivity.
Qed.

Lemma impute_entries_fills keys p tbl (y y' : DataFrame) :
  for_each (impute_entry keys p) tbl y = OK y' -> frame_fills y y'.
Proof.
  apply for_each_related.
  - apply frame_fills_refl.
  - apply frame_fills_trans.
  - intros e s s' _. apply impute_entry_fills.
Qed.


(** ** Fitting with a numeric source *)

Lemma num_fit_OK agg (self0 self : NumSource.t) (x : DataFrame) :
  NumSource.fit agg self0 x = OK self ->
  let ps := NumSource.column_pairs self0 in
  NumSource.src_cols self = Some (map fst ps) /\
  NumSource.dest_cols self = Some (map snd ps) /\
  NumSource.column_pairs self = ps /\
  exists X binned_x,
    NumSource.source_features (map fst ps) x = OK X /\
    KBinsDiscretizer_fit (NumSource.kbins_discretizor self0) X
      = OK (NumSource.kbins_discretizor self) /\
    NumSource.binned_frame (NumSource.kbins_discretizor self) (map fst ps) x
      = OK binned_x /\
    for_each (fit_pair agg (getitem binned_x) x) ps
             (NumSource.impute_value_dict self0)
      = OK (NumSource.impute_value_dict self).
Proof.
  unfold NumSource.fit. intros H.
  apply bind_OK in H as (X & HX & H). apply bind_OK in H as (kb & Hkb & H).
  apply bind_OK in H as (bx & Hbx & H). apply bind_OK in H as (dict & Hd & H).
  injection H as <-. simpl. rewrite zip_map_fst_snd in Hd.
  repeat split. eauto 10.
Qed.

(** The median of a non-empty group of present values is a number. *)
Lemma sort_Q_length (l : list Q) : length (sort_Q l) = length l.
Proof.
  unfold sort_Q. induction l as [|q l IH]; simpl; [reflexivity|].
  rewrite <- IH. generalize (foldr insert_sorted [] l). intros s.
  induction s as [|p s IHs]; simpl; [reflexivity|].
  destruct (Qle_bool q p); simpl; [reflexivity | rewrite IHs; reflexivity].
Qed.

Lemma median_present (l : list cell) (v : cell) :
  l <> [] -> Forall (fun a => isna a = false) l -> median l = OK v ->
  isna v = false.
Proof.
  intros Hne Hall H. unfold median in H. apply bind_OK in H as (qs & Hqs & H).
  assert (Hlen : length qs = length l).
  { clear H Hne. revert qs Hqs. induction Hall as [|a l Ha Hall IH]; intros qs Hqs.
    - simpl in Hqs. injection Hqs as <-. reflexivity.
    - destruct a as [|q|s]; simpl in Hqs; [discriminate Ha| |discriminate Hqs].
      apply bind_OK in Hqs as (qs' & Hqs' & Hqs). injection Hqs as <-.
      simpl. rewrite (IH _ Hqs'). reflexivity. }
  rewrite sort_Q_length, Hlen in H.
  destruct l as [|a l]; [contradiction Hne; reflexivity|].
  cbn [length] in H. destruct (Nat.even (S (length l))); injection H as <-; reflexivity.
Qed.

Lemma group_values_present keys dst (k : cell) :
  Forall (fun a => isna a = false) (group_values (pair_frame keys dst) k).
Proof.
  unfold group_values, pair_frame. apply Forall_forall. intros a Ha.
  apply list_elem_of_fmap in Ha as (r & -> & Hr).
  apply list_elem_of_filter in Hr as [_ Hr].
  apply list_elem_of_filter in Hr as [Hr _].
  apply andb_true_iff in Hr as [_ Hr]. apply negb_true_iff in Hr. exact Hr.
Qed.


(** ** The mode and its tie-break (C5) *)

Lemma occ_snoc (v x : cell) (l : list cell) :
  occ v (l ++ [x]) = occ v l + (if cell_eqb x v then 1 else 0).
Proof.
  unfold occ. rewrite filter_app, length_app. f_equal.
  rewrite filter_cons, filter_nil.
  destruct (decide (cell_eqb x v = true)) as [E|E].
  - rewrite E. reflexivity.
  - destruct (cell_eqb x v); [contradiction E; reflexivity | reflexivity].
Qed.

Lemma occ_congr (k u : cell) (l : list cell) :
  cell_eqb k u = true -> occ u l = occ k l.
Proof.
  intros H. unfold occ. f_equal.
  induction l as [|a l IH]; [reflexivity|]. rewrite !filter_cons, IH.
  rewrite (cell_eqb_congr k u a H).
  destruct (decide (cell_eqb a u = true)); reflexivity.
Qed.

Lemma first_seen_snoc_list seen K l x :
  first_seen seen K l -> first_seen seen K (l ++ [x]).
Proof.
  revert seen. induction K as [|k K IH]; intros seen H; simpl in *; [exact I|].
  destruct H as ((pre & post & -> & Hpre) & Hd & Hrest).
  split; [|split; [exact Hd | apply IH, Hrest]].
  exists pre, (post ++ [x])%list. split; [|exact Hpre].
  rewrite <- app_assoc. reflexivity.
Qed.

Lemma first_seen_distinct seen K l k k' :
  first_seen seen K l -> k ∈ K -> k' ∈ seen -> cell_eqb k' k = false.
Proof.
  revert seen. induction K as [|k0 K IH]; intros seen H Hk Hk'; [inversion Hk|].
  simpl in H. destruct H as (_ & Hd & Hrest).
  apply elem_of_cons in Hk as [->|Hk]; [apply Hd, Hk'|].
  eapply IH; [exact Hrest | exact Hk |]. apply elem_of_app. left. exact Hk'.
Qed.

Lemma first_seen_split seen K1 k K2 l :
  first_seen seen (K1 ++ k :: K2) l ->
  exists pre post, l = (pre ++ k :: post)%list /\
    forall u, u ∈ pre -> exists k', k' ∈ (seen ++ K1)%list /\ cell_eqb k' u = true.
Proof.
  revert seen. induction K1 as [|k1 K1 IH]; intros seen H; simpl in H.
  - destruct H as ((pre & post & -> & Hpre) & _ & _).
    exists pre, post. split; [reflexivity|]. rewrite app_nil_r. exact Hpre.
  - destruct H as (_ & _ & Hrest).
    destruct (IH _ Hrest) as (pre & post & -> & Hpre).
    exists pre, post. split; [reflexivity|].
    intros u Hu. destruct (Hpre u Hu) as (k' & Hk' & E). exists k'.
    split; [|exact E]. rewrite <- app_assoc in Hk'. exact Hk'.
Qed.

Lemma occ_zero (x : cell) (l : list cell) :
  (forall u, u ∈ l -> cell_eqb u x = false) -> occ x l = 0.
Proof.
  unfold occ. induction l as [|a l IH]; intros H; [reflexivity|].
  rewrite filter_cons. destruct (decide (cell_eqb a x = true)) as [E|E].
  - rewrite (H a (list_elem_of_here _ _)) in E. discriminate E.
  - apply IH. intros u Hu. apply H, list_elem_of_further, Hu.
Qed.

(** One [Counter] update keeps the counts exact and the keys in the order
    of first encounter. *)
Lemma counter_add_spec (x : cell) (l : list cell) :
  isna x = false ->
  forall (C : list (cell * nat)) (seen : list cell),
    Forall (fun e : cell * nat => e.2 = occ e.1 l) C ->
    first_seen seen C.*1 l ->
    covered l (seen ++ C.*1) ->
    (forall k', k' ∈ seen -> cell_eqb k' x = false) ->
    Forall (fun e : cell * nat => e.2 = occ e.1 (l ++ [x])) (counter_add x C) /\
    first_seen seen (counter_add x C).*1 (l ++ [x]) /\
    covered (l ++ [x]) (seen ++ (counter_add x C).*1).
Proof.
  intros Hx. induction C as [|[k n] C IH]; intros seen Hcnt Hfs Hcov Hseen.
  - simpl. rewrite app_nil_r in Hcov. split; [|split].
    + constructor; [|constructor]. simpl. rewrite occ_snoc, (cell_eqb_refl x Hx).
      rewrite occ_zero; [reflexivity|]. intros u Hu.
      destruct (Hcov u Hu) as (k' & Hk' & Hku).
      destruct (cell_eqb u x) eqn:E; [|reflexivity].
      rewrite <- (Hseen k' Hk'). symmetry. eapply cell_eqb_trans; eassumption.
    + split; [|split; [exact Hseen | exact I]].
      exists l, []. split; [reflexivity | exact Hcov].
    + intros w Hw. apply elem_of_app in Hw as [Hw|Hw].
      * destruct (Hcov w Hw) as (k' & Hk' & E). exists k'.
        split; [apply elem_of_app; left; exact Hk' | exact E].
      * apply list_elem_of_singleton in Hw. subst w. exists x.
        split; [apply elem_of_app; right; apply list_elem_of_here|].
        apply cell_eqb_refl, Hx.
  - simpl in Hfs. destruct Hfs as (Hhead & Hd & Hrest).
    apply Forall_cons in Hcnt as [Hn Hcnt]. simpl in Hn.
    simpl. destruct (cell_eqb k x) eqn:E.
    + split; [|split].
      * constructor.
        -- simpl. rewrite occ_snoc. rewrite cell_eqb_sym, E. lia.
        -- apply Forall_forall. intros e He.
           rewrite Forall_forall in Hcnt. rewrite (Hcnt e He), occ_snoc.
           assert (cell_eqb k e.1 = false) as Hke.
           { eapply first_seen_distinct; [exact Hrest | |].
             - apply list_elem_of_fmap. eauto.
             - apply elem_of_app. right. apply list_elem_of_here. }
           destruct (cell_eqb x e.1) eqn:Hxe; [|lia].
           rewrite (cell_eqb_trans _ _ _ E Hxe) in Hke. discriminate Hke.
      * simpl. split; [|split; [exact Hd | apply first_seen_snoc_list, Hrest]].
        destruct Hhead as (pre & post & -> & Hpre).
        exists pre, (post ++ [x])%list. split; [|exact Hpre].
        rewrite <- app_assoc. reflexivity.
      * intros w Hw. apply elem_of_app in Hw as [Hw|Hw]; [apply Hcov, Hw|].
        apply list_elem_of_singleton in Hw. subst w. exists k.
        split; [|exact E]. apply elem_of_app. right. apply list_elem_of_here.
    + destruct (IH (seen ++ [k])%list Hcnt Hrest) as (I1 & I2 & I3).
      * intros w Hw. destruct (Hcov w Hw) as (k' & Hk' & Ek). exists k'.
        split; [|exact Ek]. rewrite <- app_assoc. exact Hk'.
      * intros k' Hk'. apply elem_of_app in Hk' as [Hk'|Hk']; [apply Hseen, Hk'|].
        apply list_elem_of_singleton in Hk'. subst k'. exact E.
      * split; [|split].
        -- constructor; [|exact I1]. simpl. rewrite occ_snoc, cell_eqb_sym, E. lia.
        -- simpl. split; [|split; [exact Hd | exact I2]].
           destruct Hhead as (pre & post & -> & Hpre).
           exists pre, (post ++ [x])%list. split; [|exact Hpre].
           rewrite <- app_assoc. reflexivity.
        -- intros w Hw. destruct (I3 w Hw) as (k' & Hk' & Ek). exists k'.
           split; [|exact Ek]. simpl. rewrite <- app_assoc in Hk'. exact Hk'.
Qed.

(** The counter of a list without missing values. *)
Lemma Counter_spec (l : list cell) :
  Forall (fun a => isna a = false) l ->
  Forall (fun e : cell * nat => e.2 = occ e.1 l) (Counter l) /\
  first_seen [] (Counter l).*1 l /\
  covered l (Counter l).*1.
Proof.
  unfold Counter. induction l as [|x l IH] using rev_ind; intros Hall.
  - simpl. split; [constructor|]. split; [exact I|]. intros w Hw. inversion Hw.
  - apply Forall_app in Hall as [Hall Hx]. apply Forall_cons in Hx as [Hx _].
    rewrite fold_left_app. simpl.
    destruct (IH Hall) as (I1 & I2 & I3).
    apply (counter_add_spec x l Hx _ [] I1 I2 I3).
    intros k' Hk'. inversion Hk'.
Qed.

(** The head of [most_common] is the first entry with the largest count. *)
Lemma most_common_head (C : list (cell * nat)) (e : cell * nat)
  (rest : list (cell * nat)) :
  most_common C = e :: rest ->
  exists C1 C2, C = (C1 ++ e :: C2)%list /\
    (forall e', e' ∈ C1 -> e'.2 < e.2) /\
    (forall e', e' ∈ C2 -> e'.2 <= e.2).
Proof.
  unfold most_common. revert e rest.
  induction C as [|a C IH]; intros e rest H; simpl in H; [discriminate H|].
  destruct (foldr insert_by_count [] C) as [|h s] eqn:Hs.
  - destruct C as [|b C].
    + simpl in H. injection H as <- <-. exists [], [].
      split; [reflexivity|]. split; intros e' He'; inversion He'.
    + simpl in Hs. destruct (foldr insert_by_count [] C) as [|h' s']; simpl in Hs.
      * discriminate Hs.
      * destruct (b.2 <? h'.2)%nat; discriminate Hs.
  - simpl in H. destruct (IH h s eq_refl) as (C1 & C2 & -> & H1 & H2).
    destruct (a.2 <? h.2)%nat eqn:Hlt.
    + injection H as <- <-. apply Nat.ltb_lt in Hlt.
      exists (a :: C1), C2. split; [reflexivity|]. split; [|exact H2].
      intros e' He'. apply elem_of_cons in He' as [->|He']; [exact Hlt | apply H1, He'].
    + injection H as <- <-. apply Nat.ltb_ge in Hlt.
      exists [], (C1 ++ h :: C2)%list. split; [reflexivity|].
      split; [intros e' He'; inversion He'|].
      intros e' He'. apply elem_of_app in He' as [He'|He'].
      * specialize (H1 e' He'). lia.
      * apply elem_of_cons in He' as [->|He']; [exact Hlt|].
        specialize (H2 e' He'). lia.
Qed.

(** The mode is the first-encountered value among the most frequent. *)
Lemma mode_first_most_frequent (l : list cell) (v : cell) :
  Forall (fun a => isna a = false) l -> mode l = OK v ->
  first_most_frequent v l.
Proof.
  intros Hall H. unfold mode in H.
  destruct (most_common (Counter l)) as [|[v' n] rest] eqn:Hmc; [discriminate H|].
  injection H as ->.
  destruct (most_common_head _ _ _ Hmc) as (C1 & C2 & HC & H1 & H2).
  destruct (Counter_spec l Hall) as (Hcnt & Hfs & Hcov).
  rewrite HC in Hcnt, Hfs, Hcov. rewrite fmap_app, fmap_cons in Hfs, Hcov.
  simpl in Hfs, Hcov.
  rewrite Forall_app, Forall_cons in Hcnt. destruct Hcnt as (Hc1 & Hn & Hc2).
  simpl in Hn, H1, H2. subst n.
  destruct (first_seen_split [] _ _ _ _ Hfs) as (pre & post & Hl & Hpre).
  exists pre, post. split; [exact Hl|].
  rewrite Forall_forall in Hc1, Hc2. split.
  - intros u Hu. destruct (Hpre u Hu) as (k' & Hk' & E). simpl in Hk'.
    apply list_elem_of_fmap in Hk' as ([k'' n'] & -> & Hin). simpl in E.
    rewrite (occ_congr _ _ l E).
    pose proof (Hc1 _ Hin) as Hq. pose proof (H1 _ Hin) as Hlt. simpl in *. lia.
  - intros w Hw. destruct (Hcov w Hw) as (k & Hk & E).
    rewrite (occ_congr _ _ l E).
    apply elem_of_app in Hk as [Hk|Hk].
    + apply list_elem_of_fmap in Hk as ([k'' n'] & -> & Hin).
      pose proof (Hc1 _ Hin) as Hq. pose proof (H1 _ Hin) as Hlt. simpl in *. lia.
    + apply elem_of_cons in Hk as [->|Hk]; [lia|].
      apply list_elem_of_fmap in Hk as ([k'' n'] & -> & Hin).
      pose proof (Hc2 _ Hin) as Hq. pose proof (H2 _ Hin) as Hle. simpl in *. lia.
Qed.

Lemma cat_fit_OK agg (self0 self : CatSource.t) (x : DataFrame) :
  CatSource.fit agg self0 x = OK self ->
  let ps := CatSource.column_pairs self0 in
  CatSource.src_cols self = Some (map fst ps) /\
  CatSource.dest_cols self = Some (map snd ps) /\
  for_each (fit_pair agg (getitem x) x) ps (CatSource.impute_value_dict self0)
    = OK (CatSource.impute_value_dict self).
Proof.
  unfold CatSource.fit. intros H. apply bind_OK in H as (dict & Hd & H).
  injection H as <-. simpl. rewrite zip_map_fst_snd in Hd. auto.
Qed.


Lemma dict_get_set {V : Type} (k : string) (v : V) (d : list (string * V)) :
  dict_get k (dict_set k v d) = Some v.
Proof.
  induction d as [|[k' v'] d IH]; simpl.
  - rewrite String.eqb_refl. reflexivity.
  - destruct (String.eqb k' k) eqn:E; simpl; rewrite E; [reflexivity | exact IH].
Qed.

Lemma dict_get_set_ne {V : Type} (k k0 : string) (v : V) (d : list (string * V)) :
  k <> k0 -> dict_get k0 (dict_set k v d) = dict_get k0 d.
Proof.
  intros Hne. induction d as [|[k' v'] d IH]; simpl.
  - apply String.eqb_neq in Hne. rewrite Hne. reflexivity.
  - destruct (String.eqb k' k) eqn:E; simpl.
    + apply String.eqb_eq in E. subst k'.
      apply String.eqb_neq in Hne. rewrite Hne. reflexivity.
    + rewrite IH. reflexivity.
Qed.

Lemma dropna_present (c : column) : Forall (fun a => isna a = false) (dropna c).
Proof.
  unfold dropna. apply Forall_forall. intros a Ha.
  apply list_elem_of_filter in Ha as [Ha _]. exact Ha.
Qed.



Example tie_tables :
  CatSource.impute_value_dict tie_imputer !! "city_gender"
    = Some [(Str "x", Str "M")] /\
  MissingImputer.impute_values tie_scalar = [("gender", Str "M")].
Proof. split; vm_compute; reflexivity. Qed.


(** ** A key that is absent from the table (C6) *)



Section AbsentKey.
Variable imp : group_imputer.
Variable x : DataFrame.
Variable keys : DataFrame -> string -> result column.
Variables src dst : list string.
Variable d : string.
Variable i : nat.
Hypothesis keys_of_imp : imputer_keys imp x = OK keys.
Hypothesis pairs_ready : forall p, p ∈ zip src dst ->
  is_Some (imputer_dict imp !! pair_key p) /\ is_Some (x !! p.2) /\
  exists ks, keys x p.1 = OK ks.
Hypothesis key_absent : forall s, (s, d) ∈ zip src dst ->
  exists ks k, keys x s = OK ks /\ ks !! i = Some k /\
    (isna k = false \/ s ∉ dst) /\
    forall tbl e, imputer_dict imp !! pair_key (s, d) = Some tbl -> e ∈ tbl ->
                  cell_eqb k e.1 = false.



End AbsentKey.




Lemma fit_pair_distinct agg keys (x : DataFrame) p dict dict' :
  fit_pair agg keys x p dict = OK dict' -> p.1 <> p.2.
Proof.
  unfold fit_pair. intros H.
  apply bind_OK in H as (ks & _ & H). apply bind_OK in H as (dstc & _ & H).
  destruct (String.eqb p.1 p.2) eqn:E; [discriminate H|].
  apply String.eqb_neq, E.
Qed.


Example city_171 :
  CatAndCatImputer.fit (CatAndCatImputer.init [("city", "gender")]) city_frame
    = OK city_imputer /\
  CatSource.impute_value_dict city_imputer !! "city_gender"
    = Some [(Str "city_1", Str "M")] /\
  exists x', CatAndCatImputer.transform city_imputer city_frame = OK x' /\
    x' !! "gender" = Some [Str "M"; Str "M"; NaN].
Proof.
  split; [vm_compute; reflexivity|]. split; [vm_compute; reflexivity|].
  eexists. split; vm_compute; reflexivity.
Qed.


(** ** Binning a constant column (C8) and the zero-fill (C9) *)

Lemma to_floats_fillna (c : column) (qs : list Q) :
  to_floats (fillna (Num 0) c) = OK qs -> qs = map zero_filled c.
Proof.
  revert qs. induction c as [|a c IH]; intros qs H; simpl in H.
  - injection H as <-. reflexivity.
  - destruct a as [|q|s]; simpl in H; try discriminate H;
      apply bind_OK in H as (qs' & Hq & H); injection H as <-;
      simpl; rewrite (IH _ Hq); reflexivity.
Qed.


Lemma transform_feature_fillna (e : list Q) (c b : column) :
  transform_feature e (fillna (Num 0) c) = OK b ->
  b = map (fun a => bin_of e (zero_filled a)) c.
Proof.
  unfold transform_feature. intros H. apply bind_OK in H as (qs & Hq & H).
  injection H as <-. rewrite (to_floats_fillna _ _ Hq).
  rewrite map_map. reflexivity.
Qed.

(** [binned_x] holds, for each source column, the bins of its values with
    the missing ones counted as zero. *)
Lemma binned_frame_lookup (kb : KBinsDiscretizer) (src : list string)
  (x bx : DataFrame) (s : string) :
  NumSource.binned_frame kb src x = OK bx -> s ∈ src ->
  exists edges e c,
    kb_interior_edges kb = Some edges /\ feature_edges src edges s = Some e /\
    x !! s = Some c /\
    bx !! s = Some (map (fun a => bin_of e (zero_filled a)) c).
Proof.
  unfold NumSource.binned_frame, NumSource.source_features,
    KBinsDiscretizer_transform.
  intros H Hs. apply bind_OK in H as (X' & HX & H).
  apply bind_OK in HX as (X & HX & E). injection E as <-.
  apply bind_OK in H as (B & HB & H). injection H as <-.
  destruct (kb_interior_edges kb) as [edges|]; [|discriminate HB].
  exists edges. revert X B edges HX HB.
  induction src as [|s0 src IH]; intros X B edges HX HB; [inversion Hs|].
  simpl in HX. apply bind_OK in HX as (c0 & Hc0 & HX).
  apply bind_OK in HX as (X0 & HX0 & HX). injection HX as <-.
  apply getitem_OK in Hc0.
  simpl in HB. destruct edges as [|e0 edges]; [discriminate HB|].
  apply bind_OK in HB as (b0 & Hb0 & HB). apply bind_OK in HB as (B0 & HB0 & HB).
  injection HB as <-. simpl.
  destruct (String.eqb s0 s) eqn:E.
  - apply String.eqb_eq in E. subst s0. exists e0, c0.
    split; [reflexivity|]. split; [reflexivity|]. split; [exact Hc0|].
    rewrite lookup_insert_eq. f_equal. apply transform_feature_fillna, Hb0.
  - apply String.eqb_neq in E.
    apply elem_of_cons in Hs as [->|Hs]; [contradiction E; reflexivity|].
    destruct (IH Hs X0 B0 edges HX0 HB0) as (e & c & _ & He & Hc & Hbx).
    exists e, c. split; [reflexivity|]. split; [exact He|]. split; [exact Hc|].
    rewrite lookup_insert_ne by exact E. exact Hbx.
Qed.

Lemma insert_sorted_Forall (P : Q -> Prop) (q : Q) (l : list Q) :
  P q -> Forall P l -> Forall P (insert_sorted q l).
Proof.
  intros Hq H. induction H as [|p l Hp H IH]; simpl.
  - constructor; [exact Hq | constructor].
  - destruct (Qle_bool q p); constructor; auto.
Qed.








Lemma numeric_fit_OK (imp0 imp : group_imputer) (self0 : NumSource.t)
  (x : DataFrame) :
  numeric_source imp0 = Some self0 -> imputer_fit imp0 x = OK imp ->
  exists self, numeric_source imp = Some self /\
    NumSource.fit (imputer_agg imp0) self0 x = OK self /\
    imputer_transform imp = NumSource.transform self.
Proof.
  destruct imp0 as [s|s|s|s]; simpl; intros E H; try discriminate E;
    injection E as ->; apply bind_OK in H as (self & Hfit & H);
    injection H as <-; exists self; auto.
Qed.

(** C9.  For the two imputers with a numeric source, fitted on [xfit]: the
    discretizer is fitted on the source columns with their missing values
    replaced by zero, the groups of fit are formed from the bins of those
    zero-filled columns, and transform looks the rows up by the bins of the
    zero-filled columns of its frame, with the same boundaries; in both, a
    row whose source value is missing is in the bin of the number 0. *)
Theorem zero_fill_before_binning (imp0 imp : group_imputer)
  (self0 : NumSource.t) (xfit : DataFrame) :
  numeric_source imp0 = Some self0 ->
  imputer_fit imp0 xfit = OK imp ->
  exists self cols bfit edges,
    numeric_source imp = Some self /\
    map_result (getitem xfit) (map fst (NumSource.column_pairs self0)) = OK cols /\
    KBinsDiscretizer_fit (NumSource.kbins_discretizor self0)
                         (map (fillna (Num 0)) cols)
      = OK (NumSource.kbins_discretizor self) /\
    kb_interior_edges (NumSource.kbins_discretizor self) = Some edges /\
    NumSource.binned_frame (NumSource.kbins_discretizor self)
      (map fst (NumSource.column_pairs self0)) xfit = OK bfit /\
    for_each (fit_pair (imputer_agg imp0) (getitem bfit) xfit)
             (NumSource.column_pairs self0) (NumSource.impute_value_dict self0)
      = OK (NumSource.impute_value_dict self) /\
    (forall s, s ∈ map fst (NumSource.column_pairs self0) ->
       exists e c,
         feature_edges (map fst (NumSource.column_pairs self0)) edges s = Some e /\
         xfit !! s = Some c /\
         bfit !! s = Some (map (fun a => bin_of e (zero_filled a)) c)) /\
    (forall x x', imputer_transform imp x = OK x' ->
       exists bx,
         NumSource.binned_frame (NumSource.kbins_discretizor self)
           (map fst (NumSource.column_pairs self0)) x = OK bx /\
         for_each (impute_pair (fun _ => getitem bx)
                               (NumSource.impute_value_dict self))
                  (NumSource.column_pairs self0) x = OK x' /\
         forall s, s ∈ map fst (NumSource.column_pairs self0) ->
           exists e c,
             feature_edges (map fst (NumSource.column_pairs self0)) edges s
               = Some e /\
             x !! s = Some c /\
             bx !! s = Some (map (fun a => bin_of e (zero_filled a)) c)).
Proof.
  intros Hnum Hfit.
  destruct (numeric_fit_OK _ _ _ _ Hnum Hfit) as (self & Hself & Hf & Htr).
  pose proof (num_fit_OK _ _ _ _ Hf) as (Hsrc & Hdst & _ & X & bfit & HX & Hkb & Hb & Hd).
  unfold NumSource.source_features in HX.
  apply bind_OK in HX as (cols & Hcols & HX). injection HX as <-.
  assert (exists edges, kb_interior_edges (NumSource.kbins_discretizor self)
                        = Some edges) as (edges & Hedges).
  { unfold NumSource.binned_frame, KBinsDiscretizer_transform in Hb.
    apply bind_OK in Hb as (X' & _ & Hb). apply bind_OK in Hb as (B & HB & _).
    destruct (kb_interior_edges _); [eauto | discriminate HB]. }
  assert (Hbins : forall (y by_ : DataFrame),
            NumSource.binned_frame (NumSource.kbins_discretizor self)
              (map fst (NumSource.column_pairs self0)) y = OK by_ ->
            forall s, s ∈ map fst (NumSource.column_pairs self0) ->
              exists e c,
                feature_edges (map fst (NumSource.column_pairs self0)) edges s
                  = Some e /\
                y !! s = Some c /\
                by_ !! s = Some (map (fun a => bin_of e (zero_filled a)) c)).
  { intros y by_ Hy s Hs.
    destruct (binned_frame_lookup _ _ _ _ s Hy Hs) as (edges' & e & c & He' & He & Hc & Hl).
    rewrite Hedges in He'. injection He' as <-. eauto. }
  exists self, cols, bfit, edges.
  repeat (split; [assumption|]). split; [apply Hbins, Hb|].
  intros x x' Hx. rewrite Htr in Hx. unfold NumSource.transform in Hx.
  rewrite Hsrc, Hdst in Hx. apply bind_OK in Hx as (bx & Hbx & Hx).
  rewrite zip_map_fst_snd in Hx. exists bx.
  split; [exact Hbx|]. split; [exact Hx | apply Hbins, Hbx].
Qed.

Example zero_fill_bins :
  exists self,
    NumAndCatImputer.fit zero_fill_imputer0 zero_fill_frame = OK self /\
    kb_interior_edges (NumSource.kbins_discretizor self) = Some [[5%Q]] /\
    NumSource.binned_frame (NumSource.kbins_discretizor self) ["s"]
      zero_fill_frame = OK {[ "s" := [num 0; num 1; num 0] ]}.
Proof. eexists. repeat split; vm_compute; reflexivity. Qed.

(** The numeric-to-categorical imputer on [zero_fill_frame]. *)
Lemma zero_fill_witness :
  exists self cols bfit edges,
    numeric_source (fitted (imputer_fit (NumAndCat zero_fill_imputer0)
                                        zero_fill_frame)) = Some self /\
    map_result (getitem zero_fill_frame)
               (map fst (NumSource.column_pairs zero_fill_imputer0)) = OK cols /\
    KBinsDiscretizer_fit (NumSource.kbins_discretizor zero_fill_imputer0)
                         (map (fillna (Num 0)) cols)
      = OK (NumSource.kbins_discretizor self) /\
    kb_interior_edges (NumSource.kbins_discretizor self) = Some edges /\
    NumSource.binned_frame (NumSource.kbins_discretizor self)
      (map fst (NumSource.column_pairs zero_fill_imputer0)) zero_fill_frame
      = OK bfit /\
    for_each (fit_pair (imputer_agg (NumAndCat zero_fill_imputer0))
                       (getitem bfit) zero_fill_frame)
             (NumSource.column_pairs zero_fill_imputer0)
             (NumSource.impute_value_dict zero_fill_imputer0)
      = OK (NumSource.impute_value_dict self) /\
    (forall s, s ∈ map fst (NumSource.column_pairs zero_fill_imputer0) ->
       exists e c,
         feature_edges (map fst (NumSource.column_pairs zero_fill_imputer0))
                       edges s = Some e /\
         zero_fill_frame !! s = Some c /\
         bfit !! s = Some (map (fun a => bin_of e (zero_filled a)) c)) /\
    (forall x x',
       imputer_transform (fitted (imputer_fit (NumAndCat zero_fill_imputer0)
                                              zero_fill_frame)) x = OK x' ->
       exists bx,
         NumSource.binned_frame (NumSource.kbins_discretizor self)
           (map fst (NumSource.column_pairs zero_fill_imputer0)) x = OK bx /\
         for_each (impute_pair (fun _ => getitem bx)
                               (NumSource.impute_value_dict self))
                  (NumSource.column_pairs zero_fill_imputer0) x = OK x' /\
         forall s, s ∈ map fst (NumSource.column_pairs zero_fill_imputer0) ->
           exists e c,
             feature_edges (map fst (NumSource.column_pairs zero_fill_imputer0))
                           edges s = Some e /\
             x !! s = Some c /\
             bx !! s = Some (map (fun a => bin_of e (zero_filled a)) c)).
Proof.
  apply (zero_fill_before_binning (NumAndCat zero_fill_imputer0)
           (fitted (imputer_fit (NumAndCat zero_fill_imputer0) zero_fill_frame))
           zero_fill_imputer0 zero_fill_frame).
  - reflexivity.
  - vm_compute. reflexivity.
Defined.

(** ** Two pairs under one lookup key (C10) *)

(** C10.  The pairs [("a_b", "c")] and [("a", "b_c")] are distinct and have
    the same lookup key "a_b_c".  Fitted alone, the first pair has the table
    of the medians 1 and 3; fitted together, the dict holds under the key
    the table of the second pair only, with the medians 100 and 300, and
    transform fills the missing cell of [c], the destination of the first
    pair, with 100.  The same holds for the numeric-to-numeric and for the
    categorical-to-numeric imputer. *)
Theorem lookup_key_collision :
  ("a_b", "c") <> ("a", "b_c") /\
  pair_key ("a_b", "c") = pair_key ("a", "b_c") /\
  (exists alone together x',
     NumAndNumImputer.fit (NumAndNumImputer.init [("a_b", "c")] 2 "uniform")
                          collision_fit_frame = OK alone /\
     NumSource.impute_value_dict alone !! "a_b_c"
       = Some [(num 0, num 1); (num 1, num 3)] /\
     NumAndNumImputer.fit (NumAndNumImputer.init collision_pairs 2 "uniform")
                          collision_fit_frame = OK together /\
     NumSource.impute_value_dict together
       = {[ "a_b_c" := [(num 0, num 100); (num 1, num 300)] ]} /\
     NumAndNumImputer.transform together collision_frame = OK x' /\
     cell_at x' "c" 0 = Some (num 100)) /\
  (exists alone together x',
     CatAndNumImputer.fit (CatAndNumImputer.init [("a_b", "c")])
                          collision_fit_frame = OK alone /\
     CatSource.impute_value_dict alone !! "a_b_c"
       = Some [(num 0, num 1); (num 10, num 3)] /\
     CatAndNumImputer.fit (CatAndNumImputer.init collision_pairs)
                          collision_fit_frame = OK together /\
     CatSource.impute_value_dict together
       = {[ "a_b_c" := [(num 0, num 100); (num 10, num 300)] ]} /\
     CatAndNumImputer.transform together collision_frame = OK x' /\
     cell_at x' "c" 0 = Some (num 100)).
Proof.
  split; [discriminate|]. split; [reflexivity|].
  split; eexists _, _, _; repeat split; vm_compute; reflexivity.
Qed.

(** ** The numeric-to-numeric imputer fills with the group median (C1) *)

(** After fit, the dict has a table under the key of every pair. *)
Lemma fit_pairs_keys agg keys (x : DataFrame) ps dict dict' p :
  for_each (fit_pair agg keys x) ps dict = OK dict' -> p ∈ ps ->
  is_Some (dict' !! pair_key p).
Proof.
  intros H Hp. apply list_elem_of_split in Hp as (l1 & l2 & ->).
  rewrite for_each_app in H. apply bind_OK in H as (d1 & _ & H).
  simpl in H. apply bind_OK in H as (d2 & Hstep & H).
  apply fit_pair_OK in Hstep as (tbl & _ & ->).
  revert H.
  apply for_each_invariant with (P := fun d => is_Some (d !! pair_key p)).
  - intros q d d' _ Hd Hq. apply fit_pair_OK in Hq as (tbl' & _ & ->).
    destruct (decide (pair_key q = pair_key p)) as [E|Hne].
    + rewrite E, lookup_insert_eq. eauto.
    + rewrite lookup_insert_ne by exact Hne. exact Hd.
  - rewrite lookup_insert_eq. eauto.
Qed.





(** * Further properties *)

(** ** What no transform does: change the shape, write elsewhere *)

Lemma same_shape_refl (x : DataFrame) : same_shape x x.
Proof. intros c. destruct (x !! c); constructor. reflexivity. Qed.

Lemma same_shape_trans (x y z : DataFrame) :
  same_shape x y -> same_shape y z -> same_shape x z.
Proof.
  intros H1 H2 c. specialize (H1 c). specialize (H2 c).
  destruct H1 as [a b Hab|]; inversion H2 as [b' d Hbd|]; subst; constructor.
  congruence.
Qed.

Lemma frame_fills_shape (x y : DataFrame) : frame_fills x y -> same_shape x y.
Proof.
  intros H c. specialize (H c). destruct H as [a b Hab|]; constructor.
  eapply Forall2_length; exact Hab.
Qed.

Lemma insert_same_shape (x : DataFrame) (c : string) (col col' : column) :
  x !! c = Some col -> length col = length col' ->
  same_shape x (<[c := col']> x).
Proof.
  intros Hc Hl c'. destruct (decide (c = c')) as [<-|Hne].
  - rewrite lookup_insert_eq, Hc. constructor. exact Hl.
  - rewrite lookup_insert_ne by exact Hne. destruct (x !! c'); constructor.
    reflexivity.
Qed.

Lemma imputer_transform_fills (imp : group_imputer) (x x' : DataFrame) :
  imputer_transform imp x = OK x' -> frame_fills x x'.
Proof.
  intros H. destruct (imputer_transform_fitted _ _ _ H) as (src & dst & Hs & Hd).
  rewrite (imputer_transform_eq imp x src dst Hs Hd) in H.
  apply bind_OK in H as (keys & _ & H). eapply impute_pairs_fills; exact H.
Qed.

Lemma missing_transform_fills (self : MissingImputer.t) (x x' : DataFrame) :
  MissingImputer.transform self x = OK x' -> frame_fills x x'.
Proof.
  unfold MissingImputer.transform. apply for_each_related.
  - apply frame_fills_refl.
  - apply frame_fills_trans.
  - intros e s s' _. apply missing_transform_col_fills.
Qed.

Lemma handle_column_length self col (c c' : column) :
  handle_column self col c = OK c' -> length c = length c'.
Proof.
  unfold handle_column. intros H.
  apply bind_OK in H as (bounds & _ & H). apply bind_OK in H as (lo & _ & H).
  apply bind_OK in H as (hi & _ & H). apply bind_OK in H as (fill & _ & H).
  apply map_result_OK in H. eapply Forall2_length; exact H.
Qed.

Lemma outlier_transform_shape (self : OutlierHandler.t) (x x' : DataFrame) :
  OutlierHandler.transform self x = OK x' -> same_shape x x'.
Proof.
  unfold OutlierHandler.transform. apply for_each_related.
  - apply same_shape_refl.
  - apply same_shape_trans.
  - intros e s s' _ H.
    apply outlier_transform_col_OK in H as (m & c & c' & _ & Hc & Hh & ->).
    eapply insert_same_shape; [exact Hc | eapply handle_column_length; exact Hh].
Qed.

(** Whatever the component and the frame, the frame transform returns has
    the columns of its input, each with as many rows. *)
Theorem transform_keeps_shape (C : component) (x x' : DataFrame) :
  component_transform C x = OK x' -> same_shape x x'.
Proof.
  destruct C as [imp|self|self]; simpl; intros H.
  - apply frame_fills_shape, imputer_transform_fills with (imp := imp), H.
  - apply frame_fills_shape, missing_transform_fills with (self := self), H.
  - apply outlier_transform_shape with (self := self), H.
Qed.

(** The outlier notebook: three columns of four rows before and after. *)
Lemma transform_keeps_shape_witness : same_shape outlier_frame outlier_result.
Proof.
  apply (transform_keeps_shape (Outliers outlier_handler) outlier_frame
           outlier_result).
  vm_compute. reflexivity.
Defined.

Lemma missing_transform_col_other e c (y y' : DataFrame) :
  e.1 <> c -> MissingImputer.transform_col e y = OK y' -> y' !! c = y !! c.
Proof.
  intros Hne H. unfold MissingImputer.transform_col in H. inv_result.
  apply lookup_insert_ne. exact Hne.
Qed.

(** A column that is no destination of a pair, no key of [impute_values],
    no key of [strategies], comes out of transform as it went in. *)
Theorem transform_writes_configured_columns_only (C : component)
  (x x' : DataFrame) (c : string) :
  component_transform C x = OK x' -> c ∉ written_columns C ->
  x' !! c = x !! c.
Proof.
  destruct C as [imp|self|self]; simpl; intros H Hc.
  - destruct (imputer_transform_fitted _ _ _ H) as (src & dst & Hs & Hd).
    rewrite (imputer_transform_eq imp x src dst Hs Hd) in H.
    apply bind_OK in H as (keys & _ & H). rewrite Hd in Hc. simpl in Hc.
    eapply impute_pairs_other; [|exact H].
    intros [s d] Hp E. simpl in E. subst d. apply Hc.
    eapply elem_of_zip_r; exact Hp.
  - unfold MissingImputer.transform in H. revert H.
    apply for_each_invariant with (P := fun z => z !! c = x !! c); [|reflexivity].
    intros e s s' He Hs Hstep. rewrite <- Hs.
    eapply missing_transform_col_other; [|exact Hstep].
    intros E. apply Hc. rewrite <- E. apply elem_of_map, He.
  - unfold OutlierHandler.transform in H.
    eapply outlier_transform_others; [|exact H].
    intros K. apply Hc. exact K.
Qed.

(** The imputer of [tie_frame] fills [gender] from [city]: the column
    [city] is returned as it is. *)
Lemma transform_writes_witness :
  transformed (CatAndCatImputer.transform tie_imputer tie_frame) !! "city"
  = tie_frame !! "city".
Proof.
  apply (transform_writes_configured_columns_only
           (GroupImputer (CatAndCat tie_imputer)) tie_frame
           (transformed (CatAndCatImputer.transform tie_imputer tie_frame)) "city").
  - vm_compute. reflexivity.
  - apply (bool_decide_unpack _). vm_compute. exact I.
Defined.

(** ** The scalar imputer, column by column *)

Lemma dict_get_None {V : Type} (k : string) (d : list (string * V)) :
  k ∉ map fst d -> dict_get k d = None.
Proof.
  induction d as [|[k' v'] d IH]; simpl; intros H; [reflexivity|].
  destruct (String.eqb k' k) eqn:E.
  - apply String.eqb_eq in E. subst k'. contradiction H. apply list_elem_of_here.
  - apply IH. intros K. apply H. apply list_elem_of_further, K.
Qed.

Lemma dict_set_new {V : Type} (k : string) (v : V) (d : list (string * V)) :
  k ∉ map fst d -> dict_set k v d = (d ++ [(k, v)])%list.
Proof.
  induction d as [|[k' v'] d IH]; simpl; intros H; [reflexivity|].
  destruct (String.eqb k' k) eqn:E.
  - apply String.eqb_eq in E. subst k'. contradiction H. apply list_elem_of_here.
  - rewrite IH; [reflexivity|]. intros K. apply H. apply list_elem_of_further, K.
Qed.

(** The loop of transform, when the keys of [impute_values] are columns of
    the frame: [fillna] of each of them. *)
Lemma missing_transform_lookup (l : list (string * cell)) (x : DataFrame) :
  NoDup (map fst l) ->
  (forall col, col ∈ map fst l -> is_Some (x !! col)) ->
  exists x', for_each MissingImputer.transform_col l x = OK x' /\
    forall col, x' !! col =
      match dict_get col l with
      | Some v => fillna v <$> x !! col
      | None => x !! col
      end.
Proof.
  revert x. induction l as [|[k v] l IH]; intros x Hnd Hin; simpl.
  - exists x. split; [reflexivity|]. intros col. reflexivity.
  - simpl in Hnd. apply NoDup_cons in Hnd as [Hk Hnd].
    destruct (Hin k (list_elem_of_here _ _)) as [c Hc].
    assert (Hstep : MissingImputer.transform_col (k, v) x
                    = OK (<[k := fillna v c]> x)).
    { unfold MissingImputer.transform_col, getitem. simpl. rewrite Hc. reflexivity. }
    rewrite Hstep. cbn [mbind result_bind].
    destruct (IH (<[k := fillna v c]> x) Hnd) as (x' & Hx' & Hl).
    { intros col Hcol. destruct (decide (k = col)) as [<-|Hne].
      - rewrite lookup_insert_eq. eauto.
      - rewrite lookup_insert_ne by exact Hne.
        apply Hin, list_elem_of_further, Hcol. }
    exists x'. split; [exact Hx'|]. intros col. rewrite Hl.
    destruct (String.eqb k col) eqn:E.
    + apply String.eqb_eq in E. subst col.
      rewrite (dict_get_None k l Hk), lookup_insert_eq, Hc. reflexivity.
    + apply String.eqb_neq in E. rewrite lookup_insert_ne by exact E. reflexivity.
Qed.

(** transform is [fillna], column by column: when every key of
    [impute_values] is a column of the frame, transform returns; a column
    with an entry comes out with its missing cells replaced by the value of
    the entry and its present cells kept, and a column without an entry
    comes out as it is. *)
Theorem scalar_transform_is_fillna (self : MissingImputer.t) (x : DataFrame) :
  NoDup (map fst (MissingImputer.impute_values self)) ->
  (forall col, col ∈ map fst (MissingImputer.impute_values self) ->
     is_Some (x !! col)) ->
  exists x', MissingImputer.transform self x = OK x' /\
    forall col, x' !! col =
      match dict_get col (MissingImputer.impute_values self) with
      | Some v => fillna v <$> x !! col
      | None => x !! col
      end.
Proof. apply missing_transform_lookup. Qed.

(** transform raises [KeyError] on a frame that lacks a column of
    [impute_values]. *)
Theorem scalar_transform_absent_column (self : MissingImputer.t)
  (x : DataFrame) (col : string) :
  col ∈ map fst (MissingImputer.impute_values self) -> x !! col = None ->
  MissingImputer.transform self x = Raise KeyError.
Proof.
  unfold MissingImputer.transform. generalize (MissingImputer.impute_values self).
  intros l. revert x. induction l as [|[k v] l IH]; intros x Hin Hx.
  - inversion Hin.
  - simpl.
    destruct (x !! k) as [c|] eqn:Hk.
    2:{ unfold MissingImputer.transform_col, getitem. simpl. rewrite Hk. reflexivity. }
    assert (Hstep : MissingImputer.transform_col (k, v) x
                    = OK (<[k := fillna v c]> x)).
    { unfold MissingImputer.transform_col, getitem. simpl. rewrite Hk. reflexivity. }
    rewrite Hstep. cbn [mbind result_bind].
    apply IH.
    + simpl in Hin. apply elem_of_cons in Hin as [->|Hin]; [congruence | exact Hin].
    + rewrite lookup_insert_ne; [exact Hx | congruence].
Qed.

(** *** What fit stores *)

Lemma numeric_values_complete (l : list cell) (qs : list Q) :
  complete l -> numeric_values l = OK qs -> length qs = length l.
Proof.
  intros Hall. revert qs. induction Hall as [|a l Ha Hall IH]; intros qs Hqs.
  - simpl in Hqs. injection Hqs as <-. reflexivity.
  - destruct a as [|q|s]; simpl in Hqs; [discriminate Ha| |discriminate Hqs].
    apply bind_OK in Hqs as (qs' & Hqs' & Hqs). injection Hqs as <-.
    simpl. rewrite (IH _ Hqs'). reflexivity.
Qed.

Lemma mean_present (l : list cell) (v : cell) :
  l <> [] -> complete l -> mean l = OK v -> isna v = false.
Proof.
  intros Hne Hall H. unfold mean in H. apply bind_OK in H as (qs & Hqs & H).
  pose proof (numeric_values_complete l qs Hall Hqs) as Hlen.
  destruct qs as [|q qs].
  - destruct l; [contradiction Hne; reflexivity | discriminate Hlen].
  - injection H as <-. reflexivity.
Qed.

Lemma mode_elem (l : list cell) (v : cell) :
  complete l -> mode l = OK v -> v ∈ l.
Proof.
  intros Hall H.
  destruct (mode_first_most_frequent l v Hall H) as (pre & post & -> & _).
  apply elem_of_app. right. apply list_elem_of_here.
Qed.

(** The value of a strategy: never the missing marker, for a constant that
    is not the missing marker and for a statistic of a column with a
    value. *)
Lemma resolve_present (s : cell) (l : list cell) (v : cell) :
  complete l -> isna s = false -> (s ∈ statistic_names -> l <> []) ->
  MissingImputer.resolve s l = OK v -> isna v = false.
Proof.
  intros Hall Hs Hne. unfold MissingImputer.resolve.
  assert (Hname : forall n, cell_eqb s (Str n) = true -> s = Str n).
  { intros n E. destruct s as [|q|t]; simpl in E; try discriminate E.
    apply String.eqb_eq in E. congruence. }
  destruct (cell_eqb s (Str "mean")) eqn:E1.
  { intros H. eapply mean_present; [|exact Hall|exact H].
    apply Hne. rewrite (Hname _ E1). apply list_elem_of_here. }
  destruct (cell_eqb s (Str "median")) eqn:E2.
  { intros H. eapply median_present; [|exact Hall|exact H].
    apply Hne. rewrite (Hname _ E2). apply list_elem_of_further, list_elem_of_here. }
  destruct (cell_eqb s (Str "mode")) eqn:E3.
  { intros H. apply mode_elem in H; [|exact Hall].
    unfold complete in Hall. rewrite Forall_forall in Hall. apply Hall, H. }
  intros H. injection H as <-. exact Hs.
Qed.

(** Fitted from scratch on distinct columns, [impute_values] has the keys
    of [strategies], in order, each with the value of its strategy on the
    present cells of its column. *)
Lemma missing_fit_loop (x : DataFrame) (l : list (string * cell))
  (d d' : list (string * cell)) :
  NoDup (map fst l) -> (forall k, k ∈ map fst l -> k ∉ map fst d) ->
  for_each (MissingImputer.fit_col x) l d = OK d' ->
  exists rs, d' = (d ++ rs)%list /\
    Forall2 (fun (e r : string * cell) =>
               r.1 = e.1 /\ exists c, x !! e.1 = Some c /\
                 MissingImputer.resolve e.2 (dropna c) = OK r.2) l rs.
Proof.
  revert d. induction l as [|[k s] l IH]; intros d Hnd Hnew H; simpl in H.
  - injection H as <-. exists []. split; [rewrite app_nil_r; reflexivity | constructor].
  - simpl in Hnd. apply NoDup_cons in Hnd as [Hk Hnd].
    apply bind_OK in H as (d1 & Hstep & H).
    unfold MissingImputer.fit_col in Hstep. simpl in Hstep.
    apply bind_OK in Hstep as (c & Hc & Hstep). apply getitem_OK in Hc.
    apply bind_OK in Hstep as (v & Hv & Hstep). injection Hstep as <-.
    rewrite dict_set_new in H by (apply Hnew, list_elem_of_here).
    destruct (IH (d ++ [(k, v)])%list Hnd) with (2 := H) as (rs & -> & Hrs).
    { intros k' Hk'. rewrite map_app. simpl. intros K.
      apply elem_of_app in K as [K|K].
      - revert K. apply Hnew. apply list_elem_of_further, Hk'.
      - apply list_elem_of_singleton in K. subst k'. contradiction. }
    exists ((k, v) :: rs). split; [rewrite <- app_assoc; reflexivity|].
    constructor; [|exact Hrs]. simpl. eauto.
Qed.

Lemma Forall2_keys (l rs : list (string * cell)) (P : string * cell -> string * cell -> Prop) :
  Forall2 (fun e r => r.1 = e.1 /\ P e r) l rs -> map fst rs = map fst l.
Proof.
  induction 1 as [|e r l rs [E _] H IH]; simpl; [reflexivity|].
  rewrite E, IH. reflexivity.
Qed.

Lemma dict_get_Forall2 (l rs : list (string * cell))
  (P : string * cell -> string * cell -> Prop) (k : string) (s : cell) :
  NoDup (map fst l) ->
  Forall2 (fun e r => r.1 = e.1 /\ P e r) l rs -> (k, s) ∈ l ->
  exists v, dict_get k rs = Some v /\ P (k, s) (k, v).
Proof.
  intros Hnd H. induction H as [|[k0 s0] [k1 v1] l rs [E HP] H IH]; intros Hin.
  - inversion Hin.
  - simpl in E. subst k1. simpl in Hnd. apply NoDup_cons in Hnd as [Hk Hnd].
    simpl. apply elem_of_cons in Hin as [Heq|Hin].
    + injection Heq as -> ->. rewrite String.eqb_refl. eauto.
    + destruct (String.eqb k0 k) eqn:Ek.
      * apply String.eqb_eq in Ek. subst k0. contradiction Hk.
        apply (elem_of_map fst l (k, s)), Hin.
      * apply IH; assumption.
Qed.

Lemma fillna_complete (v : cell) (c : column) :
  isna v = false -> complete (fillna v c).
Proof.
  intros Hv. unfold complete, fillna. apply Forall_forall. intros a Ha.
  apply list_elem_of_fmap in Ha as (b & -> & _).
  destruct (isna b) eqn:E; [exact Hv | exact E].
Qed.

(** After fit and transform of the scalar imputer, a configured column has
    no missing value left, when its strategy is a constant other than the
    missing marker, or a statistic and the fitted column has a value.  The
    frame transformed may be any frame with the configured columns. *)
Theorem scalar_imputer_leaves_no_missing_value
  (strategies : list (string * cell)) (xfit x : DataFrame)
  (self : MissingImputer.t) (col : string) (s : cell) (c : column) :
  NoDup (map fst strategies) ->
  MissingImputer.fit (MissingImputer.init strategies) xfit = OK self ->
  (col, s) ∈ strategies ->
  isna s = false ->
  xfit !! col = Some c ->
  (s ∈ statistic_names -> exists a, a ∈ c /\ isna a = false) ->
  (forall k, k ∈ map fst strategies -> is_Some (x !! k)) ->
  exists x' c', MissingImputer.transform self x = OK x' /\
    x' !! col = Some c' /\ complete c'.
Proof.
  intros Hnd Hfit Hin Hs Hc Hval Hcols.
  unfold MissingImputer.fit in Hfit. apply bind_OK in Hfit as (values & Hloop & Hfit).
  injection Hfit as <-. simpl in Hloop.
  destruct (missing_fit_loop xfit strategies [] values Hnd) with (2 := Hloop)
    as (rs & -> & Hrs).
  { intros k _ K. inversion K. }
  simpl in *.
  pose proof (Forall2_keys _ _ _ Hrs) as Hkeys.
  destruct (dict_get_Forall2 _ _ _ col s Hnd Hrs Hin) as (v & Hget & c0 & Hc0 & Hres).
  simpl in Hc0, Hres. rewrite Hc in Hc0. injection Hc0 as <-.
  assert (Hv : isna v = false).
  { eapply resolve_present; [apply dropna_present | exact Hs | | exact Hres].
    intros Hname. destruct (Hval Hname) as (a & Ha & Hna). intros E.
    assert (K : a ∈ dropna c) by (apply list_elem_of_filter; auto).
    rewrite E in K. inversion K. }
  destruct (missing_transform_lookup rs x) as (x' & Hx' & Hl).
  { rewrite Hkeys. exact Hnd. }
  { rewrite Hkeys. exact Hcols. }
  destruct (Hcols col (elem_of_map fst _ _ Hin)) as [cx Hcx].
  exists x', (fillna v cx). split; [exact Hx'|]. split.
  - rewrite Hl, Hget, Hcx. reflexivity.
  - apply fillna_complete, Hv.
Qed.

Example scalar_notebook :
  MissingImputer.fit (MissingImputer.init scalar_strategies) scalar_frame
    = OK scalar_imputer /\
  MissingImputer.impute_values scalar_imputer
    = [("id", num (-1)); ("hours", num 15); ("gender", Str "F")] /\
  exists x', MissingImputer.transform scalar_imputer scalar_frame = OK x' /\
    x' !! "id" = Some [num 7; num (-1); num 9] /\
    x' !! "hours" = Some [num 10; num 20; num 15] /\
    x' !! "gender" = Some [Str "F"; Str "F"; Str "F"].
Proof.
  split; [vm_compute; reflexivity|]. split; [vm_compute; reflexivity|].
  eexists. repeat split; vm_compute; reflexivity.
Qed.

Lemma scalar_transform_is_fillna_witness :
  exists x', MissingImputer.transform scalar_imputer scalar_frame = OK x' /\
    forall col, x' !! col =
      match dict_get col (MissingImputer.impute_values scalar_imputer) with
      | Some v => fillna v <$> scalar_frame !! col
      | None => scalar_frame !! col
      end.
Proof.
  apply (scalar_transform_is_fillna scalar_imputer scalar_frame).
  - apply (bool_decide_unpack _). vm_compute. exact I.
  - intros col Hcol. vm_compute in Hcol.
    repeat (apply elem_of_cons in Hcol as [->|Hcol]; [vm_compute; eauto|]).
    inversion Hcol.
Defined.

Lemma scalar_transform_absent_witness :
  MissingImputer.transform scalar_imputer empty_column_frame = Raise KeyError.
Proof.
  apply (scalar_transform_absent_column scalar_imputer empty_column_frame "id").
  - vm_compute. apply list_elem_of_here.
  - reflexivity.
Defined.

Lemma scalar_imputer_complete_witness :
  exists x' c', MissingImputer.transform scalar_imputer scalar_frame = OK x' /\
    x' !! "gender" = Some c' /\ complete c'.
Proof.
  apply (scalar_imputer_leaves_no_missing_value scalar_strategies scalar_frame
           scalar_frame scalar_imputer "gender" (Str "mode") [NaN; Str "F"; NaN]).
  - apply (bool_decide_unpack _). vm_compute. exact I.
  - vm_compute. reflexivity.
  - apply list_elem_of_further, list_elem_of_further, list_elem_of_here.
  - reflexivity.
  - reflexivity.
  - intros _. exists (Str "F"). split; [|reflexivity].
    apply list_elem_of_further, list_elem_of_here.
  - intros k Hk. simpl in Hk.
    repeat (apply elem_of_cons in Hk as [->|Hk]; [vm_compute; eauto|]).
    inversion Hk.
Defined.

(** *** A column without a value *)

Lemma dropna_all_missing (c : column) :
  Forall (fun a => isna a = true) c -> dropna c = [].
Proof.
  unfold dropna. induction 1 as [|a c Ha H IH]; [reflexivity|].
  rewrite filter_cons. destruct (decide (isna a = false)) as [E|_]; [congruence|].
  exact IH.
Qed.

(** The value fit stores for a column: that of the last entry of the
    column in [strategies]. *)
Lemma missing_fit_value (self0 self : MissingImputer.t) (x : DataFrame)
  l1 col s l2 :
  MissingImputer.fit self0 x = OK self ->
  MissingImputer.strategies self0 = (l1 ++ (col, s) :: l2)%list ->
  (forall e, e ∈ l2 -> e.1 <> col) ->
  exists c v, x !! col = Some c /\
    dict_get col (MissingImputer.impute_values self) = Some v /\
    MissingImputer.resolve s (dropna c) = OK v.
Proof.
  unfold MissingImputer.fit. intros H E Hlast.
  apply bind_OK in H as (values & H & Hs). injection Hs as <-. simpl.
  rewrite E, for_each_app in H. apply bind_OK in H as (d1 & _ & H).
  simpl in H. apply bind_OK in H as (d2 & Hstep & H).
  unfold MissingImputer.fit_col in Hstep. simpl in Hstep.
  apply bind_OK in Hstep as (c & Hc & Hstep). apply getitem_OK in Hc.
  apply bind_OK in Hstep as (v & Hv & Hstep). injection Hstep as <-.
  exists c, v. split; [exact Hc|]. split; [|exact Hv].
  revert H.
  apply for_each_invariant with (P := fun d => dict_get col d = Some v);
    [|apply dict_get_set].
  intros e d d' He Hd Hs. unfold MissingImputer.fit_col in Hs.
  apply bind_OK in Hs as (c' & _ & Hs). apply bind_OK in Hs as (v' & _ & Hs).
  injection Hs as <-. rewrite dict_get_set_ne; [exact Hd | apply Hlast, He].
Qed.

(** On a column all of whose cells are missing, the strategy "mode" makes
    fit raise [IndexError] (the most common value of no value), once the
    columns before it are fitted; the strategies "mean" and "median" do not
    raise, and the value fit stores is the missing marker. *)
Theorem scalar_fit_on_column_without_values :
  (forall (self : MissingImputer.t) (x : DataFrame) l1 col l2 c values,
     MissingImputer.strategies self = (l1 ++ (col, Str "mode") :: l2)%list ->
     for_each (MissingImputer.fit_col x) l1 (MissingImputer.impute_values self)
       = OK values ->
     x !! col = Some c -> Forall (fun a => isna a = true) c ->
     MissingImputer.fit self x = Raise IndexError) /\
  (forall (self0 self : MissingImputer.t) (x : DataFrame) l1 col s l2 c,
     s = Str "mean" \/ s = Str "median" ->
     MissingImputer.fit self0 x = OK self ->
     MissingImputer.strategies self0 = (l1 ++ (col, s) :: l2)%list ->
     (forall e, e ∈ l2 -> e.1 <> col) ->
     x !! col = Some c -> Forall (fun a => isna a = true) c ->
     dict_get col (MissingImputer.impute_values self) = Some NaN).
Proof.
  split.
  - intros self x l1 col l2 c values E H1 Hc Hall.
    assert (Hstep : MissingImputer.fit_col x (col, Str "mode") values
                    = Raise IndexError).
    { unfold MissingImputer.fit_col, getitem. simpl. rewrite Hc. simpl.
      rewrite (dropna_all_missing c Hall). reflexivity. }
    unfold MissingImputer.fit. rewrite E, for_each_app, H1.
    cbn [mbind result_bind for_each]. rewrite Hstep. reflexivity.
  - intros self0 self x l1 col s l2 c Hs Hfit E Hlast Hc Hall.
    destruct (missing_fit_value _ _ _ _ _ _ _ Hfit E Hlast) as (c' & v & Hc' & Hget & Hres).
    rewrite Hc in Hc'. injection Hc' as <-.
    rewrite (dropna_all_missing c Hall) in Hres.
    destruct Hs as [-> | ->]; vm_compute in Hres; injection Hres as <-; exact Hget.
Qed.

(** The column [a] of [empty_column_frame] has no value. *)
Lemma scalar_fit_without_values_witness :
  MissingImputer.fit (MissingImputer.init [("b", Str "mean"); ("a", Str "mode")])
                     empty_column_frame = Raise IndexError /\
  dict_get "a" (MissingImputer.impute_values
                  (fitted_missing
                     (MissingImputer.fit (MissingImputer.init [("a", Str "median")])
                                         empty_column_frame))) = Some NaN.
Proof.
  destruct scalar_fit_on_column_without_values as (H1 & H2). split.
  - apply (H1 (MissingImputer.init [("b", Str "mean"); ("a", Str "mode")])
              empty_column_frame [("b", Str "mean")] "a" [] [NaN; NaN]
              [("b", num 1)]).
    + reflexivity.
    + vm_compute. reflexivity.
    + reflexivity.
    + repeat constructor.
  - apply (H2 (MissingImputer.init [("a", Str "median")]) _ empty_column_frame
              [] "a" (Str "median") [] [NaN; NaN]).
    + right. reflexivity.
    + vm_compute. reflexivity.
    + reflexivity.
    + intros e He. inversion He.
    + reflexivity.
    + repeat constructor.
Defined.

(** ** Every variant fills with the statistic of the group *)

(** What fit leaves in the state, for the four variants alike. *)
Lemma imputer_fit_OK (imp0 imp : group_imputer) (xfit : DataFrame) :
  imputer_fit imp0 xfit = OK imp ->
  let ps := imputer_column_pairs imp0 in
  imputer_src_cols imp = Some (map fst ps) /\
  imputer_dest_cols imp = Some (map snd ps) /\
  imputer_agg imp = imputer_agg imp0 /\
  exists kf, imputer_keys imp xfit = OK kf /\
    for_each (fit_pair (imputer_agg imp0) (kf xfit) xfit) ps (imputer_dict imp0)
      = OK (imputer_dict imp).
Proof.
  intros H.
  destruct imp0 as [self0|self0|self0|self0]; simpl in H;
    apply bind_OK in H as (self & Hfit & H); injection H as <-; simpl;
    unfold NumAndNumImputer.fit, NumAndCatImputer.fit, CatAndNumImputer.fit,
      CatAndCatImputer.fit in Hfit.
  1,4: apply num_fit_OK in Hfit as (Hs & Hd & _ & X & bx & _ & _ & Hbx & Hdict);
       unfold imputer_keys; simpl; rewrite Hs, Hbx; simpl;
       repeat (split; [assumption || reflexivity|]);
       eexists; split; [reflexivity | exact Hdict].
  all: apply cat_fit_OK in Hfit as (Hs & Hd & Hdict);
       unfold imputer_keys; simpl;
       repeat (split; [assumption || reflexivity|]);
       eexists; split; [reflexivity | exact Hdict].
Qed.


(** The inner loop at one missing cell: it takes the statistic of the
    first entry whose key is the key of the row. *)
Lemma impute_entries_cell_keys keys p (tbl : table) ks (i : nat) k e :
  (forall (y z : DataFrame) s, y !! s = z !! s -> keys y s = keys z s) ->
  p.1 <> p.2 -> ks !! i = Some k ->
  table_lookup tbl k = Some e -> isna e.2 = false ->
  forall y y' : DataFrame,
    keys y p.1 = OK ks ->
    for_each (impute_entry keys p) tbl y = OK y' ->
    cell_at y p.2 i = Some NaN -> cell_at y' p.2 i = Some e.2.
Proof.
  intros Hloc Hne Hk Hfind Hv. unfold table_lookup in Hfind.
  induction tbl as [|e0 tbl IH]; intros y y' Hks H Hcell; [discriminate Hfind|].
  simpl in H, Hfind. apply bind_OK in H as (y1 & H1 & H).
  pose proof (impute_entry_cell _ p e0 y y1 ks i H1 Hks) as Hc1.
  rewrite Hcell, Hk in Hc1. simpl in Hc1. rewrite andb_true_r in Hc1.
  destruct (cell_eqb k e0.1) eqn:Hm.
  - injection Hfind as <-.
    eapply frame_fills_cell; [eapply impute_entries_fills; exact H | exact Hc1 | exact Hv].
  - apply (IH Hfind y1 y'); [|exact H|exact Hc1].
    rewrite <- Hks. apply Hloc. eapply impute_entry_other; [|exact H1].
    intros E. apply Hne. symmetry. exact E.
Qed.

(** The statistic of a non-empty group of present values is present. *)
Lemma imputer_agg_present (imp : group_imputer) (l : list cell) (v : cell) :
  l <> [] -> complete l -> imputer_agg imp l = OK v -> isna v = false.
Proof.
  intros Hne Hall H. destruct imp; simpl in H.
  1,2: eapply median_present; eassumption.
  all: apply mode_elem in H; [|exact Hall];
       unfold complete in Hall; rewrite Forall_forall in Hall; apply Hall, H.
Qed.

(** The fit side: the table of the pair has, for a key with a non-empty
    group, an entry with the statistic of the group, which is present. *)
Lemma fitted_entry (imp0 imp : group_imputer) (xfit : DataFrame)
  (ps1 ps2 : list (string * string)) (s d : string)
  (kf : DataFrame -> string -> result column) (kfit dfit : column) (k : cell) :
  imputer_fit imp0 xfit = OK imp ->
  imputer_column_pairs imp0 = (ps1 ++ (s, d) :: ps2)%list ->
  (forall p, p ∈ ps2 -> pair_key p = pair_key (s, d) -> p = (s, d)) ->
  imputer_keys imp xfit = OK kf -> kf xfit s = OK kfit ->
  xfit !! d = Some dfit ->
  group_values (pair_frame kfit dfit) k <> [] ->
  s <> d /\ isna k = false /\
  exists tbl e,
    imputer_dict imp !! pair_key (s, d) = Some tbl /\
    table_lookup tbl k = Some e /\
    imputer_agg imp0 (group_values (pair_frame kfit dfit) k) = OK e.2 /\
    isna e.2 = false.
Proof.
  intros Hfit Hps Hlast Hkf Hkfit Hdfit Hgroup.
  destruct (imputer_fit_OK _ _ _ Hfit) as (_ & _ & _ & kf' & Hkf' & Hdict).
  rewrite Hkf in Hkf'. injection Hkf' as <-. rewrite Hps in Hdict.
  destruct (fit_pairs_lookup _ _ _ _ _ _ _ _ Hdict Hlast) as (tbl & Htbl & Hlook).
  split.
  { rewrite for_each_app in Hdict. apply bind_OK in Hdict as (d1 & _ & Hd1).
    simpl in Hd1. apply bind_OK in Hd1 as (d2 & Hp & _).
    exact (fit_pair_distinct _ _ _ _ _ _ Hp). }
  unfold pair_table in Htbl. simpl in Htbl. rewrite Hkfit in Htbl. simpl in Htbl.
  unfold getitem in Htbl. rewrite Hdfit in Htbl. simpl in Htbl.
  destruct (table_lookup_group _ _ _ k Htbl Hgroup) as (e & He & Hke & Hagg).
  destruct (cell_eqb_notna _ _ Hke) as [Hkna _]. split; [exact Hkna|].
  exists tbl, e. repeat (split; [assumption|]).
  eapply imputer_agg_present; [exact Hgroup | apply group_values_present | exact Hagg].
Qed.

(** The transform side: a pair that finds the cell missing and the key of
    the row in its table writes the statistic, and the later pairs keep
    it. *)
Lemma pair_then_rest_cell keys dict (s d : string) (ps2 : list (string * string))
  (tbl : table) (ks : column) (k : cell) (e : cell * cell) (i : nat)
  (y1 x' : DataFrame) :
  (forall (y z : DataFrame) c, y !! c = z !! c -> keys y c = keys z c) ->
  s <> d -> dict !! pair_key (s, d) = Some tbl ->
  table_lookup tbl k = Some e -> isna e.2 = false ->
  keys y1 s = OK ks -> ks !! i = Some k -> cell_at y1 d i = Some NaN ->
  for_each (impute_pair keys dict) ((s, d) :: ps2) y1 = OK x' ->
  cell_at x' d i = Some e.2.
Proof.
  intros Hloc Hsd Hlook He Hv Hks Hk Hc1 H.
  simpl in H. apply bind_OK in H as (y2 & H2 & H3).
  pose proof (impute_pairs_fills _ _ _ _ _ H3) as F3.
  unfold impute_pair, lookup_key in H2. rewrite Hlook in H2. simpl in H2.
  eapply frame_fills_cell; [exact F3 | | exact Hv].
  exact (impute_entries_cell_keys keys (s, d) tbl ks i k e Hloc Hsd Hk He Hv
           y1 y2 Hks H2 Hc1).
Qed.


Example mode_notebook :
  imputer_fit (CatAndCat (CatAndCatImputer.init [("city", "gender")])) mode_frame
    = OK mode_imputer /\
  imputer_dict mode_imputer !! "city_gender"
    = Some [(Str "u", Str "F"); (Str "v", Str "M")] /\
  exists x', imputer_transform mode_imputer mode_frame = OK x' /\
    x' !! "gender" = Some [Str "F"; Str "F"; Str "M"; Str "F"].
Proof.
  split; [vm_compute; reflexivity|]. split; [vm_compute; reflexivity|].
  eexists. split; vm_compute; reflexivity.
Qed.


(** *** A chain of pairs *)

(** With a categorical source the key is read from the frame as the
    earlier pairs left it: when the pairs before [(s, d)] leave the value
    [k] in the source cell of a row (filled by one of them, or there from
    the start) and the destination cell of the row missing, and [k] has a
    non-empty group in the fitted frame, the cell takes the statistic of
    that group. *)
Theorem categorical_pair_reads_filled_source (imp0 imp : group_imputer)
  (xfit x y1 x' : DataFrame) (ps1 ps2 : list (string * string)) (s d : string)
  (kfit dfit ks : column) (k : cell) (i : nat) :
  numeric_source imp0 = None ->
  imputer_fit imp0 xfit = OK imp ->
  imputer_column_pairs imp0 = (ps1 ++ (s, d) :: ps2)%list ->
  (forall p, p ∈ ps2 -> pair_key p = pair_key (s, d) -> p = (s, d)) ->
  xfit !! s = Some kfit -> xfit !! d = Some dfit ->
  imputer_transform imp x = OK x' ->
  for_each (impute_pair getitem (imputer_dict imp)) ps1 x = OK y1 ->
  y1 !! s = Some ks -> ks !! i = Some k ->
  cell_at y1 d i = Some NaN ->
  group_values (pair_frame kfit dfit) k <> [] ->
  exists v,
    imputer_agg imp0 (group_values (pair_frame kfit dfit) k) = OK v /\
    isna v = false /\
    cell_at x' d i = Some v.
Proof.
  intros Hcat Hfit Hps Hlast Hkfit Hdfit Htr H1 Hks Hk Hc1 Hgroup.
  assert (Hkeys : forall z, imputer_keys imp z = OK getitem).
  { intros z. destruct imp0 as [a|a|a|a]; try discriminate Hcat; simpl in Hfit;
      apply bind_OK in Hfit as (self & _ & Hfit); injection Hfit as <-; reflexivity. }
  destruct (fitted_entry _ _ xfit ps1 ps2 s d getitem kfit dfit k Hfit Hps Hlast
              (Hkeys xfit)) as (Hsd & Hkna & tbl & e & Hlook & He & Hagg & Hv);
    [apply getitem_OK, Hkfit | exact Hdfit | exact Hgroup |].
  exists e.2. split; [exact Hagg|]. split; [exact Hv|].
  destruct (imputer_fit_OK _ _ _ Hfit) as (Hsrc & Hdst & _).
  rewrite (imputer_transform_eq imp x _ _ Hsrc Hdst), (Hkeys x), zip_map_fst_snd in Htr.
  cbn [mbind result_bind] in Htr.
  rewrite Hps, for_each_app, H1 in Htr. cbn [mbind result_bind] in Htr.
  apply (pair_then_rest_cell getitem (imputer_dict imp) s d ps2 tbl ks k e i y1 x'); try assumption.
  - intros y z c E. unfold getitem. rewrite E. reflexivity.
  - apply getitem_OK, Hks.
Qed.

(** [forward_imputer] on [chain_frame]: the pair [("a", "b")] fills [b]
    with "u", and the pair [("b", "c")] reads "u" and fills [c] with
    "p". *)
Lemma categorical_chain_witness :
  exists v,
    mode (group_values (pair_frame [Str "u"; Str "u"] [Str "p"; Str "p"]) (Str "u"))
      = OK v /\
    isna v = false /\
    cell_at (transformed (imputer_transform forward_imputer chain_frame)) "c" 0
      = Some v.
Proof.
  apply (categorical_pair_reads_filled_source
           (CatAndCat (CatAndCatImputer.init [("a", "b"); ("b", "c")]))
           forward_imputer chain_fit_frame chain_frame
           (<["b" := [Str "u"]]> chain_frame)
           (transformed (imputer_transform forward_imputer chain_frame))
           [("a", "b")] [] "b" "c" [Str "u"; Str "u"] [Str "p"; Str "p"]
           [Str "u"] (Str "u") 0).
  - reflexivity.
  - vm_compute. reflexivity.
  - reflexivity.
  - intros p Hp. inversion Hp.
  - reflexivity.
  - reflexivity.
  - vm_compute. reflexivity.
  - vm_compute. reflexivity.
  - reflexivity.
  - reflexivity.
  - reflexivity.
  - vm_compute. discriminate.
Defined.

(** ** What a fitted table holds *)












Lemma ascending_lookup {A : Type} (lt : A -> A -> Prop) (l : list A) i j a b :
  ascending lt l -> l !! i = Some a -> l !! j = Some b -> i < j -> lt a b.
Proof.
  revert i j. induction l as [|h l IH]; intros i j Hasc Hi Hj Hlt; [discriminate Hi|].
  destruct Hasc as [Hh Hasc]. destruct j as [|j]; [lia|]. simpl in Hj.
  destruct i as [|i]; simpl in Hi.
  - injection Hi as <-. rewrite Forall_forall in Hh. apply Hh.
    apply list_elem_of_lookup. eauto.
  - apply (IH i j); [assumption..|lia].
Qed.




(** ** When transform returns, and when it raises *)






(** *** A frame that lacks a column *)

Lemma getitem_raises (z : DataFrame) s err :
  getitem z s = Raise err -> err = KeyError.
Proof. unfold getitem. destruct (z !! s); congruence. Qed.

Lemma map_result_getitem_absent (x : DataFrame) (l : list string) (s : string) :
  s ∈ l -> x !! s = None -> map_result (getitem x) l = Raise KeyError.
Proof.
  intros Hin Hs. induction l as [|a l IH]; [inversion Hin|]. simpl.
  destruct (getitem x a) as [c|e] eqn:Ha; simpl.
  - apply getitem_OK in Ha.
    apply elem_of_cons in Hin as [->|Hin]; [congruence|].
    rewrite (IH Hin). reflexivity.
  - apply getitem_raises in Ha. subst e. reflexivity.
Qed.

Lemma impute_entry_raises keys p e (y : DataFrame) err :
  (forall z s err', keys z s = Raise err' -> err' = KeyError) ->
  impute_entry keys p e y = Raise err -> err = KeyError.
Proof.
  intros Hk. unfold impute_entry.
  destruct (keys y p.1) as [ks|e1] eqn:E1; simpl.
  - unfold getitem. destruct (y !! p.2); simpl; intros H; congruence.
  - intros H. injection H as <-. eapply Hk; exact E1.
Qed.

Lemma for_each_raises_only {A S : Type} (body : A -> S -> result S) (err0 : exn)
  (l : list A) :
  (forall a s err, body a s = Raise err -> err = err0) ->
  forall s err, for_each body l s = Raise err -> err = err0.
Proof.
  intros Hb. induction l as [|a l IH]; intros s err H; simpl in H; [discriminate H|].
  destruct (body a s) as [s'|e] eqn:E; simpl in H.
  - eapply IH; exact H.
  - injection H as <-. eapply Hb; exact E.
Qed.

Lemma impute_pair_raises keys dict p (y : DataFrame) err :
  (forall z s err', keys z s = Raise err' -> err' = KeyError) ->
  impute_pair keys dict p y = Raise err -> err = KeyError.
Proof.
  intros Hk. unfold impute_pair, lookup_key.
  destruct (dict !! pair_key p) as [tbl|]; simpl; [|congruence].
  apply for_each_raises_only. intros e s err'. apply impute_entry_raises, Hk.
Qed.

(** transform on a frame that lacks a column.  With a numeric source, a
    missing source column is a [KeyError] at entry, whatever the tables.
    With a categorical source, a pair whose table has an entry raises
    [KeyError] when its source or its destination column is missing. *)
Theorem group_transform_absent_column :
  (forall (self : NumSource.t) (x : DataFrame) src s,
     NumSource.src_cols self = Some src -> s ∈ src -> x !! s = None ->
     NumSource.transform self x = Raise KeyError) /\
  (forall (self : CatSource.t) (x : DataFrame) src dst s d e tbl,
     CatSource.src_cols self = Some src -> CatSource.dest_cols self = Some dst ->
     (s, d) ∈ zip src dst ->
     CatSource.impute_value_dict self !! pair_key (s, d) = Some (e :: tbl) ->
     x !! s = None \/ x !! d = None ->
     CatSource.transform self x = Raise KeyError).
Proof.
  split.
  - intros self x src s Hsrc Hs Hx. unfold NumSource.transform. rewrite Hsrc.
    unfold NumSource.binned_frame, NumSource.source_features.
    rewrite (map_result_getitem_absent x src s Hs Hx). reflexivity.
  - intros self x src dst s d e tbl Hsrc Hdst Hp Htbl Habs.
    unfold CatSource.transform. rewrite Hsrc, Hdst.
    apply list_elem_of_split in Hp as (l1 & l2 & ->).
    rewrite for_each_app.
    destruct (for_each (impute_pair getitem (CatSource.impute_value_dict self)) l1 x)
      as [y|err] eqn:H1; cbn [mbind result_bind].
    + pose proof (impute_pairs_fills _ _ _ _ _ H1) as F.
      assert (Hy : y !! s = None \/ y !! d = None).
      { destruct Habs as [K|K]; [left | right].
        - specialize (F s). rewrite K in F. inversion F. reflexivity.
        - specialize (F d). rewrite K in F. inversion F. reflexivity. }
      assert (Hstep : impute_pair getitem (CatSource.impute_value_dict self) (s, d) y
                      = Raise KeyError).
      { assert (He : impute_entry getitem (s, d) e y = Raise KeyError).
        { unfold impute_entry, getitem. simpl.
          destruct (y !! s) as [cs|]; simpl; [|reflexivity].
          destruct Hy as [K|K]; [discriminate K|]. rewrite K. reflexivity. }
        unfold impute_pair, lookup_key. rewrite Htbl.
        cbn [mbind result_bind for_each]. rewrite He. reflexivity. }
      simpl. rewrite Hstep. reflexivity.
    + f_equal. revert H1. apply for_each_raises_only.
      intros p y err'. apply impute_pair_raises. intros z s' e'. apply getitem_raises.
Qed.

(** [mode_imputer] has a table with entries for [("city", "gender")]. *)
Lemma group_transform_absent_witness :
  NumSource.transform num_imputer city_only_frame = Raise KeyError /\
  imputer_transform mode_imputer city_only_frame = Raise KeyError.
Proof.
  destruct group_transform_absent_column as (H1 & H2). split.
  - apply (H1 num_imputer city_only_frame ["s1"; "s2"] "s1").
    + vm_compute. reflexivity.
    + apply list_elem_of_here.
    + reflexivity.
  - apply (H2 (fitted_cat (CatAndCatImputer.fit
                             (CatAndCatImputer.init [("city", "gender")]) mode_frame))
              city_only_frame ["city"] ["gender"] "city" "gender"
              (Str "u", Str "F") [(Str "v", Str "M")]).
    + vm_compute. reflexivity.
    + vm_compute. reflexivity.
    + apply list_elem_of_here.
    + vm_compute. reflexivity.
    + right. reflexivity.
Defined.

(** *** Nothing to learn *)

Lemma pair_frame_no_destination (ks dstc : column) :
  Forall (fun a => isna a = true) dstc -> pair_frame ks dstc = [].
Proof.
  intros Hall. unfold pair_frame.
  destruct (filter _ (zip ks dstc)) as [|r l] eqn:E; [reflexivity|].
  assert (K : r ∈ filter (fun r : cell * cell =>
                 negb (isna r.1) && negb (isna r.2) = true) (zip ks dstc))
    by (rewrite E; apply list_elem_of_here).
  apply list_elem_of_filter in K as [Hp K]. destruct r as [a b].
  apply elem_of_zip_r in K. rewrite Forall_forall in Hall.
  simpl in Hp. rewrite (Hall b K), andb_false_r in Hp. discriminate Hp.
Qed.

Lemma fit_pairs_empty agg keys (x : DataFrame) ps :
  (forall p c, p ∈ ps -> x !! p.2 = Some c -> Forall (fun a => isna a = true) c) ->
  forall dict dict', for_each (fit_pair agg keys x) ps dict = OK dict' ->
    forall k, dict !! k = Some [] \/ k ∈ map pair_key ps -> dict' !! k = Some [].
Proof.
  induction ps as [|p ps IH]; intros Hall dict dict' H k Hk; simpl in H.
  - injection H as <-. destruct Hk as [Hk|Hk]; [exact Hk | inversion Hk].
  - apply bind_OK in H as (d1 & Hstep & H).
    apply fit_pair_OK in Hstep as (tbl & Htbl & ->).
    unfold pair_table in Htbl. apply bind_OK in Htbl as (ks & _ & Htbl).
    apply bind_OK in Htbl as (c & Hc & Htbl). apply getitem_OK in Hc.
    rewrite (pair_frame_no_destination ks c) in Htbl
      by (apply (Hall p c); [apply list_elem_of_here | exact Hc]).
    injection Htbl as <-.
    apply (IH (fun q c' Hq => Hall q c' (list_elem_of_further _ _ _ Hq)) _ _ H).
    destruct (decide (pair_key p = k)) as [<-|Hne].
    + left. apply lookup_insert_eq.
    + rewrite lookup_insert_ne by exact Hne.
      destruct Hk as [Hk|Hk]; [auto|].
      simpl in Hk. apply elem_of_cons in Hk as [->|Hk]; [contradiction Hne; reflexivity|].
      auto.
Qed.

(** Fitted on a frame in which no destination column has a value, an
    imputer has an empty table for every pair, and transform returns any
    frame as it is, without looking at its destination columns (nor, for a
    categorical source, at its source columns). *)
Theorem nothing_to_learn_changes_nothing (imp0 imp : group_imputer)
  (xfit x : DataFrame) keys :
  imputer_fit imp0 xfit = OK imp ->
  (forall p c, p ∈ imputer_column_pairs imp0 -> xfit !! p.2 = Some c ->
     Forall (fun a => isna a = true) c) ->
  imputer_keys imp x = OK keys ->
  (forall p, p ∈ imputer_column_pairs imp0 ->
     imputer_dict imp !! pair_key p = Some []) /\
  imputer_transform imp x = OK x.
Proof.
  intros Hfit Hall Hkeys.
  destruct (imputer_fit_OK _ _ _ Hfit) as (Hsrc & Hdst & _ & kf & _ & Hdict).
  assert (Hempty : forall p, p ∈ imputer_column_pairs imp0 ->
            imputer_dict imp !! pair_key p = Some []).
  { intros p Hp. eapply fit_pairs_empty; [exact Hall | exact Hdict|].
    right. apply elem_of_map, Hp. }
  split; [exact Hempty|].
  rewrite (imputer_transform_eq imp x _ _ Hsrc Hdst), Hkeys, zip_map_fst_snd.
  cbn [mbind result_bind]. apply for_each_all_fixed. apply Forall_forall.
  intros p Hp. unfold impute_pair, lookup_key. rewrite (Hempty p Hp). reflexivity.
Qed.

(** Fitted on [unknown_frame], the imputer returns the frame with the one
    column [city] as it is. *)
Lemma nothing_to_learn_witness :
  (forall p, p ∈ [("city", "gender")] ->
     imputer_dict unknown_imputer !! pair_key p = Some []) /\
  imputer_transform unknown_imputer city_only_frame = OK city_only_frame.
Proof.
  apply (nothing_to_learn_changes_nothing
           (CatAndCat (CatAndCatImputer.init [("city", "gender")])) unknown_imputer
           unknown_frame city_only_frame getitem).
  - vm_compute. reflexivity.
  - intros p c Hp Hc. simpl in Hp. apply list_elem_of_singleton in Hp. subst p.
    vm_compute in Hc. injection Hc as <-. repeat constructor.
  - reflexivity.
Defined.

(** ** The bounds fit computes are in order *)

Lemma insert_sorted_ascending (q : Q) (l : list Q) :
  ascending Qle l -> ascending Qle (insert_sorted q l).
Proof.
  induction l as [|p l IH]; intros Hasc; simpl.
  - split; [constructor | exact I].
  - destruct Hasc as [Hp Hasc]. destruct (Qle_bool q p) eqn:E.
    + q_props. split; [|split; assumption].
      constructor; [exact E|].
      eapply Forall_impl; [exact Hp|]. intros r Hr. simpl in Hr. lra.
    + q_props. split; [|apply IH, Hasc].
      apply insert_sorted_Forall; [lra | exact Hp].
Qed.

Lemma sort_Q_ascending (l : list Q) : ascending Qle (sort_Q l).
Proof.
  unfold sort_Q. induction l as [|q l IH]; simpl; [exact I|].
  apply insert_sorted_ascending, IH.
Qed.

Lemma nth_Q_ascending (s : list Q) (i j : nat) :
  ascending Qle s -> i <= j -> j < length s -> (nth_Q s i <= nth_Q s j)%Q.
Proof.
  intros Hasc Hij Hj. unfold nth_Q. rewrite !nth_lookup.
  destruct (lookup_lt_is_Some_2 s j Hj) as [b Hb].
  destruct (lookup_lt_is_Some_2 s i ltac:(lia)) as [a Ha].
  rewrite Ha, Hb. simpl.
  destruct (decide (i = j)) as [->|Hne].
  - rewrite Ha in Hb. injection Hb as <-. lra.
  - apply (ascending_lookup Qle s i j a b Hasc Ha Hb). lia.
Qed.

Section Interpolate.
Variable s : list Q.
Variable m : nat.
Hypothesis s_ascending : ascending Qle s.
Hypothesis s_length : length s = S m.

Lemma interpolate_floor (q : Q) :
  (0 <= q)%Q -> (q <= 1)%Q ->
  let pos := (q * inject_Z (Z.of_nat m))%Q in
  (0 <= Qfloor pos)%Z /\ (Qfloor pos <= Z.of_nat m)%Z /\
  (0 <= pos - inject_Z (Qfloor pos))%Q /\ (pos - inject_Z (Qfloor pos) <= 1)%Q.
Proof.
  intros H0 H1 pos.
  assert (Hm : (0 <= inject_Z (Z.of_nat m))%Q).
  { change 0%Q with (inject_Z 0). rewrite <- Zle_Qle. lia. }
  assert (Hp0 : (0 <= pos)%Q) by (unfold pos; nra).
  assert (Hp1 : (pos <= inject_Z (Z.of_nat m))%Q) by (unfold pos; nra).
  split; [|split; [|split]].
  - apply Qfloor_resp_le in Hp0. change 0%Q with (inject_Z 0) in Hp0.
    rewrite Qfloor_Z in Hp0. exact Hp0.
  - apply Qfloor_resp_le in Hp1. rewrite Qfloor_Z in Hp1. exact Hp1.
  - pose proof (Qfloor_le pos). lra.
  - pose proof (Qlt_floor pos) as K. rewrite inject_Z_plus in K.
    change (inject_Z 1) with 1%Q in K. lra.
Qed.

(** The interpolated value lies between the two order statistics around
    it. *)
Lemma interpolate_between (q : Q) :
  (0 <= q)%Q -> (q <= 1)%Q ->
  let lo := Z.to_nat (Qfloor (q * inject_Z (Z.of_nat m))) in
  (nth_Q s lo <= interpolate s m q)%Q /\
  (interpolate s m q <= nth_Q s (Nat.min (S lo) m))%Q.
Proof.
  intros H0 H1 lo.
  destruct (interpolate_floor q H0 H1) as (F0 & F1 & Fr0 & Fr1).
  assert (Hab : (nth_Q s lo <= nth_Q s (Nat.min (S lo) m))%Q).
  { apply nth_Q_ascending; [exact s_ascending | unfold lo; lia | lia]. }
  unfold interpolate. fold lo. rewrite Qred_correct.
  set (a := nth_Q s lo) in *. set (b := nth_Q s (Nat.min (S lo) m)) in *.
  set (f := (q * inject_Z (Z.of_nat m) - inject_Z (Qfloor (q * inject_Z (Z.of_nat m))))%Q) in *.
  split; nra.
Qed.

Lemma interpolate_monotone (q q' : Q) :
  (0 <= q)%Q -> (q <= q')%Q -> (q' <= 1)%Q ->
  (interpolate s m q <= interpolate s m q')%Q.
Proof.
  intros H0 Hqq H1.
  assert (Hm : (0 <= inject_Z (Z.of_nat m))%Q).
  { change 0%Q with (inject_Z 0). rewrite <- Zle_Qle. lia. }
  assert (Hpos : (q * inject_Z (Z.of_nat m) <= q' * inject_Z (Z.of_nat m))%Q) by nra.
  destruct (interpolate_floor q H0 ltac:(lra)) as (F0 & F1 & Fr0 & Fr1).
  destruct (interpolate_floor q' ltac:(lra) H1) as (F0' & F1' & Fr0' & Fr1').
  pose proof (Qfloor_resp_le _ _ Hpos) as Hfl.
  destruct (interpolate_between q H0 ltac:(lra)) as [La Lb].
  destruct (interpolate_between q' ltac:(lra) H1) as [La' Lb'].
  destruct (Z.eq_dec (Qfloor (q * inject_Z (Z.of_nat m)))
                     (Qfloor (q' * inject_Z (Z.of_nat m)))) as [E|Hne].
  - unfold interpolate. rewrite !Qred_correct. rewrite <- E.
    assert (Hab : (nth_Q s (Z.to_nat (Qfloor (q * inject_Z (Z.of_nat m))))
                   <= nth_Q s (Nat.min (S (Z.to_nat (Qfloor (q * inject_Z (Z.of_nat m))))) m))%Q).
    { apply nth_Q_ascending; [exact s_ascending | lia | lia]. }
    rewrite <- E in Fr0', Fr1'.
    set (a := nth_Q s _) in *. set (b := nth_Q s _) in *.
    set (z := inject_Z _) in *. nra.
  - assert (Hstep : S (Z.to_nat (Qfloor (q * inject_Z (Z.of_nat m))))
                    <= Z.to_nat (Qfloor (q' * inject_Z (Z.of_nat m)))) by lia.
    assert (Hmid : (nth_Q s (Nat.min (S (Z.to_nat (Qfloor (q * inject_Z (Z.of_nat m))))) m)
                    <= nth_Q s (Z.to_nat (Qfloor (q' * inject_Z (Z.of_nat m)))))%Q).
    { apply nth_Q_ascending; [exact s_ascending | lia | lia]. }
    lra.
Qed.
End Interpolate.

Lemma numeric_values_elem (c : column) (qs : list Q) (q : Q) :
  numeric_values c = OK qs -> Num q ∈ c -> qs <> [].
Proof.
  revert qs. induction c as [|a c IH]; intros qs H Hin; [inversion Hin|].
  destruct a as [|p|t]; simpl in H; [| |discriminate H].
  - apply elem_of_cons in Hin as [Hin|Hin]; [discriminate Hin|]. eapply IH; eassumption.
  - apply bind_OK in H as (qs' & _ & H). injection H as <-. discriminate.
Qed.

(** Two quantiles of a column with a number are numbers, in the order of
    their levels. *)
Lemma quantile_monotone (c : column) (q q' p : Q) (a b : cell) :
  Num p ∈ c -> (q <= q')%Q ->
  quantile c (Num q) = OK a -> quantile c (Num q') = OK b ->
  exists lo hi, a = Num lo /\ b = Num hi /\ (lo <= hi)%Q.
Proof.
  intros Hin Hqq. unfold quantile.
  destruct (Qle_bool 0 q && Qle_bool q 1) eqn:E1; [|discriminate].
  destruct (Qle_bool 0 q' && Qle_bool q' 1) eqn:E2; [|discriminate].
  apply andb_true_iff in E1 as [A0 A1]. apply andb_true_iff in E2 as [B0 B1].
  q_props.
  destruct (numeric_values c) as [qs|e] eqn:Hqs; simpl; [|discriminate].
  pose proof (numeric_values_elem c qs p Hqs Hin) as Hne.
  pose proof (sort_Q_length qs) as Hlen.
  destruct (length (sort_Q qs)) as [|m] eqn:El.
  { destruct qs; [contradiction Hne; reflexivity | discriminate Hlen]. }
  intros Ha Hb. injection Ha as <-. injection Hb as <-.
  eexists _, _. split; [reflexivity|]. split; [reflexivity|].
  apply interpolate_monotone; try assumption. apply sort_Q_ascending.
Qed.

Lemma lift2_num (f : Q -> Q -> Q) (a b : Q) (r : cell) :
  lift2 f (Num a) (Num b) = OK r -> r = Num (Qred (f a b)).
Proof. simpl. intros H. injection H as <-. reflexivity. Qed.

Lemma find_iqr_bounds_ordered (c : column) (p : Q) (bounds : pyval) :
  Num p ∈ c -> OutlierHandler.find_iqr_bounds c = OK bounds ->
  exists lo hi, bounds = PyList [Num lo; Num hi] /\ (lo <= hi)%Q.
Proof.
  intros Hin H. unfold OutlierHandler.find_iqr_bounds in H.
  apply bind_OK in H as (q1 & H1 & H). apply bind_OK in H as (q3 & H3 & H).
  destruct (quantile_monotone c (1 # 4) (3 # 4) p q1 q3 Hin ltac:(lra) H1 H3)
    as (a & b & -> & -> & Hab).
  apply bind_OK in H as (iqr & Hi & H). apply lift2_num in Hi. subst iqr.
  apply bind_OK in H as (w & Hw & H). apply lift2_num in Hw. subst w.
  apply bind_OK in H as (lo & Hlo & H). apply lift2_num in Hlo. subst lo.
  apply bind_OK in H as (hi & Hhi & H). apply lift2_num in Hhi. subst hi.
  injection H as <-. eexists _, _. split; [reflexivity|].
  rewrite !Qred_correct. lra.
Qed.

Lemma find_quantile_bounds_ordered (c : column) (p ql qh : Q) rest
  (bounds : pyval) :
  Num p ∈ c -> (ql <= qh)%Q ->
  OutlierHandler.find_quantile_bounds c (PyList (Num ql :: Num qh :: rest))
    = OK bounds ->
  exists lo hi, bounds = PyList [Num lo; Num hi] /\ (lo <= hi)%Q.
Proof.
  intros Hin Hq H. unfold OutlierHandler.find_quantile_bounds in H. simpl in H.
  apply bind_OK in H as (a & Ha & H). apply bind_OK in H as (b & Hb & H).
  injection H as <-.
  destruct (quantile_monotone c ql qh p a b Hin Hq Ha Hb) as (lo & hi & -> & -> & Hle).
  eauto.
Qed.

Lemma outlier_fit_col_other (x : DataFrame) e col (s s' : OutlierHandler.t) :
  e.1 <> col -> OutlierHandler.fit_col x e s = OK s' ->
  OutlierHandler.outlier_bounds s' !! col = OutlierHandler.outlier_bounds s !! col.
Proof.
  intros Hne H. unfold OutlierHandler.fit_col in H.
  apply bind_OK in H as (m & _ & H).
  destruct (is_str m "quantile"); [|destruct (is_str m "values")];
    inv_result; simpl; apply lookup_insert_ne; exact Hne.
Qed.

(** What fit leaves for a column is what the loop stored at the last entry
    of the column; [strategies] is as it was. *)
Lemma outlier_fit_col_strategies (x : DataFrame) e (s s' : OutlierHandler.t) :
  OutlierHandler.fit_col x e s = OK s' ->
  OutlierHandler.strategies s' = OutlierHandler.strategies s.
Proof.
  unfold OutlierHandler.fit_col. intros H. apply bind_OK in H as (m & _ & H).
  destruct (is_str m "quantile"); [|destruct (is_str m "values")];
    inv_result; reflexivity.
Qed.

Lemma outlier_fit_col_fill_other (x : DataFrame) e col (s s' : OutlierHandler.t) :
  e.1 <> col -> OutlierHandler.fit_col x e s = OK s' ->
  OutlierHandler.fill_values s' !! col = OutlierHandler.fill_values s !! col.
Proof.
  intros Hne H. unfold OutlierHandler.fit_col in H.
  apply bind_OK in H as (m & _ & H).
  destruct (is_str m "quantile"); [|destruct (is_str m "values")];
    inv_result; simpl; apply lookup_insert_ne; exact Hne.
Qed.

Lemma outlier_fit_last (self0 self : OutlierHandler.t) (x : DataFrame)
  l1 col strategy l2 :
  OutlierHandler.fit self0 x = OK self ->
  OutlierHandler.strategies self0 = (l1 ++ (col, strategy) :: l2)%list ->
  (forall e, e ∈ l2 -> e.1 <> col) ->
  OutlierHandler.strategies self = OutlierHandler.strategies self0 /\
  exists s1 s2,
    OutlierHandler.fit_col x (col, strategy) s1 = OK s2 /\
    OutlierHandler.outlier_bounds self !! col
      = OutlierHandler.outlier_bounds s2 !! col /\
    OutlierHandler.fill_values self !! col = OutlierHandler.fill_values s2 !! col.
Proof.
  intros Hfit E Hlast. unfold OutlierHandler.fit in Hfit. split.
  - revert Hfit.
    apply for_each_invariant with
      (P := fun s => OutlierHandler.strategies s = OutlierHandler.strategies self0);
      [|reflexivity].
    intros e s s' _ Hs Hstep. rewrite <- Hs.
    eapply outlier_fit_col_strategies; exact Hstep.
  - rewrite E, for_each_app in Hfit. apply bind_OK in Hfit as (s1 & _ & Hfit).
    simpl in Hfit. apply bind_OK in Hfit as (s2 & Hstep & Hrest).
    exists s1, s2. split; [exact Hstep|]. revert Hrest.
    apply for_each_invariant with
      (P := fun s => OutlierHandler.outlier_bounds s !! col
                       = OutlierHandler.outlier_bounds s2 !! col /\
                     OutlierHandler.fill_values s !! col
                       = OutlierHandler.fill_values s2 !! col); [|auto].
    intros e s s' He [Hb Hf] Hs'. rewrite <- Hb, <- Hf. split.
    + eapply outlier_fit_col_other; [apply Hlast, He | exact Hs'].
    + eapply outlier_fit_col_fill_other; [apply Hlast, He | exact Hs'].
Qed.

(** One step of fit for a strategy whose bounds are computed: two numbers
    in order, and the disposition of the strategy. *)
Lemma fit_col_computed_bounds (x : DataFrame) col strategy (c : column) (p : Q)
  (s1 s2 : OutlierHandler.t) :
  computed_bounds strategy -> x !! col = Some c -> Num p ∈ c ->
  OutlierHandler.fit_col x (col, strategy) s1 = OK s2 ->
  exists lo hi fill,
    OutlierHandler.outlier_bounds s2 !! col = Some (PyList [Num lo; Num hi]) /\
    OutlierHandler.fill_values s2 !! col = Some fill /\ (lo <= hi)%Q.
Proof.
  intros Hcb Hc Hin Hstep.
  unfold OutlierHandler.fit_col in Hstep. simpl in Hstep.
  destruct strategy as [|m rest]; [contradiction Hcb|]. simpl in Hstep, Hcb.
  destruct (is_str m "quantile").
  - destruct rest as [|[a|[|[|ql|t] [|[|qh|t'] more]]] rest];
      try (exfalso; exact Hcb).
    simpl in Hstep. unfold getitem in Hstep. rewrite Hc in Hstep. simpl in Hstep.
    apply bind_OK in Hstep as (bounds & Hbounds & Hstep).
    apply bind_OK in Hstep as (f & _ & Hstep). injection Hstep as <-. simpl.
    destruct (find_quantile_bounds_ordered c p ql qh more bounds Hin Hcb Hbounds)
      as (lo & hi & -> & Hle).
    exists lo, hi, f. rewrite !lookup_insert_eq. auto.
  - rewrite Hcb in Hstep. unfold getitem in Hstep. rewrite Hc in Hstep.
    simpl in Hstep.
    apply bind_OK in Hstep as (bounds & Hbounds & Hstep).
    apply bind_OK in Hstep as (f & _ & Hstep). injection Hstep as <-. simpl.
    destruct (find_iqr_bounds_ordered c p bounds Hin Hbounds) as (lo & hi & -> & Hle).
    exists lo, hi, f. rewrite !lookup_insert_eq. auto.
Qed.

(** The bounds fit computes from a column with at least one number, by
    the quantiles [ql <= qh] or by the IQR rule, are two numbers with the
    lower one not above the upper one. *)
Theorem computed_bounds_are_ordered (self0 self : OutlierHandler.t)
  (x : DataFrame) l1 col strategy l2 (c : column) (p : Q) :
  OutlierHandler.fit self0 x = OK self ->
  OutlierHandler.strategies self0 = (l1 ++ (col, strategy) :: l2)%list ->
  (forall e, e ∈ l2 -> e.1 <> col) ->
  computed_bounds strategy ->
  x !! col = Some c -> Num p ∈ c ->
  exists lo hi,
    OutlierHandler.outlier_bounds self !! col = Some (PyList [Num lo; Num hi]) /\
    (lo <= hi)%Q.
Proof.
  intros Hfit E Hlast Hcb Hc Hin.
  destruct (outlier_fit_last _ _ _ _ _ _ _ Hfit E Hlast)
    as (_ & s1 & s2 & Hstep & Hb & _).
  destruct (fit_col_computed_bounds _ _ _ _ _ _ _ Hcb Hc Hin Hstep)
    as (lo & hi & fill & Hb2 & _ & Hle).
  exists lo, hi. split; [|exact Hle]. rewrite Hb. exact Hb2.
Qed.

(** The notebook: the IQR rule on the column [c]. *)
Lemma computed_bounds_witness :
  exists lo hi,
    OutlierHandler.outlier_bounds outlier_handler !! "c"
      = Some (PyList [Num lo; Num hi]) /\
    (lo <= hi)%Q.
Proof.
  apply (computed_bounds_are_ordered (OutlierHandler.init outlier_strategies)
           outlier_handler outlier_frame
           [("a", quantile_na);
            ("b", [Atom (Str "values"); PyList [num 0; num 200]; Atom (Str "clip")])]
           "c" [Atom (Str "iqr"); Atom (Str "clip")] []
           [num 540; num 10; num 59; num 2] 540).
  - vm_compute. reflexivity.
  - reflexivity.
  - intros e He. inversion He.
  - reflexivity.
  - reflexivity.
  - apply list_elem_of_here.
Defined.

(** ** The outlier handler and the missing marker *)

Lemma handle_cell_missing (lo hi : cell) (na : bool) (b : cell) :
  handle_cell lo hi na NaN = OK b -> b = NaN.
Proof.
  unfold handle_cell, below_cell, above_cell, cell_lt.
  destruct lo as [|l|sl], hi as [|h|sh], na; simpl; intros H;
    try discriminate H; injection H as <-; reflexivity.
Qed.

Lemma handle_cell_clip_present (lo hi a b : cell) :
  handle_cell lo hi false a = OK b -> isna a = false -> isna b = false.
Proof.
  unfold handle_cell, below_cell, above_cell, cell_lt.
  destruct a as [|q|s], lo as [|l|sl], hi as [|h|sh]; simpl;
    try discriminate; q_cases; intros H; try discriminate H;
    injection H as <-; reflexivity.
Qed.

Lemma handle_column_lookup self col (c c' : column) (i : nat) (a : cell) :
  handle_column self col c = OK c' -> c !! i = Some a ->
  exists lo hi fill b,
    OutlierHandler.fill_values self !! col = Some fill /\
    handle_cell lo hi (is_str fill "na") a = OK b /\ c' !! i = Some b.
Proof.
  unfold handle_column. intros H Ha.
  apply bind_OK in H as (bounds & _ & H). apply bind_OK in H as (lo & _ & H).
  apply bind_OK in H as (hi & _ & H). apply bind_OK in H as (fill & Hf & H).
  apply lookup_key_OK in Hf. apply map_result_OK in H.
  destruct (Forall2_lookup_l _ _ _ _ _ H Ha) as (b & Hb & Hab).
  exists lo, hi, fill, b. auto.
Qed.

Lemma outlier_transform_missing (self : OutlierHandler.t) (x x' : DataFrame)
  (col : string) (i : nat) :
  OutlierHandler.transform self x = OK x' ->
  cell_at x col i = Some NaN -> cell_at x' col i = Some NaN.
Proof.
  intros H Ha. unfold OutlierHandler.transform in H. revert H.
  apply for_each_invariant with (P := fun y => cell_at y col i = Some NaN);
    [|exact Ha].
  intros e y y' _ Hy Hstep.
  apply outlier_transform_col_OK in Hstep as (m & c & c' & _ & Hc & Hh & ->).
  destruct (decide (e.1 = col)) as [<-|Hne].
  - rewrite cell_at_insert. unfold cell_at in Hy. rewrite Hc in Hy.
    destruct (handle_column_lookup _ _ _ _ i NaN Hh Hy)
      as (lo & hi & fill & b & _ & Hb & Hi).
    rewrite Hi. f_equal. eapply handle_cell_missing; exact Hb.
  - rewrite cell_at_insert_ne by exact Hne. exact Hy.
Qed.

(** The handler never touches a missing cell, whatever the disposition;
    and in a column whose disposition is not "na" it never makes a present
    cell missing. *)
Theorem outlier_handler_keeps_missingness (self : OutlierHandler.t)
  (x x' : DataFrame) (col : string) (i : nat) (a : cell) :
  OutlierHandler.transform self x = OK x' ->
  cell_at x col i = Some a ->
  (isna a = true -> cell_at x' col i = Some NaN) /\
  (isna a = false ->
   (forall fill, OutlierHandler.fill_values self !! col = Some fill ->
                 is_str fill "na" = false) ->
   exists b, cell_at x' col i = Some b /\ isna b = false).
Proof.
  intros H Ha. split.
  - intros Hna. apply isna_true in Hna. subst a.
    eapply outlier_transform_missing; eassumption.
  - intros Hpres Hclip. unfold OutlierHandler.transform in H. revert H.
    apply for_each_invariant with
      (P := fun y => exists b, cell_at y col i = Some b /\ isna b = false);
      [|eauto].
    intros e y y' _ (b & Hy & Hb) Hstep.
    apply outlier_transform_col_OK in Hstep as (m & c & c' & _ & Hc & Hh & ->).
    destruct (decide (e.1 = col)) as [<-|Hne].
    + rewrite cell_at_insert. unfold cell_at in Hy. rewrite Hc in Hy.
      destruct (handle_column_lookup _ _ _ _ i b Hh Hy)
        as (lo & hi & fill & b' & Hf & Hb' & Hi).
      rewrite (Hclip fill Hf) in Hb'.
      exists b'. split; [exact Hi|]. eapply handle_cell_clip_present; eassumption.
    + rewrite cell_at_insert_ne by exact Hne. eauto.
Qed.

Example clip_notebook :
  exists x', OutlierHandler.transform clip_handler gap_frame = OK x' /\
    x' !! "b" = Some [num 0; NaN; num 200].
Proof. eexists. split; vm_compute; reflexivity. Qed.

(** [gap_frame] under the disposition "clip": the missing cell stays
    missing, and the outlier -5 stays present. *)
Lemma outlier_handler_missingness_witness :
  cell_at (transformed (OutlierHandler.transform clip_handler gap_frame)) "b" 1
    = Some NaN /\
  exists b, cell_at (transformed (OutlierHandler.transform clip_handler gap_frame))
                    "b" 0 = Some b /\ isna b = false.
Proof.
  split.
  - apply (outlier_handler_keeps_missingness clip_handler gap_frame
             (transformed (OutlierHandler.transform clip_handler gap_frame))
             "b" 1 NaN); vm_compute; reflexivity.
  - apply (outlier_handler_keeps_missingness clip_handler gap_frame
             (transformed (OutlierHandler.transform clip_handler gap_frame))
             "b" 0 (num (-5))); try (vm_compute; reflexivity).
    intros fill Hf. vm_compute in Hf. injection Hf as <-. reflexivity.
Defined.

(** ** Fitting again *)

(** A loop whose body adds to the state what it computes without reading
    the state. *)
Section ForEachDelta.
Context {A S : Type} (body : A -> S -> result S) (merge : S -> S -> S) (empty : S).
Hypothesis merge_assoc : forall a b c, merge (merge a b) c = merge a (merge b c).
Hypothesis merge_unit : forall s, merge empty s = s.
Hypothesis body_delta : forall a s,
  body a s = (s1 ← body a empty; OK (merge s1 s)).

Lemma for_each_delta (l : list A) (s : S) :
  for_each body l s = (s1 ← for_each body l empty; OK (merge s1 s)).
Proof.
  revert s. induction l as [|a l IH]; intros s; simpl.
  - rewrite merge_unit. reflexivity.
  - rewrite (body_delta a s). destruct (body a empty) as [s1|e]; simpl; [|reflexivity].
    rewrite (IH (merge s1 s)), (IH s1).
    destruct (for_each body l empty) as [s2|e]; simpl; [|reflexivity].
    rewrite merge_assoc. reflexivity.
Qed.
End ForEachDelta.

(** *** The group imputers *)

Lemma fit_pair_delta agg keys (x : DataFrame) p
  (d : gmap string (list (cell * cell))) :
  fit_pair agg keys x p d = (m ← fit_pair agg keys x p ∅; OK (m ∪ d)).
Proof.
  unfold fit_pair. destruct (keys p.1) as [ks|e]; simpl; [|reflexivity].
  destruct (getitem x p.2) as [c|e]; simpl; [|reflexivity].
  destruct (String.eqb p.1 p.2); [reflexivity|].
  destruct (groupby_agg agg (pair_frame ks c)) as [tbl|e]; simpl; [|reflexivity].
  rewrite insert_empty, <- insert_union_singleton_l. reflexivity.
Qed.

Lemma fit_pairs_delta agg keys (x : DataFrame) ps
  (d : gmap string (list (cell * cell))) :
  for_each (fit_pair agg keys x) ps d
  = (m ← for_each (fit_pair agg keys x) ps ∅; OK (m ∪ d)).
Proof.
  apply for_each_delta.
  - intros a b c. symmetry. apply (assoc_L (∪)).
  - intros s. apply (left_id_L ∅ (∪)).
  - intros p s. apply fit_pair_delta.
Qed.

Lemma fit_pairs_written agg keys (x : DataFrame) ps
  (d0 m : gmap string (list (cell * cell))) (k : string) :
  for_each (fit_pair agg keys x) ps d0 = OK m ->
  m !! k = d0 !! k \/ k ∈ map pair_key ps.
Proof.
  apply for_each_invariant with
    (P := fun d => d !! k = d0 !! k \/ k ∈ map pair_key ps); [|auto].
  intros p d d' Hp Hd Hstep. apply fit_pair_OK in Hstep as (tbl & _ & ->).
  destruct (decide (pair_key p = k)) as [<-|Hne].
  - right. apply elem_of_map, Hp.
  - rewrite lookup_insert_ne by exact Hne. exact Hd.
Qed.

(** The keys fit writes are the lookup keys of the pairs. *)
Lemma fit_pairs_dom agg keys (x : DataFrame) ps
  (m : gmap string (list (cell * cell))) (k : string) :
  for_each (fit_pair agg keys x) ps ∅ = OK m ->
  is_Some (m !! k) <-> k ∈ map pair_key ps.
Proof.
  intros H. split.
  - intros Hk. destruct (fit_pairs_written _ _ _ _ _ _ k H) as [K|K]; [|exact K].
    rewrite K, lookup_empty in Hk. destruct Hk; discriminate.
  - intros Hk. apply list_elem_of_fmap in Hk as (p & -> & Hp).
    eapply fit_pairs_keys; eassumption.
Qed.

Lemma union_absorb {V : Type} (my mx d : gmap string V) :
  (forall k, is_Some (mx !! k) -> is_Some (my !! k)) ->
  my ∪ (mx ∪ d) = my ∪ d.
Proof.
  intros Hdom. apply map_eq. intros k. rewrite !lookup_union.
  destruct (my !! k) as [v|] eqn:Ey.
  - destruct (mx !! k), (d !! k); reflexivity.
  - destruct (mx !! k) as [w|] eqn:Ex; [|destruct (d !! k); reflexivity].
    destruct (Hdom k) as [v Hv]; [eauto|]. congruence.
Qed.

Lemma fit_pairs_again agg keys keys' (x y : DataFrame) ps
  (d d1 : gmap string (list (cell * cell))) :
  for_each (fit_pair agg keys x) ps d = OK d1 ->
  for_each (fit_pair agg keys' y) ps d1 = for_each (fit_pair agg keys' y) ps d.
Proof.
  intros H. rewrite fit_pairs_delta in H. apply bind_OK in H as (mx & Hx & H).
  injection H as <-.
  rewrite (fit_pairs_delta agg keys' y ps (mx ∪ d)), (fit_pairs_delta agg keys' y ps d).
  destruct (for_each (fit_pair agg keys' y) ps ∅) as [my|e] eqn:Hy; simpl; [|reflexivity].
  f_equal. apply union_absorb. intros k Hk.
  apply (fit_pairs_dom _ _ _ _ _ k Hy). apply (fit_pairs_dom _ _ _ _ _ k Hx). exact Hk.
Qed.

Lemma KBinsDiscretizer_fit_again (kb0 kb1 : KBinsDiscretizer) (X Y : list column) :
  KBinsDiscretizer_fit kb0 X = OK kb1 ->
  KBinsDiscretizer_fit kb1 Y = KBinsDiscretizer_fit kb0 Y.
Proof.
  intros H.
  assert (E : kb_n_bins kb1 = kb_n_bins kb0 /\ kb_strategy kb1 = kb_strategy kb0).
  { unfold KBinsDiscretizer_fit in H.
    destruct (kb_n_bins kb0 <? 2)%nat; [discriminate H|].
    destruct (String.eqb (kb_strategy kb0) "kmeans"); [discriminate H|].
    destruct (negb _); [discriminate H|].
    destruct X as [|c X]; [discriminate H|].
    apply bind_OK in H as (edges & _ & H). injection H as <-. split; reflexivity. }
  destruct E as [E1 E2]. unfold KBinsDiscretizer_fit. rewrite E1, E2. reflexivity.
Qed.

Lemma num_fit_again agg (self0 self1 : NumSource.t) (x y : DataFrame) :
  NumSource.fit agg self0 x = OK self1 ->
  NumSource.fit agg self1 y = NumSource.fit agg self0 y.
Proof.
  intros H. unfold NumSource.fit in *.
  apply bind_OK in H as (X & _ & H). apply bind_OK in H as (kb & Hkb & H).
  apply bind_OK in H as (bx & _ & H). apply bind_OK in H as (dict & Hd & H).
  injection H as <-. simpl.
  destruct (NumSource.source_features _ y) as [Y|e]; simpl; [|reflexivity].
  rewrite (KBinsDiscretizer_fit_again _ _ _ Y Hkb).
  destruct (KBinsDiscretizer_fit _ Y) as [kby|e]; simpl; [|reflexivity].
  destruct (NumSource.binned_frame kby _ y) as [by_|e]; simpl; [|reflexivity].
  rewrite (fit_pairs_again _ _ _ _ _ _ _ _ Hd). reflexivity.
Qed.

Lemma cat_fit_again agg (self0 self1 : CatSource.t) (x y : DataFrame) :
  CatSource.fit agg self0 x = OK self1 ->
  CatSource.fit agg self1 y = CatSource.fit agg self0 y.
Proof.
  intros H. unfold CatSource.fit in *.
  apply bind_OK in H as (dict & Hd & H). injection H as <-. simpl.
  rewrite (fit_pairs_again _ _ _ _ _ _ _ _ Hd). reflexivity.
Qed.

(** *** The outlier handler *)

Lemma handler_merge_assoc (a b c : OutlierHandler.t) :
  handler_merge (handler_merge a b) c = handler_merge a (handler_merge b c).
Proof.
  unfold handler_merge. simpl. f_equal; symmetry; apply (assoc_L (∪)).
Qed.

Lemma handler_merge_unit (s : OutlierHandler.t) :
  handler_merge (OutlierHandler.init []) s = s.
Proof.
  destruct s. unfold handler_merge. simpl. f_equal; apply (left_id_L ∅ (∪)).
Qed.

Lemma outlier_fit_col_delta (x : DataFrame) e (s : OutlierHandler.t) :
  OutlierHandler.fit_col x e s
  = (s1 ← OutlierHandler.fit_col x e (OutlierHandler.init []);
     OK (handler_merge s1 s)).
Proof.
  unfold OutlierHandler.fit_col.
  destruct (index e.2 0) as [m|err]; simpl; [|reflexivity].
  assert (Hins : forall (V : Type) (k : string) (v : V) (d : gmap string V),
            <[k := v]> d = <[k := v]> ∅ ∪ d).
  { intros V k v d. rewrite insert_empty, <- insert_union_singleton_l. reflexivity. }
  destruct (is_str m "quantile"); [|destruct (is_str m "values")].
  - destruct (getitem x e.1) as [c|err]; simpl; [|reflexivity].
    destruct (index e.2 1) as [b|err]; simpl; [|reflexivity].
    destruct (OutlierHandler.find_quantile_bounds c b) as [bounds|err]; simpl;
      [|reflexivity].
    destruct (index e.2 2) as [f|err]; simpl; [|reflexivity].
    unfold handler_merge. simpl. rewrite <- !Hins. reflexivity.
  - destruct (index e.2 1) as [bounds|err]; simpl; [|reflexivity].
    destruct (index e.2 2) as [f|err]; simpl; [|reflexivity].
    unfold handler_merge. simpl. rewrite <- !Hins. reflexivity.
  - destruct (getitem x e.1) as [c|err]; simpl; [|reflexivity].
    destruct (OutlierHandler.find_iqr_bounds c) as [bounds|err]; simpl; [|reflexivity].
    destruct (index e.2 1) as [f|err]; simpl; [|reflexivity].
    unfold handler_merge. simpl. rewrite <- !Hins. reflexivity.
Qed.

Lemma outlier_fit_delta (x : DataFrame) l (s : OutlierHandler.t) :
  for_each (OutlierHandler.fit_col x) l s
  = (s1 ← for_each (OutlierHandler.fit_col x) l (OutlierHandler.init []);
     OK (handler_merge s1 s)).
Proof.
  apply for_each_delta.
  - apply handler_merge_assoc.
  - apply handler_merge_unit.
  - intros e t. apply outlier_fit_col_delta.
Qed.

Lemma outlier_fit_col_keys (x : DataFrame) e (s s' : OutlierHandler.t) :
  OutlierHandler.fit_col x e s = OK s' ->
  exists b f,
    OutlierHandler.outlier_bounds s' = <[e.1 := b]> (OutlierHandler.outlier_bounds s) /\
    OutlierHandler.fill_values s' = <[e.1 := f]> (OutlierHandler.fill_values s).
Proof.
  unfold OutlierHandler.fit_col. intros H.
  apply bind_OK in H as (m & _ & H).
  destruct (is_str m "quantile"); [|destruct (is_str m "values")];
    inv_result; simpl; eauto.
Qed.

(** The keys fit writes in both dicts are the keys of [strategies]. *)
Lemma outlier_fit_dom (x : DataFrame) l (s1 : OutlierHandler.t) (k : string) :
  for_each (OutlierHandler.fit_col x) l (OutlierHandler.init []) = OK s1 ->
  (is_Some (OutlierHandler.outlier_bounds s1 !! k) <-> k ∈ map fst l) /\
  (is_Some (OutlierHandler.fill_values s1 !! k) <-> k ∈ map fst l).
Proof.
  intros H.
  assert (Hin : k ∈ map fst l ->
            is_Some (OutlierHandler.outlier_bounds s1 !! k) /\
            is_Some (OutlierHandler.fill_values s1 !! k)).
  { intros Hk. apply list_elem_of_fmap in Hk as (e & -> & He).
    apply list_elem_of_split in He as (l1 & l2 & ->).
    rewrite for_each_app in H. apply bind_OK in H as (t1 & _ & H).
    simpl in H. apply bind_OK in H as (t2 & Hstep & H).
    apply outlier_fit_col_keys in Hstep as (b & f & Eb & Ef).
    revert H.
    apply for_each_invariant with
      (P := fun t => is_Some (OutlierHandler.outlier_bounds t !! e.1) /\
                     is_Some (OutlierHandler.fill_values t !! e.1)).
    - intros e' t t' _ [Hb Hf] Hstep.
      apply outlier_fit_col_keys in Hstep as (b' & f' & -> & ->).
      destruct (decide (e'.1 = e.1)) as [->|Hne].
      + rewrite !lookup_insert_eq. eauto.
      + rewrite !lookup_insert_ne by exact Hne. auto.
    - rewrite Eb, Ef, !lookup_insert_eq. eauto. }
  assert (Hout : k ∉ map fst l ->
            OutlierHandler.outlier_bounds s1 !! k = None /\
            OutlierHandler.fill_values s1 !! k = None).
  { intros Hk. revert H.
    apply for_each_invariant with
      (P := fun t => OutlierHandler.outlier_bounds t !! k = None /\
                     OutlierHandler.fill_values t !! k = None);
      [|split; apply lookup_empty].
    intros e t t' He [Hb Hf] Hstep.
    apply outlier_fit_col_keys in Hstep as (b' & f' & -> & ->).
    assert (e.1 <> k) by (intros <-; apply Hk, elem_of_map, He).
    rewrite !lookup_insert_ne by assumption. auto. }
  destruct (decide (k ∈ map fst l)) as [Hk|Hk].
  - destruct (Hin Hk). split; split; auto.
  - destruct (Hout Hk) as [-> ->]. split; split; intros K; try contradiction;
      destruct K; discriminate.
Qed.

Lemma outlier_fit_again (self0 self1 : OutlierHandler.t) (x y : DataFrame) :
  OutlierHandler.fit self0 x = OK self1 ->
  OutlierHandler.fit self1 y = OutlierHandler.fit self0 y.
Proof.
  unfold OutlierHandler.fit. intros H.
  rewrite outlier_fit_delta in H. apply bind_OK in H as (sx & Hx & H).
  injection H as <-. simpl.
  rewrite (outlier_fit_delta y _ (handler_merge sx self0)),
    (outlier_fit_delta y _ self0).
  destruct (for_each (OutlierHandler.fit_col y) _ (OutlierHandler.init []))
    as [sy|e] eqn:Hy; simpl; [|reflexivity].
  f_equal. unfold handler_merge. simpl. f_equal.
  - apply union_absorb. intros k Hk.
    destruct (outlier_fit_dom y _ sy k Hy) as [Hb _].
    destruct (outlier_fit_dom x _ sx k Hx) as [Hb' _].
    apply Hb, Hb', Hk.
  - apply union_absorb. intros k Hk.
    destruct (outlier_fit_dom y _ sy k Hy) as [_ Hf].
    destruct (outlier_fit_dom x _ sx k Hx) as [_ Hf'].
    apply Hf, Hf', Hk.
Qed.

(** *** The scalar imputer *)

Lemma missing_fit_resolved (x : DataFrame) (l d : list (string * cell)) :
  for_each (MissingImputer.fit_col x) l d
  = (r ← resolved x l; OK (dict_update r d)).
Proof.
  unfold resolved. revert d. induction l as [|e l IH]; intros d; [reflexivity|].
  cbn [for_each map_result].
  assert (Hstep : MissingImputer.fit_col x e d
            = (b ← (c ← getitem x e.1;
                    v ← MissingImputer.resolve e.2 (dropna c); OK (e.1, v));
               OK (dict_set b.1 b.2 d))).
  { unfold MissingImputer.fit_col.
    destruct (getitem x e.1) as [c|err]; simpl; [|reflexivity].
    destruct (MissingImputer.resolve e.2 (dropna c)) as [v|err]; reflexivity. }
  rewrite Hstep.
  destruct (c ← getitem x e.1; v ← MissingImputer.resolve e.2 (dropna c); OK (e.1, v))
    as [b|err]; cbn [mbind result_bind]; [|reflexivity].
  rewrite IH. destruct (map_result _ l) as [r|err]; reflexivity.
Qed.

Lemma resolved_keys (x : DataFrame) (l r : list (string * cell)) :
  resolved x l = OK r -> map fst r = map fst l.
Proof.
  unfold resolved. intros H. apply map_result_OK in H.
  induction H as [|e b l r Hb H IH]; simpl; [reflexivity|].
  apply bind_OK in Hb as (c & _ & Hb). apply bind_OK in Hb as (v & _ & Hb).
  injection Hb as <-. simpl. rewrite IH. reflexivity.
Qed.

Lemma dict_set_keys {V : Type} (k k' : string) (v : V) (d : list (string * V)) :
  k' ∈ map fst d -> k' ∈ map fst (dict_set k v d).
Proof.
  induction d as [|[k0 v0] d IH]; simpl; intros H; [inversion H|].
  destruct (String.eqb k0 k); simpl;
    apply elem_of_cons in H as [->|H];
    try apply list_elem_of_here; apply list_elem_of_further; auto.
Qed.

Lemma dict_set_key {V : Type} (k : string) (v : V) (d : list (string * V)) :
  k ∈ map fst (dict_set k v d).
Proof.
  induction d as [|[k0 v0] d IH]; simpl; [apply list_elem_of_here|].
  destruct (String.eqb k0 k) eqn:E; simpl.
  - apply String.eqb_eq in E. subst k0. apply list_elem_of_here.
  - apply list_elem_of_further, IH.
Qed.

Lemma dict_set_twice {V : Type} (k : string) (v v' : V) (d : list (string * V)) :
  dict_set k v (dict_set k v' d) = dict_set k v d.
Proof.
  induction d as [|[k0 v0] d IH]; simpl.
  - rewrite String.eqb_refl. reflexivity.
  - destruct (String.eqb k0 k) eqn:E; simpl; rewrite E; [reflexivity|].
    rewrite IH. reflexivity.
Qed.

Lemma dict_set_comm {V : Type} (k k' : string) (v v' : V) (d : list (string * V)) :
  k <> k' -> k ∈ map fst d ->
  dict_set k v (dict_set k' v' d) = dict_set k' v' (dict_set k v d).
Proof.
  intros Hne. induction d as [|[k0 v0] d IH]; simpl; intros Hin; [inversion Hin|].
  destruct (String.eqb k0 k') eqn:E'; destruct (String.eqb k0 k) eqn:E; simpl;
    rewrite ?E, ?E'; try reflexivity.
  - apply String.eqb_eq in E, E'. congruence.
  - f_equal. apply IH. apply elem_of_cons in Hin as [->|Hin]; [|exact Hin].
    rewrite String.eqb_refl in E. discriminate.
Qed.

Lemma dict_update_set {V : Type} (k : string) (v : V) (r d : list (string * V)) :
  k ∉ map fst r -> k ∈ map fst d ->
  dict_set k v (dict_update r d) = dict_update r (dict_set k v d).
Proof.
  unfold dict_update. revert d. induction r as [|[k' v'] r IH]; intros d Hk Hd; simpl;
    [reflexivity|].
  simpl in Hk. rewrite IH.
  - f_equal. apply dict_set_comm; [|exact Hd].
    intros ->. apply Hk, list_elem_of_here.
  - intros K. apply Hk, list_elem_of_further, K.
  - apply dict_set_keys, Hd.
Qed.

(** Entries written over entries for the same keys: the first ones are
    forgotten. *)
Lemma dict_update_again {V : Type} (rx ry d : list (string * V)) :
  NoDup (map fst rx) -> map fst ry = map fst rx ->
  dict_update ry (dict_update rx d) = dict_update ry d.
Proof.
  revert ry d. induction rx as [|[k vx] rx IH]; intros ry d Hnd Hk.
  - destruct ry; [reflexivity | discriminate Hk].
  - destruct ry as [|[k' vy] ry]; [discriminate Hk|]. simpl in Hk.
    injection Hk as -> Hk. simpl in Hnd. apply NoDup_cons in Hnd as [Hnk Hnd].
    change (dict_update ((k, vy) :: ry) (dict_update ((k, vx) :: rx) d))
      with (dict_update ry (dict_set k vy (dict_update rx (dict_set k vx d)))).
    rewrite dict_update_set; [|exact Hnk | apply dict_set_key].
    rewrite dict_set_twice, IH by assumption. reflexivity.
Qed.

Lemma missing_fit_again (self0 self1 : MissingImputer.t) (x y : DataFrame) :
  NoDup (map fst (MissingImputer.strategies self0)) ->
  MissingImputer.fit self0 x = OK self1 ->
  MissingImputer.fit self1 y = MissingImputer.fit self0 y.
Proof.
  unfold MissingImputer.fit. intros Hnd H.
  rewrite missing_fit_resolved in H. apply bind_OK in H as (values & H & E).
  apply bind_OK in H as (rx & Hrx & H). injection H as <-. injection E as <-. simpl.
  rewrite !missing_fit_resolved.
  destruct (resolved y _) as [ry|e] eqn:Hry; simpl; [|reflexivity].
  rewrite dict_update_again; [reflexivity | |].
  - rewrite (resolved_keys _ _ _ Hrx). exact Hnd.
  - rewrite (resolved_keys _ _ _ Hrx), (resolved_keys _ _ _ Hry). reflexivity.
Qed.

(** A fit forgets the fit before it.  For every component whose fit on
    [x] returned: fitting the returned state on [y] gives what fitting the
    first state on [y] gives, the same state or the same exception. *)
Theorem refit_forgets_the_first_fit (C C1 : component) (x y : DataFrame) :
  strategies_is_dict C ->
  component_fit C x = OK C1 ->
  component_fit C1 y = component_fit C y.
Proof.
  intros Hwf H. destruct C as [imp|self|self]; simpl in H;
    apply bind_OK in H as (s1 & Hfit & H); injection H as <-; simpl.
  - assert (E : imputer_fit s1 y = imputer_fit imp y); [|rewrite E; reflexivity].
    destruct imp as [self|self|self|self]; simpl in Hfit;
      apply bind_OK in Hfit as (self1 & Hfit & H); injection H as <-; simpl;
      unfold NumAndNumImputer.fit, NumAndCatImputer.fit, CatAndNumImputer.fit,
        CatAndCatImputer.fit in *;
      first [ rewrite (num_fit_again _ _ _ x y Hfit)
            | rewrite (cat_fit_again _ _ _ x y Hfit) ]; reflexivity.
  - rewrite (missing_fit_again _ _ x y Hwf Hfit). reflexivity.
  - rewrite (outlier_fit_again _ _ x y Hfit). reflexivity.
Qed.

(** The scalar imputer of the notebook's strategies, fitted on
    [scalar_frame] and then on [scalar_frame2]. *)
Lemma refit_witness :
  component_fit (ScalarImputer scalar_imputer) scalar_frame2
  = component_fit (ScalarImputer (MissingImputer.init scalar_strategies))
                  scalar_frame2.
Proof.
  apply (refit_forgets_the_first_fit
           (ScalarImputer (MissingImputer.init scalar_strategies))
           (ScalarImputer scalar_imputer) scalar_frame scalar_frame2).
  - apply (bool_decide_unpack _). vm_compute. exact I.
  - vm_compute. reflexivity.
Defined.

(** ** Where the filled values come from *)










(** ** Which strategies read the column at fit *)

(** fit reads the column of a strategy unless its method is "values": on a
    frame without the column, "quantile", "iqr" and every other method
    raise [KeyError] when the loop reaches the column, and "values" stores
    the bounds and the disposition it is given and goes on. *)
Theorem outlier_fit_reads_column_unless_values :
  (forall (self s1 : OutlierHandler.t) (x : DataFrame) l1 col m rest l2,
     OutlierHandler.strategies self = (l1 ++ (col, m :: rest) :: l2)%list ->
     for_each (OutlierHandler.fit_col x) l1 self = OK s1 ->
     is_str m "values" = false -> x !! col = None ->
     OutlierHandler.fit self x = Raise KeyError) /\
  (forall (self s1 : OutlierHandler.t) (x : DataFrame) l1 col m bounds f rest l2,
     OutlierHandler.strategies self
       = (l1 ++ (col, m :: bounds :: f :: rest) :: l2)%list ->
     for_each (OutlierHandler.fit_col x) l1 self = OK s1 ->
     is_str m "values" = true ->
     OutlierHandler.fit self x
     = for_each (OutlierHandler.fit_col x) l2
         {| OutlierHandler.strategies := OutlierHandler.strategies s1;
            OutlierHandler.outlier_bounds :=
              <[col := bounds]> (OutlierHandler.outlier_bounds s1);
            OutlierHandler.fill_values :=
              <[col := f]> (OutlierHandler.fill_values s1) |}).
Proof.
  split.
  - intros self s1 x l1 col m rest l2 E H1 Hm Hx.
    assert (Hstep : OutlierHandler.fit_col x (col, m :: rest) s1 = Raise KeyError).
    { unfold OutlierHandler.fit_col, getitem. simpl. rewrite Hm, Hx.
      destruct (is_str m "quantile"); reflexivity. }
    unfold OutlierHandler.fit. rewrite E, for_each_app, H1.
    cbn [mbind result_bind for_each]. rewrite Hstep. reflexivity.
  - intros self s1 x l1 col m bounds f rest l2 E H1 Hm.
    assert (Hq : is_str m "quantile" = false).
    { destruct m as [[|q|t]|l]; simpl in *; try discriminate Hm.
      apply String.eqb_eq in Hm. subst t. reflexivity. }
    assert (Hstep : OutlierHandler.fit_col x (col, m :: bounds :: f :: rest) s1
              = OK {| OutlierHandler.strategies := OutlierHandler.strategies s1;
                      OutlierHandler.outlier_bounds :=
                        <[col := bounds]> (OutlierHandler.outlier_bounds s1);
                      OutlierHandler.fill_values :=
                        <[col := f]> (OutlierHandler.fill_values s1) |}).
    { unfold OutlierHandler.fit_col. simpl. rewrite Hq, Hm. reflexivity. }
    unfold OutlierHandler.fit. rewrite E, for_each_app, H1.
    cbn [mbind result_bind for_each]. rewrite Hstep. reflexivity.
Qed.

(** [city_only_frame] has no column [b]. *)
Lemma outlier_fit_reads_witness :
  OutlierHandler.fit (OutlierHandler.init [("b", [Atom (Str "iqr"); Atom (Str "clip")])])
                     city_only_frame = Raise KeyError /\
  OutlierHandler.fit
    (OutlierHandler.init
       [("b", [Atom (Str "values"); PyList [num 0; num 200]; Atom (Str "clip")])])
    city_only_frame
  = OK {| OutlierHandler.strategies :=
            [("b", [Atom (Str "values"); PyList [num 0; num 200]; Atom (Str "clip")])];
          OutlierHandler.outlier_bounds := <["b" := PyList [num 0; num 200]]> ∅;
          OutlierHandler.fill_values := <["b" := Atom (Str "clip")]> ∅ |}.
Proof.
  destruct outlier_fit_reads_column_unless_values as (H1 & H2). split.
  - apply (H1 (OutlierHandler.init [("b", [Atom (Str "iqr"); Atom (Str "clip")])])
              (OutlierHandler.init [("b", [Atom (Str "iqr"); Atom (Str "clip")])])
              city_only_frame [] "b" (Atom (Str "iqr")) [Atom (Str "clip")] []);
      reflexivity.
  - apply (H2 (OutlierHandler.init
                 [("b", [Atom (Str "values"); PyList [num 0; num 200];
                         Atom (Str "clip")])])
              (OutlierHandler.init
                 [("b", [Atom (Str "values"); PyList [num 0; num 200];
                         Atom (Str "clip")])])
              city_only_frame [] "b" (Atom (Str "values")) (PyList [num 0; num 200])
              (Atom (Str "clip")) [] []); reflexivity.
Defined.

(** ** When fit of the scalar imputer returns *)

Lemma numeric_values_OK (c : column) :
  (exists qs, numeric_values c = OK qs) <-> numeric c.
Proof.
  unfold numeric. induction c as [|a c IH]; simpl.
  - split; [constructor | eauto].
  - destruct a as [|q|s].
    + rewrite IH. split; [constructor; [exact I | assumption]|].
      intros H. apply Forall_cons in H as [_ H]. exact H.
    + split.
      * intros (qs & H). apply bind_OK in H as (qs' & Hq & _).
        constructor; [exact I | apply IH; eauto].
      * intros H. apply Forall_cons in H as [_ H]. apply IH in H as (qs & ->).
        simpl. eauto.
    + split; [intros (qs & H); discriminate H|].
      intros H. apply Forall_cons in H as [[] _].
Qed.

Lemma numeric_dropna (c : column) : numeric (dropna c) <-> numeric c.
Proof.
  unfold numeric, dropna. rewrite !Forall_forall. split.
  - intros H a Ha. destruct a as [|q|s]; try exact I.
    apply (H (Str s)). apply list_elem_of_filter. auto.
  - intros H a Ha. apply list_elem_of_filter in Ha as [_ Ha]. apply H, Ha.
Qed.

Lemma mean_OK (l : list cell) : (exists v, mean l = OK v) <-> numeric l.
Proof.
  rewrite <- numeric_values_OK. unfold mean. split.
  - intros (v & H). apply bind_OK in H as (qs & Hq & _). eauto.
  - intros (qs & ->). simpl. destruct qs; eauto.
Qed.

Lemma median_OK (l : list cell) : (exists v, median l = OK v) <-> numeric l.
Proof.
  rewrite <- numeric_values_OK. unfold median. split.
  - intros (v & H). apply bind_OK in H as (qs & Hq & _). eauto.
  - intros (qs & ->). simpl. destruct (length (sort_Q qs)); [eauto|].
    destruct (Nat.even _); eauto.
Qed.

Lemma counter_add_not_nil (v : cell) (c : list (cell * nat)) : counter_add v c <> [].
Proof. destruct c as [|[w n] c]; simpl; [discriminate|]. destruct (cell_eqb w v); discriminate. Qed.

Lemma insert_by_count_not_nil (e : cell * nat) (s : list (cell * nat)) :
  insert_by_count e s <> [].
Proof. destruct s as [|f s]; simpl; [discriminate|]. destruct (e.2 <? f.2)%nat; discriminate. Qed.

Lemma mode_OK (l : list cell) : (exists v, mode l = OK v) <-> l <> [].
Proof.
  unfold mode. split.
  - intros (v & H) ->. discriminate H.
  - intros Hne.
    assert (HC : Counter l <> []).
    { unfold Counter. destruct l as [|a l] using rev_ind; [contradiction Hne; reflexivity|].
      rewrite fold_left_app. simpl. apply counter_add_not_nil. }
    unfold most_common. destruct (Counter l) as [|e C]; [contradiction HC; reflexivity|].
    simpl. pose proof (insert_by_count_not_nil e (foldr insert_by_count [] C)) as K.
    destruct (insert_by_count e (foldr insert_by_count [] C)) as [|[v n] r];
      [contradiction K; reflexivity | eauto].
Qed.

Lemma dropna_not_nil (c : column) :
  dropna c <> [] <-> exists a, a ∈ c /\ isna a = false.
Proof.
  unfold dropna. split.
  - intros H. destruct (filter _ c) as [|a l] eqn:E; [contradiction H; reflexivity|].
    assert (K : a ∈ filter (fun a => isna a = false) c) by (rewrite E; apply list_elem_of_here).
    apply list_elem_of_filter in K as [Ha K]. eauto.
  - intros (a & Ha & Hna) E.
    assert (K : a ∈ filter (fun a => isna a = false) c) by (apply list_elem_of_filter; auto).
    rewrite E in K. inversion K.
Qed.

Lemma resolve_OK (s : cell) (c : column) :
  (exists v, MissingImputer.resolve s (dropna c) = OK v) <-> fits_strategy s c.
Proof.
  unfold MissingImputer.resolve, fits_strategy.
  assert (Hname : forall n, cell_eqb s (Str n) = true <-> s = Str n).
  { intros n. split.
    - intros E. destruct s as [|q|t]; simpl in E; try discriminate E.
      apply String.eqb_eq in E. congruence.
    - intros ->. simpl. apply String.eqb_refl. }
  destruct (cell_eqb s (Str "mean")) eqn:E1.
  { apply Hname in E1. subst s. rewrite mean_OK, numeric_dropna. split.
    - intros H. split; [auto | discriminate].
    - intros [H _]. auto. }
  destruct (cell_eqb s (Str "median")) eqn:E2.
  { apply Hname in E2. subst s. rewrite median_OK, numeric_dropna. split.
    - intros H. split; [auto | discriminate].
    - intros [H _]. auto. }
  destruct (cell_eqb s (Str "mode")) eqn:E3.
  { apply Hname in E3. subst s. rewrite mode_OK, dropna_not_nil. split.
    - intros H. split; [intros [K|K]; discriminate K | auto].
    - intros [_ H]. auto. }
  split; [|eauto]. intros _. split.
  - intros [K|K]; apply Hname in K; congruence.
  - intros K. apply Hname in K. congruence.
Qed.

(** fit of the scalar imputer returns exactly when every configured column
    is in the frame, every column with the strategy "mean" or "median" holds
    no string, and every column with the strategy "mode" holds a value. *)
Theorem scalar_fit_returns_iff (self0 : MissingImputer.t) (x : DataFrame) :
  (exists self, MissingImputer.fit self0 x = OK self) <->
  (forall col s, (col, s) ∈ MissingImputer.strategies self0 ->
     exists c, x !! col = Some c /\ fits_strategy s c).
Proof.
  unfold MissingImputer.fit. rewrite missing_fit_resolved.
  assert (Hres : (exists r, resolved x (MissingImputer.strategies self0) = OK r) <->
            forall col s, (col, s) ∈ MissingImputer.strategies self0 ->
              exists c, x !! col = Some c /\ fits_strategy s c).
  { unfold resolved. generalize (MissingImputer.strategies self0). intros l.
    induction l as [|[k s] l IH].
    - split; [intros _ col s H; inversion H | simpl; eauto].
    - split.
      + intros (r & H). cbn [map_result] in H. apply bind_OK in H as (b & Hb & H).
        apply bind_OK in H as (bs & Hbs & _).
        apply bind_OK in Hb as (c & Hc & Hb). apply getitem_OK in Hc.
        apply bind_OK in Hb as (v & Hv & _). simpl in Hc, Hv.
        intros col s' Hin. apply elem_of_cons in Hin as [Heq|Hin].
        * injection Heq as -> ->. exists c. split; [exact Hc|].
          apply resolve_OK. eauto.
        * apply IH; eauto.
      + intros H. destruct (H k s (list_elem_of_here _ _)) as (c & Hc & Hfs).
        apply resolve_OK in Hfs as (v & Hv).
        destruct IH as [_ IH]. destruct IH as (r & Hr).
        { intros col s' Hin. apply H, list_elem_of_further, Hin. }
        exists ((k, v) :: r). cbn [map_result]. rewrite Hr.
        unfold getitem. simpl. rewrite Hc. simpl. rewrite Hv. reflexivity. }
  rewrite <- Hres. split.
  - intros (self & H). apply bind_OK in H as (values & H & _).
    apply bind_OK in H as (r & Hr & _). eauto.
  - intros (r & ->). simpl. eauto.
Qed.
(** The strategies of [scalar_strategies] on [scalar_frame]: a constant, a
    mean of numbers, a mode of a column with a value. *)
Lemma scalar_fit_returns_witness :
  exists self,
    MissingImputer.fit (MissingImputer.init scalar_strategies) scalar_frame = OK self.
Proof.
  apply (scalar_fit_returns_iff (MissingImputer.init scalar_strategies) scalar_frame).
  intros col s Hin. unfold MissingImputer.init, scalar_strategies in Hin. simpl in Hin.
  apply elem_of_cons in Hin as [Heq|Hin].
  { injection Heq as -> ->. exists [num 7; NaN; num 9].
    split; [vm_compute; reflexivity|].
    split; [intros [K|K]; discriminate K | intros K; discriminate K]. }
  apply elem_of_cons in Hin as [Heq|Hin].
  { injection Heq as -> ->. exists [num 10; num 20; NaN].
    split; [vm_compute; reflexivity|].
    split; [intros _; repeat constructor | intros K; discriminate K]. }
  apply elem_of_cons in Hin as [Heq|Hin]; [|inversion Hin].
  injection Heq as -> ->. exists [NaN; Str "F"; NaN].
  split; [vm_compute; reflexivity|].
  split; [intros [K|K]; discriminate K|].
  intros _. exists (Str "F"). split; [|reflexivity].
  apply list_elem_of_further, list_elem_of_here.
Defined.

(** ** From fit to transform: the outlier handler *)

Lemma handle_cell_replaced (lo hi q : Q) (na : bool) :
  (lo <= hi)%Q ->
  handle_cell (Num lo) (Num hi) na (Num q) = OK (replaced lo hi na q).
Proof.
  intros Hle. unfold handle_cell, below_cell, above_cell, cell_lt, replaced.
  destruct na; simpl; q_cases; try reflexivity; exfalso; q_props; lra.
Qed.

(** fit and transform together, for a strategy whose bounds are computed
    (quantiles in order, or the IQR rule) on a fitted column with a number.
    The bounds of the column are two numbers in order, and transform of any
    frame turns a number of the column into the bound it is beyond, or into
    the missing marker under the disposition "na", and keeps a number within
    the bounds. *)
Theorem fitted_handler_replaces_outliers (self0 self : OutlierHandler.t)
  (xfit x x' : DataFrame) (col : string) (strategy : list pyval)
  (c : column) (p q : Q) (i : nat) :
  NoDup (map fst (OutlierHandler.strategies self0)) ->
  OutlierHandler.fit self0 xfit = OK self ->
  (col, strategy) ∈ OutlierHandler.strategies self0 ->
  computed_bounds strategy ->
  xfit !! col = Some c -> Num p ∈ c ->
  OutlierHandler.transform self x = OK x' ->
  cell_at x col i = Some (Num q) ->
  exists lo hi fill,
    OutlierHandler.outlier_bounds self !! col = Some (PyList [Num lo; Num hi]) /\
    OutlierHandler.fill_values self !! col = Some fill /\
    (lo <= hi)%Q /\
    cell_at x' col i = Some (replaced lo hi (is_str fill "na") q).
Proof.
  intros Hnd Hfit Hin Hcb Hc Hp Htr Hq.
  apply list_elem_of_split in Hin as (l1 & l2 & E).
  assert (Hn : (col ∉ map fst l1) /\ (col ∉ map fst l2)).
  { rewrite E, map_app in Hnd. simpl in Hnd.
    apply NoDup_app in Hnd as (_ & Hd1 & Hd2). apply NoDup_cons in Hd2 as (Hn2 & _).
    split; [|exact Hn2]. intros K. apply (Hd1 _ K). apply list_elem_of_here. }
  destruct Hn as [Hn1 Hn2].
  destruct (outlier_fit_last _ _ _ _ _ _ _ Hfit E) as (Hstr & s1 & s2 & Hstep & Hb & Hf).
  { intros e He K. apply Hn2. rewrite <- K. apply elem_of_map, He. }
  destruct (fit_col_computed_bounds _ _ _ _ _ _ _ Hcb Hc Hp Hstep)
    as (lo & hi & fill & Hb2 & Hf2 & Hle).
  rewrite <- Hb in Hb2. rewrite <- Hf in Hf2.
  exists lo, hi, fill. repeat (split; [assumption|]).
  unfold OutlierHandler.transform in Htr. rewrite Hstr, E, for_each_app in Htr.
  apply bind_OK in Htr as (y1 & H1 & Htr). simpl in Htr.
  apply bind_OK in Htr as (y2 & H2 & H3).
  apply (outlier_transform_others _ _ col) in H1; [|exact Hn1].
  apply (outlier_transform_others _ _ col) in H3; [|exact Hn2].
  apply outlier_transform_col_OK in H2 as (m & cy & cy' & _ & Hcy & Hh & ->).
  simpl in *. rewrite lookup_insert_eq in H3.
  unfold cell_at in *. rewrite H3. rewrite <- H1, Hcy in Hq.
  unfold handle_column, lookup_key in Hh. rewrite Hb2 in Hh. simpl in Hh.
  rewrite Hf2 in Hh. simpl in Hh. apply map_result_OK in Hh.
  destruct (Forall2_lookup_l _ _ _ _ _ Hh Hq) as (b & Hb' & Hcell).
  rewrite (handle_cell_replaced lo hi q _ Hle) in Hcell. injection Hcell as <-.
  exact Hb'.
Qed.

(** The notebook: the column [c] under the IQR rule and "clip"; 540 is
    above the upper bound 436.125. *)
Lemma fitted_handler_witness :
  exists lo hi fill,
    OutlierHandler.outlier_bounds outlier_handler !! "c"
      = Some (PyList [Num lo; Num hi]) /\
    OutlierHandler.fill_values outlier_handler !! "c" = Some fill /\
    (lo <= hi)%Q /\
    cell_at outlier_result "c" 0 = Some (replaced lo hi (is_str fill "na") 540).
Proof.
  apply (fitted_handler_replaces_outliers (OutlierHandler.init outlier_strategies)
           outlier_handler outlier_frame outlier_frame outlier_result "c"
           [Atom (Str "iqr"); Atom (Str "clip")]
           [num 540; num 10; num 59; num 2] 540 540 0).
  - apply (bool_decide_unpack _). vm_compute. exact I.
  - vm_compute. reflexivity.
  - apply list_elem_of_further, list_elem_of_further, list_elem_of_here.
  - reflexivity.
  - reflexivity.
  - apply list_elem_of_here.
  - vm_compute. reflexivity.
  - reflexivity.
Defined.

(** ** Counting the missing values *)

Lemma missing_count_le (c c' : column) :
  Forall2 (fun a b => isna a = true -> isna b = true) c c' ->
  missing_count c <= missing_count c'.
Proof.
  unfold missing_count. induction 1 as [|a b c c' Hab H IH]; [reflexivity|].
  rewrite !filter_cons.
  destruct (decide (isna a = true)) as [Ha|Ha];
    destruct (decide (isna b = true)) as [Hb|Hb]; simpl; try lia.
  contradiction Hb. apply Hab, Ha.
Qed.

Lemma column_fills_missing (c c' : column) :
  Forall2 cell_fills c c' ->
  Forall2 (fun b a => isna b = true -> isna a = true) c' c.
Proof.
  intros H. apply Forall2_flip. eapply Forall2_impl; [exact H|].
  intros a b Hab Hb. destruct (isna a) eqn:Ha; [reflexivity|].
  rewrite (Hab Ha), Ha in Hb. discriminate Hb.
Qed.

(** The number of missing values of a column, as the notebook counts them
    with [isna().sum()]: an imputer (group or scalar) never raises it, and
    the outlier handler never lowers it. *)
Theorem missing_count_moves_one_way (C : component) (x x' : DataFrame)
  (col : string) (c c' : column) :
  component_transform C x = OK x' ->
  x !! col = Some c -> x' !! col = Some c' ->
  match C with
  | GroupImputer _ | ScalarImputer _ => missing_count c' <= missing_count c
  | Outliers _ => missing_count c <= missing_count c'
  end.
Proof.
  intros H Hc Hc'.
  assert (Hfills : frame_fills x x' -> missing_count c' <= missing_count c).
  { intros F. specialize (F col). rewrite Hc, Hc' in F.
    inversion F as [c1 c2 HF|]; subst.
    apply missing_count_le, column_fills_missing, HF. }
  destruct C as [imp|self|self]; simpl in H.
  - apply Hfills. eapply imputer_transform_fills; exact H.
  - apply Hfills. eapply missing_transform_fills; exact H.
  - apply missing_count_le.
    pose proof (outlier_transform_shape _ _ _ H col) as Hs.
    rewrite Hc, Hc' in Hs. inversion Hs as [c1 c2 Hlen|]; subst.
    apply Forall2_same_length_lookup. split; [exact Hlen|].
    intros i a b Ha Hb Hna. apply isna_true in Hna. subst a.
    assert (K : cell_at x' col i = Some NaN).
    { eapply outlier_transform_missing; [exact H|].
      unfold cell_at. rewrite Hc. exact Ha. }
    unfold cell_at in K. rewrite Hc', Hb in K. injection K as ->. reflexivity.
Qed.

(** The genders of [mode_frame]: one missing before, none after. *)
Lemma missing_count_witness :
  missing_count [Str "F"; Str "F"; Str "M"; Str "F"]
  <= missing_count [Str "F"; Str "F"; Str "M"; NaN].
Proof.
  apply (missing_count_moves_one_way (GroupImputer mode_imputer) mode_frame
           (transformed (imputer_transform mode_imputer mode_frame)) "gender"
           [Str "F"; Str "F"; Str "M"; NaN] [Str "F"; Str "F"; Str "M"; Str "F"]).
  - vm_compute. reflexivity.
  - reflexivity.
  - vm_compute. reflexivity.
Defined.
